(** * Car Finder PWA: the geometry engine and the position acquirer

    A shallow embedding of [utils/gps.ts], [hooks/useGeolocation.ts] and
    [utils/storage.ts].  A JavaScript [number] is read as an exact real
    number: the arithmetic operators are the field operations of [R],
    [Math.round] and [%] are written out below, and [Math.sin], [Math.cos],
    [Math.sqrt] are the real functions.  A value that the source may leave
    [null] or [undefined] is an [option].  What is proved of these
    definitions is proved of the code in exact arithmetic.  Module
    [Binary64] reads [calculateDistance], [normalizeHeading], the smoothing
    and the movement gate once more with [number] as an IEEE-754 binary64
    float, to show where rounding, absorption and NaN make the code depart
    from that reading. *)

From Stdlib Require Import Floats.
From Stdlib Require Import Reals Lra Lia ZArith List String Ascii Bool Psatz.
From Stdlib Require Import DecimalString QArith Qreals.
From Equations Require Import Equations.
Import ListNotations.

Local Open Scope R_scope.

(** ** JavaScript arithmetic that [R] does not have ready-made *)

Module JS.

(** [Math.round x]: the nearest integer, a tie going towards +infinity. *)
Definition Math_round (x : R) : Z := Int_part (x + / 2).

(** [Math.trunc]-like integer part towards zero, as [%] uses it. *)
Definition truncate (x : R) : Z :=
  if Rle_dec 0 x then Int_part x else (- Int_part (- x))%Z.

(** [x % m] on numbers: the remainder has the sign of the dividend. *)
Definition rem (x m : R) : R := x - m * IZR (truncate (x / m)).

(** [xs[i]] for an integer-valued index: [undefined] out of range. *)
Definition index {A : Type} (xs : list A) (i : Z) : option A :=
  if (i <? 0)%Z then None else nth_error xs (Z.to_nat i).

End JS.

(** ** utils/gps.ts *)

Definition EARTH_RADIUS_METERS : R := 6371000.
Definition FEET_PER_METER : R := 328084 / 100000.
Definition DISTANCE_THRESHOLD_FEET : R := 1000.

Record Coordinates : Type := mkCoordinates {
  latitude : R;
  longitude : R
}.

(** [Math.atan2 y x] on the reals: the angle of the point [(x, y)], in
    (-PI, PI]; the origin is sent to 0 as ECMAScript does for (+0, +0). *)
Definition Math_atan2 (y x : R) : R :=
  if Rlt_dec 0 x then atan (y / x)
  else if Rlt_dec x 0 then
    (if Rle_dec 0 y then atan (y / x) + PI else atan (y / x) - PI)
  else if Rlt_dec 0 y then PI / 2
  else if Rlt_dec y 0 then - (PI / 2)
  else 0.

Definition toRadians (degrees : R) : R := degrees * (PI / 180).
Definition toDegrees (radians : R) : R := radians * (180 / PI).

(** The intermediate value [a] of the haversine formula. *)
Definition haversineA (point1 point2 : Coordinates) : R :=
  let lat1Rad := toRadians (latitude point1) in
  let lat2Rad := toRadians (latitude point2) in
  let deltaLat := toRadians (latitude point2 - latitude point1) in
  let deltaLong := toRadians (longitude point2 - longitude point1) in
  sin (deltaLat / 2) * sin (deltaLat / 2) +
  cos lat1Rad * cos lat2Rad *
  sin (deltaLong / 2) * sin (deltaLong / 2).

Definition calculateDistance (point1 point2 : Coordinates) : R :=
  let a := haversineA point1 point2 in
  let c := 2 * Math_atan2 (sqrt a) (sqrt (1 - a)) in
  EARTH_RADIUS_METERS * c.

Definition calculateBearing (from to : Coordinates) : R :=
  let lat1 := toRadians (latitude from) in
  let lat2 := toRadians (latitude to) in
  let deltaLong := toRadians (longitude to - longitude from) in
  let x := sin deltaLong * cos lat2 in
  let y := cos lat1 * sin lat2 - sin lat1 * cos lat2 * cos deltaLong in
  let bearing := toDegrees (Math_atan2 x y) in
  JS.rem (bearing + 360) 360.

(** The number of times [while (heading < 0) heading += 360] still has to
    run: it bounds the recursion below. *)
Definition wraps (heading : R) : nat := Z.to_nat (up (- heading / 360)).

Lemma wraps_decrease (heading : R) :
  heading < 0 -> (wraps (heading + 360) < wraps heading)%nat.
Proof.
  intros Hneg. unfold wraps.
  assert (Hup : up (- (heading + 360) / 360) = (up (- heading / 360) - 1)%Z).
  { symmetry. apply tech_up.
    - rewrite minus_IZR. destruct (archimed (- heading / 360)) as [H1 H2]. lra.
    - rewrite minus_IZR. destruct (archimed (- heading / 360)) as [H1 H2]. lra. }
  rewrite Hup.
  assert (Hpos : (1 <= up (- heading / 360))%Z).
  { destruct (archimed (- heading / 360)) as [H1 _].
    assert (H0 : 0 < IZR (up (- heading / 360))) by lra.
    apply lt_IZR in H0. lia. }
  lia.
Qed.

(** [while (heading < 0) heading += 360;] over the reals, where the loop
    exits after [wraps heading] rounds.  On binary64 numbers it need not
    exit: see [Binary64.addWhileNegative]. *)
Equations addWhileNegative (heading : R) : R by wf (wraps heading) lt :=
  addWhileNegative heading with Rlt_dec heading 0 := {
    | left Hneg => addWhileNegative (heading + 360)
    | right _ => heading
  }.
Next Obligation. apply wraps_decrease; assumption. Qed.

Definition normalizeHeading (heading : R) : R :=
  JS.rem (addWhileNegative heading) 360.

Definition calculateRelativeHeading (bearing deviceHeading : R) : R :=
  let relative := bearing - deviceHeading in
  normalizeHeading relative.

Definition directions : list string :=
  ["N"; "NE"; "E"; "SE"; "S"; "SW"; "W"; "NW"]%string.

(** [Math.round(bearing / 45) % 8]: both operands are integers, on which
    JavaScript's [%] is [Z.rem]. *)
Definition cardinalIndex (bearing : R) : Z :=
  Z.rem (JS.Math_round (bearing / 45)) 8.

Definition getCardinalDirection (bearing : R) : option string :=
  JS.index directions (cardinalIndex bearing).

Record Formatted : Type := mkFormatted {
  value : string;
  unit : string
}.

Section FormatDistance.

(** [Number.prototype.toLocaleString] of the host, on the integers that
    [Math.round] produces. *)
Variable toLocaleString : Z -> string.

Definition formatDistance (meters : R) : Formatted :=
  let feet := meters * FEET_PER_METER in
  if Rlt_dec feet DISTANCE_THRESHOLD_FEET then
    {| value := toLocaleString (JS.Math_round feet); unit := "ft" |}
  else
    let roundedMeters := (JS.Math_round (meters / 10) * 10)%Z in
    {| value := toLocaleString roundedMeters; unit := "m" |}.

End FormatDistance.

(** [toLocaleString] as an en-US host renders an integer: decimal digits,
    grouped by three with commas. *)
Fixpoint commas (rev_digits : list ascii) (seen : nat) : list ascii :=
  match rev_digits with
  | [] => []
  | d :: rest =>
      if Nat.eqb seen 3 then ","%char :: d :: commas rest 1
      else d :: commas rest (S seen)
  end.

Definition toLocaleString_enUS (n : Z) : string :=
  let digits :=
    list_ascii_of_string (NilZero.string_of_uint (N.to_uint (Z.abs_N n))) in
  let grouped := string_of_list_ascii (rev (commas (rev digits) 0)) in
  if (n <? 0)%Z then ("-" ++ grouped)%string else grouped.

(** ** hooks/useGeolocation.ts *)

Module Geo.

(** What the device delivers: [pos.coords.latitude], [pos.coords.longitude],
    [pos.coords.accuracy] and [pos.timestamp] of a [GeolocationPosition]. *)
Record GeolocationPosition : Type := mkPosition {
  pos_latitude : R;
  pos_longitude : R;
  pos_accuracy : R;
  pos_timestamp : R
}.

Variant GeolocationPositionError : Type :=
  | PERMISSION_DENIED
  | POSITION_UNAVAILABLE
  | TIMEOUT
  | UNKNOWN_ERROR.

Record PositionReading : Type := mkReading {
  coords : Coordinates;
  accuracy : R;
  timestamp : R
}.

(** [BestReadingResult], also the shape [calculateSmoothedPosition] returns. *)
Record BestReadingResult : Type := mkResult {
  result_coords : Coordinates;
  result_accuracy : R
}.

Definition getErrorMessage (error : GeolocationPositionError) : string :=
  match error with
  | PERMISSION_DENIED =>
      "Location access denied. Please enable location permissions in your browser settings."
  | POSITION_UNAVAILABLE =>
      "Unable to determine your location. Please check that GPS is enabled."
  | TIMEOUT =>
      "Location request timed out. Please try again in an open area."
  | UNKNOWN_ERROR =>
      "An unknown error occurred while getting your location."
  end.

Definition POSITION_BUFFER_SIZE : nat := 5.
Definition MOVEMENT_THRESHOLD_FACTOR : R := 5 / 10.

(** The hook's React state and refs. *)
Record Hook : Type := mkHook {
  position : option Coordinates;
  accuracyState : option R;
  error : option string;
  isTracking : bool;
  isLoading : bool;
  watchIdRef : option nat;
  positionBufferRef : list PositionReading;
  lastReportedPositionRef : option Coordinates
}.

Definition initialHook : Hook :=
  {| position := None; accuracyState := None; error := None;
     isTracking := false; isLoading := false; watchIdRef := None;
     positionBufferRef := []; lastReportedPositionRef := None |}.

(** [navigator]: whether [navigator.geolocation] exists, the watches that
    are registered, and the id the next [watchPosition] returns. *)
Record Navigator : Type := mkNavigator {
  geolocation : bool;
  watches : list nat;
  nextWatchId : nat
}.

Definition clearWatch (id : nat) (nav : Navigator) : Navigator :=
  {| geolocation := geolocation nav;
     watches := filter (fun w => negb (Nat.eqb w id)) (watches nav);
     nextWatchId := nextWatchId nav |}.

Definition watchPosition (nav : Navigator) : nat * Navigator :=
  (nextWatchId nav,
   {| geolocation := geolocation nav;
      watches := nextWatchId nav :: watches nav;
      nextWatchId := S (nextWatchId nav) |}).

(** The accumulators of the [for (const reading of buffer)] loop, over
    the reals.  The weight [1 / accuracy] is the quotient of the source
    for an accuracy that is not 0; statements about the weighted sums
    assume positive accuracies.  [Binary64.calculateSmoothedPosition] is
    the same loop on binary64 numbers. *)
Record Sums : Type := mkSums {
  totalWeight : R;
  weightedLat : R;
  weightedLng : R;
  bestAccuracy : option R   (* [None] is [Infinity] *)
}.

Definition minAccuracy (best : option R) (acc : R) : option R :=
  match best with
  | None => Some acc
  | Some b => Some (Rmin b acc)
  end.

Definition addReading (s : Sums) (reading : PositionReading) : Sums :=
  let weight := 1 / accuracy reading in
  {| totalWeight := totalWeight s + weight;
     weightedLat := weightedLat s + latitude (coords reading) * weight;
     weightedLng := weightedLng s + longitude (coords reading) * weight;
     bestAccuracy := minAccuracy (bestAccuracy s) (accuracy reading) |}.

Definition zeroSums : Sums :=
  {| totalWeight := 0; weightedLat := 0; weightedLng := 0;
     bestAccuracy := None |}.

Definition calculateSmoothedPosition (buffer : list PositionReading)
  : option BestReadingResult :=
  match buffer with
  | [] => None
  | _ =>
      let s := fold_left addReading buffer zeroSums in
      match bestAccuracy s with
      | None => None
      | Some best =>
          Some {| result_coords :=
                    {| latitude := weightedLat s / totalWeight s;
                       longitude := weightedLng s / totalWeight s |};
                  result_accuracy := best |}
      end
  end.

(** [push] followed by [shift] when the buffer has outgrown its size. *)
Definition pushReading (buffer : list PositionReading) (r : PositionReading)
  : list PositionReading :=
  let pushed := buffer ++ [r] in
  if (POSITION_BUFFER_SIZE <? List.length pushed)%nat then tl pushed else pushed.

(** [handleSuccess] over the reals, where the distance is always a
    number; [Binary64.handleSuccess] is the same callback on binary64
    numbers, where the distance can be NaN. *)
Definition handleSuccess (pos : GeolocationPosition) (h : Hook) : Hook :=
  let newReading :=
    {| coords := {| latitude := pos_latitude pos;
                    longitude := pos_longitude pos |};
       accuracy := pos_accuracy pos;
       timestamp := pos_timestamp pos |} in
  let buffer := pushReading (positionBufferRef h) newReading in
  match calculateSmoothedPosition buffer with
  | None =>
      mkHook (position h) (accuracyState h) (error h) (isTracking h)
             (isLoading h) (watchIdRef h) buffer (lastReportedPositionRef h)
  | Some smoothed =>
      let lastPos := lastReportedPositionRef h in
      let movementThreshold := pos_accuracy pos * MOVEMENT_THRESHOLD_FACTOR in
      let update :=
        match lastPos with
        | None => true
        | Some last =>
            if Rgt_dec (calculateDistance last (result_coords smoothed))
                       movementThreshold
            then true else false
        end in
      if update then
        mkHook (Some (result_coords smoothed))
               (Some (result_accuracy smoothed))
               None (isTracking h) false (watchIdRef h) buffer
               (Some (result_coords smoothed))
      else
        mkHook (position h) (accuracyState h) None (isTracking h) false
               (watchIdRef h) buffer (lastReportedPositionRef h)
  end.

Definition handleError (err : GeolocationPositionError) (h : Hook) : Hook :=
  mkHook (position h) (accuracyState h) (Some (getErrorMessage err))
         (isTracking h) false (watchIdRef h) (positionBufferRef h)
         (lastReportedPositionRef h).

Definition startTracking (hn : Hook * Navigator) : Hook * Navigator :=
  let '(h, nav) := hn in
  if negb (geolocation nav) then
    (mkHook (position h) (accuracyState h)
            (Some "Geolocation is not supported by your browser."%string)
            (isTracking h) (isLoading h) (watchIdRef h)
            (positionBufferRef h) (lastReportedPositionRef h), nav)
  else
    let nav1 :=
      match watchIdRef h with
      | Some id => clearWatch id nav
      | None => nav
      end in
    let '(id, nav2) := watchPosition nav1 in
    (mkHook (position h) (accuracyState h) None true true (Some id)
            (positionBufferRef h) (lastReportedPositionRef h), nav2).

Definition stopTracking (hn : Hook * Navigator) : Hook * Navigator :=
  let '(h, nav) := hn in
  let '(watch, nav1) :=
    match watchIdRef h with
    | Some id => (None, clearWatch id nav)
    | None => (watchIdRef h, nav)
    end in
  (mkHook (position h) (accuracyState h) (error h) false false watch
          (positionBufferRef h) (lastReportedPositionRef h), nav1).

(** The outcome of one [getCurrentPosition] request. *)
Variant Sample : Type :=
  | Resolved (pos : GeolocationPosition)
  | Rejected (err : GeolocationPositionError).

(** The body of [for (let i = 0; i < numSamples; i++)]: the i-th request is
    answered by [sensor i]; a rejected request leaves [readings] as it is. *)
Fixpoint takeReadings (sensor : nat -> Sample) (i remaining : nat)
  (readings : list PositionReading) : list PositionReading :=
  match remaining with
  | O => readings
  | S remaining' =>
      match sensor i with
      | Resolved pos =>
          takeReadings sensor (S i) remaining'
            (readings ++
             [{| coords := {| latitude := pos_latitude pos;
                              longitude := pos_longitude pos |};
                 accuracy := pos_accuracy pos;
                 timestamp := pos_timestamp pos |}])
      | Rejected _ => takeReadings sensor (S i) remaining' readings
      end
  end.

(** [readings.reduce((best, current) => ...)] with no initial value. *)
Definition bestOf (first : PositionReading) (rest : list PositionReading)
  : PositionReading :=
  fold_left
    (fun best current =>
       if Rlt_dec (accuracy current) (accuracy best) then current else best)
    rest first.

Definition getBestReading (numSamples : nat) (sensor : nat -> Sample)
  (nav : Navigator) (h : Hook) : Hook * option BestReadingResult :=
  if negb (geolocation nav) then
    (mkHook (position h) (accuracyState h)
            (Some "Geolocation is not supported by your browser."%string)
            (isTracking h) (isLoading h) (watchIdRef h)
            (positionBufferRef h) (lastReportedPositionRef h), None)
  else
    match takeReadings sensor 0 numSamples [] with
    | [] =>
        (mkHook (position h) (accuracyState h)
                (Some "Failed to get any GPS readings."%string)
                (isTracking h) false (watchIdRef h)
                (positionBufferRef h) (lastReportedPositionRef h), None)
    | first :: rest =>
        let bestReading := bestOf first rest in
        (mkHook (Some (coords bestReading)) (Some (accuracy bestReading))
                None (isTracking h) false (watchIdRef h)
                (positionBufferRef h) (lastReportedPositionRef h),
         Some {| result_coords := coords bestReading;
                 result_accuracy := accuracy bestReading |})
    end.

(** [getCurrentPosition]: one request, answered by [sample]. *)
Definition getCurrentPosition (sample : Sample) (nav : Navigator) (h : Hook)
  : Hook * option Coordinates :=
  if negb (geolocation nav) then
    (mkHook (position h) (accuracyState h)
            (Some "Geolocation is not supported by your browser."%string)
            (isTracking h) (isLoading h) (watchIdRef h)
            (positionBufferRef h) (lastReportedPositionRef h), None)
  else
    match sample with
    | Resolved pos =>
        let coords := {| latitude := pos_latitude pos;
                         longitude := pos_longitude pos |} in
        (mkHook (Some coords) (Some (pos_accuracy pos)) None (isTracking h)
                false (watchIdRef h) (positionBufferRef h)
                (lastReportedPositionRef h), Some coords)
    | Rejected err =>
        (mkHook (position h) (accuracyState h) (Some (getErrorMessage err))
                (isTracking h) false (watchIdRef h) (positionBufferRef h)
                (lastReportedPositionRef h), None)
    end.

(** What reaches the hook while it is mounted: the two controls, and the
    two callbacks of the watch. *)
Variant TrackingEvent : Type :=
  | Start
  | Stop
  | FixArrives (pos : GeolocationPosition)
  | SensorFails (err : GeolocationPositionError).

Definition step (s : Hook * Navigator) (event : TrackingEvent)
  : Hook * Navigator :=
  match event with
  | Start => startTracking s
  | Stop => stopTracking s
  | FixArrives pos => (handleSuccess pos (fst s), snd s)
  | SensorFails err => (handleError err (fst s), snd s)
  end.

Definition run (events : list TrackingEvent) (s : Hook * Navigator)
  : Hook * Navigator :=
  fold_left step events s.

End Geo.

(** ** utils/storage.ts *)

Module Storage.

(** How a JavaScript expression completes: with a value, or by throwing. *)
Inductive Completion (E A : Type) : Type :=
  | Normal (v : A)
  | Throw (e : E).
Arguments Normal {E A} v.
Arguments Throw {E A} e.

Definition bind {E A B : Type} (m : Completion E A)
  (k : A -> Completion E B) : Completion E B :=
  match m with
  | Normal v => k v
  | Throw e => Throw e
  end.

(** [try { body } catch (error) { handler }] *)
Definition tryCatch {E A : Type} (body : Completion E A)
  (handler : E -> Completion E A) : Completion E A :=
  match body with
  | Normal v => Normal v
  | Throw e => handler e
  end.

Definition STORAGE_KEY : string := "carfinder_saved_location".

(** [localStorage]: access is refused with an exception (storage disabled),
    or the store holds items by key. *)
Inductive LocalStorage (E : Type) : Type :=
  | Refused (e : E)
  | Items (items : list (string * string)).
Arguments Refused {E} e.
Arguments Items {E} items.

Fixpoint lookup (key : string) (items : list (string * string))
  : option string :=
  match items with
  | [] => None
  | (k, v) :: rest => if String.eqb k key then Some v else lookup key rest
  end.

Definition getItem {E : Type} (localStorage : LocalStorage E) (key : string)
  : Completion E (option string) :=
  match localStorage with
  | Refused e => Throw e
  | Items items => Normal (lookup key items)
  end.

Section GetCarLocation.

(** The exceptions and values of the host, and its [JSON.parse]. *)
Variables (E V : Type).
Variable JSON_parse : string -> Completion E V.

(** [data ? JSON.parse(data) : null]: [null] and the empty string are
    falsy.  The function's [null] is [None]. *)
Definition getCarLocation (localStorage : LocalStorage E)
  : Completion E (option V) :=
  tryCatch
    (bind (getItem localStorage STORAGE_KEY) (fun data =>
       match data with
       | None => Normal None
       | Some text =>
           if String.eqb text EmptyString then Normal None
           else bind (JSON_parse text) (fun parsed => Normal (Some parsed))
       end))
    (fun error => Normal None).

End GetCarLocation.

(** *** Writing to the storage *)

Fixpoint remove (key : string) (items : list (string * string))
  : list (string * string) :=
  match items with
  | [] => []
  | (k, v) :: rest =>
      if String.eqb k key then remove key rest else (k, v) :: remove key rest
  end.

Section Writes.

Variable E : Type.

(** Whether the host refuses a write for lack of room: [Some e] is the
    exception [setItem] then throws. *)
Variable full : list (string * string) -> string -> string -> option E.

Definition setItem (localStorage : LocalStorage E) (key text : string)
  : Completion E (LocalStorage E) :=
  match localStorage with
  | Refused e => Throw e
  | Items items =>
      match full items key text with
      | Some e => Throw e
      | None => Normal (Items ((key, text) :: remove key items))
      end
  end.

Definition removeItem (localStorage : LocalStorage E) (key : string)
  : Completion E (LocalStorage E) :=
  match localStorage with
  | Refused e => Throw e
  | Items items => Normal (Items (remove key items))
  end.

Variable V : Type.
Variable JSON_stringify : V -> string.

(** [saveCarLocation]: the flag returned, and the storage afterwards. *)
Definition saveCarLocation (localStorage : LocalStorage E) (location : V)
  : bool * LocalStorage E :=
  match setItem localStorage STORAGE_KEY (JSON_stringify location) with
  | Normal stored => (true, stored)
  | Throw error => (false, localStorage)
  end.

(** [clearCarLocation] has no [try]: an exception of the storage escapes. *)
Definition clearCarLocation (localStorage : LocalStorage E)
  : Completion E (LocalStorage E) :=
  removeItem localStorage STORAGE_KEY.

(** [hasCarLocation], likewise unguarded. *)
Definition hasCarLocation (localStorage : LocalStorage E)
  : Completion E bool :=
  bind (getItem localStorage STORAGE_KEY) (fun data =>
    Normal (match data with Some _ => true | None => false end)).

End Writes.

End Storage.

(** ** utils/googleGeolocation.ts *)

Module GoogleGeolocation.

Import Storage.

Definition GOOGLE_API_STORAGE_KEY : string := "carfinder_google_api_key".
Definition SUPER_PRECISE_MODE_KEY : string := "carfinder_super_precise_mode".

Section Keys.

Variable E : Type.
Variable full : list (string * string) -> string -> string -> option E.

Definition saveGoogleApiKey (localStorage : LocalStorage E) (apiKey : string)
  : bool * LocalStorage E :=
  match setItem E full localStorage GOOGLE_API_STORAGE_KEY apiKey with
  | Normal stored => (true, stored)
  | Throw error => (false, localStorage)
  end.

Definition getGoogleApiKey (localStorage : LocalStorage E) : option string :=
  match getItem localStorage GOOGLE_API_STORAGE_KEY with
  | Normal data => data
  | Throw error => None
  end.

Definition clearGoogleApiKey (localStorage : LocalStorage E)
  : Completion E (LocalStorage E) :=
  removeItem E localStorage GOOGLE_API_STORAGE_KEY.

(** [!!getGoogleApiKey()]: [null] and the empty string are falsy. *)
Definition hasGoogleApiKey (localStorage : LocalStorage E) : bool :=
  match getGoogleApiKey localStorage with
  | None => false
  | Some key => negb (String.eqb key EmptyString)
  end.

(** [JSON.stringify] of a boolean. *)
Definition stringifyBool (enabled : bool) : string :=
  if enabled then "true" else "false".

Definition setSuperPreciseMode (localStorage : LocalStorage E)
  (enabled : bool) : LocalStorage E :=
  match setItem E full localStorage SUPER_PRECISE_MODE_KEY
          (stringifyBool enabled) with
  | Normal stored => stored
  | Throw error => localStorage
  end.

(** The values of the host, with its booleans among them, and its
    [JSON.parse]. *)
Variable V : Type.
Variable ofBool : bool -> V.
Variable JSON_parse : string -> Completion E V.

Definition getSuperPreciseMode (localStorage : LocalStorage E) : V :=
  match
    tryCatch
      (bind (getItem localStorage SUPER_PRECISE_MODE_KEY) (fun data =>
         match data with
         | None => Normal (ofBool false)
         | Some text =>
             if String.eqb text EmptyString then Normal (ofBool false)
             else JSON_parse text
         end))
      (fun error => Normal (ofBool false))
  with
  | Normal result => result
  | Throw error => ofBool false
  end.

End Keys.

End GoogleGeolocation.

(** ** hooks/useDeviceOrientation.ts *)

Module Orientation.

(** What a [DeviceOrientationEvent] carries: [webkitCompassHeading], which
    is [undefined] ([None]) off iOS and may be [null] ([Some None]), and
    [alpha], which may be [null]. *)
Record DeviceOrientationEvent : Type := mkEvent {
  webkitCompassHeading : option (option R);
  alpha : option R
}.

(** The hook's state, and whether [listenerRef.current] holds the
    listener. *)
Record Compass : Type := mkCompass {
  heading : option R;
  isAvailable : bool;
  isActive : bool;
  needsPermission : bool;
  error : option string;
  listenerRef : bool
}.

(** [window]: the capture flags under which [handleOrientation], the only
    listener there is, stands registered for 'deviceorientation'. *)
Definition Window : Type := list bool.

(** [addEventListener]: a listener already registered with the same
    capture flag is not registered twice. *)
Definition addEventListener (capture : bool) (w : Window) : Window :=
  if existsb (Bool.eqb capture) w then w else capture :: w.

(** [removeEventListener]: only a registration with the same capture flag
    is removed. *)
Definition removeEventListener (capture : bool) (w : Window) : Window :=
  filter (fun c => negb (Bool.eqb capture c)) w.

(** [window.screen?.orientation?.angle || 0]: [None] when a link of the
    chain is missing. *)
Definition screenOrientation (angle : option R) : R :=
  match angle with
  | Some a => a
  | None => 0
  end.

Definition compassHeading (angle : option R) (event : DeviceOrientationEvent)
  : option R :=
  match webkitCompassHeading event with
  | Some webkit => webkit
  | None =>
      match alpha event with
      | Some a => Some (JS.rem (360 - a + screenOrientation angle) 360)
      | None => None
      end
  end.

Definition handleOrientation (angle : option R)
  (event : DeviceOrientationEvent) (c : Compass) : Compass :=
  match compassHeading angle event with
  | Some h =>
      mkCompass (Some h) true (isActive c) (needsPermission c) None
                (listenerRef c)
  | None =>
      mkCompass (heading c) false (isActive c) (needsPermission c) (error c)
                (listenerRef c)
  end.

(** The browser dispatching an orientation event: the listener runs once
    for each of its registrations. *)
Definition dispatch (angle : option R) (event : DeviceOrientationEvent)
  (cw : Compass * Window) : Compass * Window :=
  (fold_left (fun c _ => handleOrientation angle event c) (snd cw) (fst cw),
   snd cw).

(** [startListening]; [supported] is whether [DeviceOrientationEvent] is
    defined.  Besides the state it yields the timer it sets, if any: the
    timer carries the [heading] that the callback closed over. *)
Definition startListening (supported : bool) (cw : Compass * Window)
  : Compass * Window * option (option R) :=
  let '(c, w) := cw in
  if negb supported then
    (mkCompass (heading c) false (isActive c) (needsPermission c)
               (Some "Device orientation is not supported by your browser."%string)
               (listenerRef c), w, None)
  else
    let w1 := if listenerRef c then removeEventListener false w else w in
    let w2 := addEventListener true w1 in
    (mkCompass (heading c) (isAvailable c) true (needsPermission c) (error c)
               true, w2, Some (heading c)).

(** The timer of [startListening] firing, two seconds later. *)
Definition timerFires (captured : option R) (c : Compass) : Compass :=
  match captured with
  | None =>
      mkCompass (heading c) false (isActive c) (needsPermission c) (error c)
                (listenerRef c)
  | Some _ => c
  end.

Definition stopListening (cw : Compass * Window) : Compass * Window :=
  let '(c, w) := cw in
  let '(ref, w1) :=
    if listenerRef c then (false, removeEventListener false w)
    else (listenerRef c, w) in
  (mkCompass (heading c) (isAvailable c) false (needsPermission c) (error c)
             ref, w1).

Definition initialCompass (needsPermission : bool) : Compass :=
  mkCompass None true false needsPermission None false.

(** How [DeviceOrientationEvent.requestPermission()] settles: with
    'granted', with another answer, or by rejecting. *)
Variant PermissionOutcome : Type := Granted | Denied | Failed.

(** [requestPermission]; [checkNeedsPermission] is what the function of
    that name returns in this browser.  The flag is the promise's value. *)
Definition requestPermission (checkNeedsPermission : bool)
  (outcome : PermissionOutcome) (c : Compass) : Compass * bool :=
  if negb checkNeedsPermission then
    (mkCompass (heading c) (isAvailable c) (isActive c) false (error c)
               (listenerRef c), true)
  else
    match outcome with
    | Granted =>
        (mkCompass (heading c) (isAvailable c) (isActive c) false None
                   (listenerRef c), true)
    | Denied =>
        (mkCompass (heading c) false (isActive c) (needsPermission c)
           (Some "Compass permission was denied. Simple mode will be used instead."%string)
           (listenerRef c), false)
    | Failed =>
        (mkCompass (heading c) false (isActive c) (needsPermission c)
           (Some "Unable to access compass. Simple mode will be used instead."%string)
           (listenerRef c), false)
    end.

End Orientation.

(** ** components/CarFinder.tsx: the calculated values *)

Module CarFinder.

Record SavedLocation : Type := mkSaved {
  location : Coordinates;
  timestamp : R;
  accuracy : option R
}.

Variant ArrivalStatus : Type := found | close | navigating.

Section CalculatedValues.

Variable toLocaleString : Z -> string.

Variable position : option Coordinates.
Variable savedLocation : option SavedLocation.
Variable useSimpleMode : bool.
Variable compassHeading : option R.

Definition distanceMeters : option R :=
  match position, savedLocation with
  | Some p, Some saved => Some (calculateDistance p (location saved))
  | _, _ => None
  end.

Definition bearingToCar : option R :=
  match position, savedLocation with
  | Some p, Some saved => Some (calculateBearing p (location saved))
  | _, _ => None
  end.


Definition formattedDistance : Formatted :=
  match distanceMeters with
  | Some d => formatDistance toLocaleString d
  | None => {| value := "--"; unit := EmptyString |}
  end.

(** [getCardinalDirection] may be [undefined], which is [None] here. *)
Definition cardinalDirection : option string :=
  match bearingToCar with
  | Some bearing => getCardinalDirection bearing
  | None => Some EmptyString
  end.

Definition arrivalStatus : ArrivalStatus :=
  match distanceMeters with
  | Some d =>
      if Rlt_dec d 5 then found
      else if Rlt_dec d 15 then close
      else navigating
  | None => navigating
  end.

(** The number in the text "Within ~N ft" of the close zone:
    [Math.round((distanceMeters ?? 0) * 3.28084)]. *)
Definition withinFeet : Z :=
  JS.Math_round
    ((match distanceMeters with Some d => d | None => 0 end)
     * (328084 / 100000)).

End CalculatedValues.

(** *** The component's state and its handlers *)

Variant AppMode : Type := set | find.

(** What a handler does besides changing state, in the order done. *)
Variant Effect : Type :=
  | Vibrate (pattern : list Z)
  | SavedToast (accuracyFeet : Z)
  | SaveFailedToast
  | SimpleModeToast
  | ClearedToast
  | ShowCarSavedNotification
  | DismissCarNotification.

Section Handlers.

(** The host: its exceptions, the room of its storage, [JSON.stringify],
    and whether [navigator] has [vibrate]. *)
Variable E : Type.
Variable full : list (string * string) -> string -> string -> option E.
Variable JSON_stringify : SavedLocation -> string.
Variable vibrates : bool.

(** The component's state, the state of its two hooks, and the browser
    objects they act on. *)
Record App : Type := mkApp {
  savedLocation : option SavedLocation;
  mode : AppMode;
  useSimpleMode : bool;
  isSaving : bool;
  geo : Geo.Hook;
  nav : Geo.Navigator;
  compass : Orientation.Compass;
  window : Orientation.Window;
  localStorage : Storage.LocalStorage E;
  log : list Effect
}.

(** The effect on [isCompassAvailable] and [mode]. *)
Definition simpleModeEffect (a : App) : App :=
  match mode a with
  | find =>
      if negb (Orientation.isAvailable (compass a)) then
        mkApp (savedLocation a) (mode a) true (isSaving a) (geo a) (nav a)
              (compass a) (window a) (localStorage a) (log a)
      else a
  | set => a
  end.

(** [handleSaveLocation]; the three requests are answered by [sensor] and
    [Date.now()] is [now].  Nothing in the [try] block throws, so the
    [catch] does not appear. *)
Definition handleSaveLocation (sensor : nat -> Geo.Sample) (now : R)
  (a : App) : App :=
  let '(geo1, bestReading) := Geo.getBestReading 3 sensor (nav a) (geo a) in
  match bestReading with
  | Some best =>
      let location :=
        mkSaved (Geo.result_coords best) now
                (Some (Geo.result_accuracy best)) in
      let '(saved, stored) :=
        Storage.saveCarLocation E full SavedLocation JSON_stringify
                                (localStorage a) location in
      if saved then
        mkApp (Some location) (mode a) (useSimpleMode a) false geo1 (nav a)
              (compass a) (window a) stored
              (log a
               ++ (if vibrates then [Vibrate [50; 30; 50]%Z] else [])
               ++ [SavedToast
                     (JS.Math_round
                        (Geo.result_accuracy best * (328084 / 100000)));
                   ShowCarSavedNotification])
      else
        mkApp (savedLocation a) (mode a) (useSimpleMode a) false geo1 (nav a)
              (compass a) (window a) stored (log a ++ [SaveFailedToast])
  | None =>
      mkApp (savedLocation a) (mode a) (useSimpleMode a) false geo1 (nav a)
            (compass a) (window a) (localStorage a) (log a)
  end.

(** [handleStartNavigation].  [needsPermission] and [isCompassAvailable]
    are the values of the render the handler belongs to, so they are read
    once, before the permission request.  The timer that [startCompass]
    may set is returned beside the state. *)
Definition handleStartNavigation (checkNeedsPermission supported : bool)
  (outcome : Orientation.PermissionOutcome) (a : App)
  : App * option (option R) :=
  let needsPermission := Orientation.needsPermission (compass a) in
  let isCompassAvailable := Orientation.isAvailable (compass a) in
  let '(compass1, simple1, log1) :=
    if needsPermission then
      let '(c1, granted) :=
        Orientation.requestPermission checkNeedsPermission outcome
                                      (compass a) in
      if granted then (c1, useSimpleMode a, log a)
      else (c1, true, log a ++ [SimpleModeToast])
    else (compass a, useSimpleMode a, log a) in
  let '(geo1, nav1) := Geo.startTracking (geo a, nav a) in
  let '(compass2, window2, timer) :=
    if isCompassAvailable && negb needsPermission then
      Orientation.startListening supported (compass1, window a)
    else (compass1, window a, None) in
  (mkApp (savedLocation a) find simple1 (isSaving a) geo1 nav1 compass2
         window2 (localStorage a) log1, timer).

Definition handleBackToSet (a : App) : App :=
  let '(geo1, nav1) := Geo.stopTracking (geo a, nav a) in
  let '(compass1, window1) :=
    Orientation.stopListening (compass a, window a) in
  mkApp (savedLocation a) set (useSimpleMode a) (isSaving a) geo1 nav1
        compass1 window1 (localStorage a) (log a).

(** [handleClearLocation]: the state afterwards, and the exception that
    escaped, if one did.  [clearCarLocation] comes first and is not
    guarded. *)
Definition handleClearLocation (a : App) : App * option E :=
  match Storage.clearCarLocation E (localStorage a) with
  | Storage.Throw e => (a, Some e)
  | Storage.Normal cleared =>
      let '(geo1, nav1) := Geo.stopTracking (geo a, nav a) in
      let '(compass1, window1) :=
        Orientation.stopListening (compass a, window a) in
      (mkApp None set (useSimpleMode a) (isSaving a) geo1 nav1 compass1
             window1 cleared
             (log a ++ [ClearedToast; DismissCarNotification]), None)
  end.

End Handlers.

End CarFinder.

(** ** The code under IEEE-754 binary64

    [calculateDistance], and further below the heading functions, the
    smoothing and the movement gate, with [number] read as a binary64
    float, to see what rounding does to them.  [Math.sin], [Math.cos] and
    [Math.atan2] belong to the host; only the part of them that the
    evaluation below needs is written down, and an argument outside that
    part gives [None]. *)

Module Binary64.

Local Open Scope float_scope.

Record Coordinates : Type := mkCoordinates {
  latitude : float;
  longitude : float
}.

Definition Math_PI : float := 0x1.921fb54442d18p+1.
Definition EARTH_RADIUS_METERS : float := 6371000.

(** [toRadians 44.9] and [Math.PI / 2], and the binary64 numbers nearest
    to the sine and the cosine of the former. *)
Definition latRad : float := 0x1.913af1bc25167p-1.
Definition halfPi : float := 0x1.921fb54442d18p+0.
Definition sinLatRad : float := 0x1.6967ff9e7b6fdp-1.
Definition cosLatRad : float := 0x1.6aab84eaf62b4p-1.

(** [Math.sin] at -0.783652834145454 and at 1.5707963267948966: the
    correctly rounded values, which fdlibm and glibc return
    ([table_nearest] below proves them nearest to the real sines). *)
Definition Math_sin (x : float) : option float :=
  if x =? - latRad then Some (- sinLatRad)
  else if x =? halfPi then Some 1
  else None.

(** [Math.cos] at +-0.783652834145454, likewise. *)
Definition Math_cos (x : float) : option float :=
  if PrimFloat.abs x =? latRad then Some cosLatRad
  else None.

(** [Math.atan2]: ECMAScript fixes the result to NaN when an argument is
    NaN. *)
Definition Math_atan2 (y x : float) : option float :=
  if is_nan y || is_nan x then Some nan else None.

(** [Math.sqrt] is the IEEE square root. *)
Definition Math_sqrt (x : float) : float := PrimFloat.sqrt x.

Definition toRadians (degrees : float) : float := degrees * (Math_PI / 180).

Definition haversineA (point1 point2 : Coordinates) : option float :=
  let lat1Rad := toRadians (latitude point1) in
  let lat2Rad := toRadians (latitude point2) in
  let deltaLat := toRadians (latitude point2 - latitude point1) in
  let deltaLong := toRadians (longitude point2 - longitude point1) in
  match Math_sin (deltaLat / 2), Math_cos lat1Rad, Math_cos lat2Rad,
        Math_sin (deltaLong / 2) with
  | Some sinLat, Some cos1, Some cos2, Some sinLong =>
      Some (sinLat * sinLat + cos1 * cos2 * sinLong * sinLong)
  | _, _, _, _ => None
  end.

Definition calculateDistance (point1 point2 : Coordinates) : option float :=
  match haversineA point1 point2 with
  | Some a =>
      match Math_atan2 (Math_sqrt a) (Math_sqrt (1 - a)) with
      | Some angle =>
          let c := 2 * angle in
          Some (EARTH_RADIUS_METERS * c)
      | None => None
      end
  | None => None
  end.

(** The antipodal pair (44.9, 0) and (-44.9, 180). *)
Definition north : Coordinates :=
  {| latitude := 0x1.6733333333333p+5; longitude := 0 |}.
Definition south : Coordinates :=
  {| latitude := -0x1.6733333333333p+5; longitude := 180 |}.

Definition wellFormed (p : Coordinates) : bool :=
  (-90 <=? latitude p) && (latitude p <=? 90) &&
  (-180 <=? longitude p) && (longitude p <=? 180).

(** The rational, and the real, that a finite float denotes. *)
Definition toQ (f : float) : Q :=
  match Prim2SF f with
  | S754_finite s m e =>
      (inject_Z (if s then Z.neg m else Z.pos m) * Qpower 2 e)%Q
  | _ => 0%Q
  end.

Definition toR (f : float) : R := Q2R (toQ f).

(** The partial sums of the sine and cosine series over the rationals, to
    enclose the real sine and cosine of a float. *)
Fixpoint Zfact (n : nat) : Z :=
  match n with
  | O => 1
  | S k => Z.of_nat (S k) * Zfact k
  end.

Fixpoint Qpow (a : Q) (k : nat) : Q :=
  match k with
  | O => 1%Q
  | S k' => (a * Qpow a k')%Q
  end.

Definition sin_termQ (a : Q) (i : nat) : Q :=
  (Qpow (-1) i * (Qpow a (2 * i + 1) / inject_Z (Zfact (2 * i + 1))))%Q.

Definition cos_termQ (a : Q) (i : nat) : Q :=
  (Qpow (-1) i * (Qpow a (2 * i) / inject_Z (Zfact (2 * i))))%Q.

Fixpoint sumQ (f : nat -> Q) (n : nat) : Q :=
  match n with
  | O => f O
  | S k => (sumQ f k + f (S k))%Q
  end.

(** Half a unit in the last place of a binary64 number in [1/2, 1). *)
Definition halfUlp : Q := (1 # 2 ^ 54)%Q.

(** *** The heading functions under binary64 *)

(** JavaScript's [%] on numbers: the remainder of the truncating division,
    with the sign of the dividend.  It is exact, so it is computed on the
    integer significands brought to a common exponent. *)
Definition rem (x m : float) : float :=
  match Prim2SF x, Prim2SF m with
  | S754_nan, _ | _, S754_nan => nan
  | S754_infinity _, _ => nan
  | _, S754_zero _ => nan
  | S754_zero _, _ => x
  | S754_finite _ _ _, S754_infinity _ => x
  | S754_finite sx mx ex, S754_finite _ mm em =>
      let e0 := Z.min ex em in
      let r := ((Z.pos mx * 2 ^ (ex - e0))
                mod (Z.pos mm * 2 ^ (em - e0)))%Z in
      let magnitude := Z.ldexp (of_uint63 (Uint63.of_Z r)) e0 in
      if sx then - magnitude else magnitude
  end.

(** [while (heading < 0) heading += 360], given [fuel] iterations: [None]
    when the loop has not exited within them. *)
Fixpoint addWhileNegative (fuel : nat) (heading : float) : option float :=
  if heading <? 0 then
    match fuel with
    | O => None
    | S fuel' => addWhileNegative fuel' (heading + 360)
    end
  else Some heading.

Definition normalizeHeading (fuel : nat) (heading : float) : option float :=
  match addWhileNegative fuel heading with
  | Some h => Some (rem h 360)
  | None => None
  end.

Definition calculateRelativeHeading (fuel : nat)
  (bearing deviceHeading : float) : option float :=
  let relative := bearing - deviceHeading in
  normalizeHeading fuel relative.

(** A call that has not returned however many iterations it is given. *)
Definition neverReturns (call : nat -> option float) : Prop :=
  forall fuel, call fuel = None.

(** -1e300, as binary64 has it. *)
Definition hugeNegative : float := -0x1.7e43c8800759cp+996.

(** *** The smoothing and the movement gate under binary64 *)

Record GeolocationPosition : Type := mkPosition {
  pos_latitude : float;
  pos_longitude : float;
  pos_accuracy : float;
  pos_timestamp : float
}.

Record PositionReading : Type := mkReading {
  coords : Coordinates;
  accuracy : float;
  timestamp : float
}.

Record BestReadingResult : Type := mkResult {
  result_coords : Coordinates;
  result_accuracy : float
}.

(** [Math.min] of two numbers: NaN when one is NaN, and of [-0] and [+0]
    it is [-0]. *)
Definition Math_min (a b : float) : float :=
  if is_nan a || is_nan b then nan
  else if a <? b then a
  else if b <? a then b
  else if 1 / a <? 0 then a
  else b.

Record Sums : Type := mkSums {
  totalWeight : float;
  weightedLat : float;
  weightedLng : float;
  bestAccuracy : float
}.

Definition addReading (s : Sums) (reading : PositionReading) : Sums :=
  let weight := 1 / accuracy reading in
  {| totalWeight := totalWeight s + weight;
     weightedLat := weightedLat s + latitude (coords reading) * weight;
     weightedLng := weightedLng s + longitude (coords reading) * weight;
     bestAccuracy := Math_min (bestAccuracy s) (accuracy reading) |}.

Definition zeroSums : Sums :=
  {| totalWeight := 0; weightedLat := 0; weightedLng := 0;
     bestAccuracy := infinity |}.

Definition calculateSmoothedPosition (buffer : list PositionReading)
  : option BestReadingResult :=
  match buffer with
  | [] => None
  | _ =>
      let s := fold_left addReading buffer zeroSums in
      Some {| result_coords :=
                {| latitude := weightedLat s / totalWeight s;
                   longitude := weightedLng s / totalWeight s |};
              result_accuracy := bestAccuracy s |}
  end.

Definition MOVEMENT_THRESHOLD_FACTOR : float := 0x1p-1.

Definition pushReading (buffer : list PositionReading) (r : PositionReading)
  : list PositionReading :=
  let pushed := (buffer ++ [r])%list in
  if (Geo.POSITION_BUFFER_SIZE <? List.length pushed)%nat
  then tl pushed else pushed.

Record Hook : Type := mkHook {
  position : option Coordinates;
  accuracyState : option float;
  error : option string;
  isTracking : bool;
  isLoading : bool;
  watchIdRef : option nat;
  positionBufferRef : list PositionReading;
  lastReportedPositionRef : option Coordinates
}.

Definition initialHook : Hook :=
  {| position := None; accuracyState := None; error := None;
     isTracking := false; isLoading := false; watchIdRef := None;
     positionBufferRef := []; lastReportedPositionRef := None |}.

(** [handleSuccess].  The comparison [distance > movementThreshold] is
    false when the distance is NaN.  [None] when the distance needs a
    value of [Math.sin], [Math.cos] or [Math.atan2] that is not written
    down above. *)
Definition handleSuccess (pos : GeolocationPosition) (h : Hook)
  : option Hook :=
  let newReading :=
    {| coords := {| latitude := pos_latitude pos;
                    longitude := pos_longitude pos |};
       accuracy := pos_accuracy pos;
       timestamp := pos_timestamp pos |} in
  let buffer := pushReading (positionBufferRef h) newReading in
  match calculateSmoothedPosition buffer with
  | None =>
      Some (mkHook (position h) (accuracyState h) (error h) (isTracking h)
                   (isLoading h) (watchIdRef h) buffer
                   (lastReportedPositionRef h))
  | Some smoothed =>
      let lastPos := lastReportedPositionRef h in
      let movementThreshold := pos_accuracy pos * MOVEMENT_THRESHOLD_FACTOR in
      let update :=
        match lastPos with
        | None => Some true
        | Some last =>
            match calculateDistance last (result_coords smoothed) with
            | Some distance => Some (movementThreshold <? distance)
            | None => None
            end
        end in
      match update with
      | Some true =>
          Some (mkHook (Some (result_coords smoothed))
                       (Some (result_accuracy smoothed)) None (isTracking h)
                       false (watchIdRef h) buffer
                       (Some (result_coords smoothed)))
      | Some false =>
          Some (mkHook (position h) (accuracyState h) None (isTracking h)
                       false (watchIdRef h) buffer
                       (lastReportedPositionRef h))
      | None => None
      end
  end.

End Binary64.

(** ** Vocabulary of the statements *)

(** The least and the greatest of a non-empty list [x :: xs]. *)
Definition least (x : R) (xs : list R) : R := fold_right Rmin x xs.
Definition greatest (x : R) (xs : list R) : R := fold_right Rmax x xs.

Definition latitudes (buffer : list Geo.PositionReading) : list R :=
  map (fun r => latitude (Geo.coords r)) buffer.
Definition longitudes (buffer : list Geo.PositionReading) : list R :=
  map (fun r => longitude (Geo.coords r)) buffer.

(** A reading of positive accuracy inside the box [latLo, latHi] x
    [lngLo, lngHi], and what the averaging loop keeps true of its sums
    over such readings. *)
Definition readingWithin (latLo latHi lngLo lngHi : R)
  (r : Geo.PositionReading) : Prop :=
  0 < Geo.accuracy r /\
  latLo <= latitude (Geo.coords r) <= latHi /\
  lngLo <= longitude (Geo.coords r) <= lngHi.

Definition sumsWithin (latLo latHi lngLo lngHi : R) (s : Geo.Sums) : Prop :=
  latLo * Geo.totalWeight s <= Geo.weightedLat s
    <= latHi * Geo.totalWeight s /\
  lngLo * Geo.totalWeight s <= Geo.weightedLng s
    <= lngHi * Geo.totalWeight s.

(** The reading [handleSuccess] and [getBestReading] build from a fix. *)
Definition readingOf (pos : Geo.GeolocationPosition) : Geo.PositionReading :=
  {| Geo.coords := {| latitude := Geo.pos_latitude pos;
                      longitude := Geo.pos_longitude pos |};
     Geo.accuracy := Geo.pos_accuracy pos;
     Geo.timestamp := Geo.pos_timestamp pos |}.

(** The smoothed position that an incoming fix produces from the buffer. *)
Definition smoothedWith (pos : Geo.GeolocationPosition) (h : Geo.Hook)
  : option Geo.BestReadingResult :=
  Geo.calculateSmoothedPosition
    (Geo.pushReading (Geo.positionBufferRef h) (readingOf pos)).

(** The incoming fix keeps the smoothed position within
    [accuracy * MOVEMENT_THRESHOLD_FACTOR] of the last reported one. *)
Definition withinThreshold (pos : Geo.GeolocationPosition) (h : Geo.Hook)
  : Prop :=
  exists last smoothed,
    Geo.lastReportedPositionRef h = Some last /\
    smoothedWith pos h = Some smoothed /\
    calculateDistance last (Geo.result_coords smoothed)
      <= Geo.pos_accuracy pos * Geo.MOVEMENT_THRESHOLD_FACTOR.

(** The watch callback run on each fix of a sequence, in delivery order. *)
Definition deliver (fixes : list Geo.GeolocationPosition) (h : Geo.Hook)
  : Geo.Hook :=
  fold_left (fun h pos => Geo.handleSuccess pos h) fixes h.

Fixpoint allWithinThreshold (fixes : list Geo.GeolocationPosition)
  (h : Geo.Hook) : Prop :=
  match fixes with
  | [] => True
  | pos :: rest =>
      withinThreshold pos h /\ allWithinThreshold rest (Geo.handleSuccess pos h)
  end.

(** A hook whose buffer has been emptied, as the specification describes
    the start of a tracking session. *)
Definition withClearedBuffer (h : Geo.Hook) : Geo.Hook :=
  Geo.mkHook (Geo.position h) (Geo.accuracyState h) (Geo.error h)
             (Geo.isTracking h) (Geo.isLoading h) (Geo.watchIdRef h)
             [] (Geo.lastReportedPositionRef h).

(** Two tracking sessions: a fix at (0, 0) arrives in the first one, then
    tracking is stopped and started again. *)
Definition origin : Coordinates := mkCoordinates 0 0.
Definition fixA : Geo.GeolocationPosition := Geo.mkPosition 0 0 1 0.
Definition fixB : Geo.GeolocationPosition := Geo.mkPosition 0 180 1 1.
Definition nav0 : Geo.Navigator := Geo.mkNavigator true [] 0.

Definition firstSession : Geo.Hook * Geo.Navigator :=
  let started := Geo.startTracking (Geo.initialHook, nav0) in
  (Geo.handleSuccess fixA (fst started), snd started).

Definition restarted : Geo.Hook * Geo.Navigator :=
  Geo.startTracking (Geo.stopTracking firstSession).

(** The readings that requests [i], [i + 1], ..., [i + n - 1] resolve
    with, in order. *)
Fixpoint resolvedReadings (sensor : nat -> Geo.Sample) (i n : nat)
  : list Geo.PositionReading :=
  match n with
  | O => []
  | S n' =>
      match sensor i with
      | Geo.Resolved pos => readingOf pos :: resolvedReadings sensor (S i) n'
      | Geo.Rejected _ => resolvedReadings sensor (S i) n'
      end
  end.

(** Three synthetic fixes with accuracies 20, 5 and 15. *)
Definition threeFixes (i : nat) : Geo.Sample :=
  match i with
  | 0%nat => Geo.Resolved (Geo.mkPosition 1 1 20 0)
  | 1%nat => Geo.Resolved (Geo.mkPosition 2 2 5 1)
  | 2%nat => Geo.Resolved (Geo.mkPosition 3 3 15 2)
  | _ => Geo.Rejected Geo.TIMEOUT
  end.

(** A host for trying [getCarLocation]: exceptions are messages, the only
    text that parses is the object written below, and it parses to its own
    text. *)
Definition quoted (name : string) : string :=
  let q := String (ascii_of_nat 34) EmptyString in (q ++ name ++ q)%string.

Definition savedText : string :=
  ("{" ++ quoted "latitude" ++ ":40," ++ quoted "longitude" ++ ":-75,"
       ++ quoted "timestamp" ++ ":0}")%string.

Definition sampleParse (text : string) : Storage.Completion string string :=
  if String.eqb text savedText then Storage.Normal text
  else Storage.Throw "SyntaxError"%string.

(** The last [n] elements of a list. *)
Definition lastN {A : Type} (n : nat) (l : list A) : list A :=
  skipn (List.length l - n) l.

(** The accuracy values of a buffer. *)
Definition accuracies (buffer : list Geo.PositionReading) : list R :=
  map Geo.accuracy buffer.

(** The hook owns the navigator's watches: the one its ref names, or none. *)
Definition ownsWatches (s : Geo.Hook * Geo.Navigator) : Prop :=
  Geo.watches (snd s)
    = match Geo.watchIdRef (fst s) with
      | Some id => [id]
      | None => []
      end /\
  Geo.isTracking (fst s)
    = match Geo.watchIdRef (fst s) with
      | Some _ => true
      | None => false
      end.

(** What holds of the hook whenever only tracking events have reached it:
    the reported position is the one the movement gate compares with, the
    buffer has at most five readings, and a position is reported exactly
    when a fix has been buffered. *)
Definition trackingInvariant (h : Geo.Hook) : Prop :=
  Geo.position h = Geo.lastReportedPositionRef h /\
  (List.length (Geo.positionBufferRef h) <= 5)%nat /\
  (Geo.position h = None <-> Geo.positionBufferRef h = []).

(** Two synthetic fixes of the same accuracy, at different places. *)
Definition tiedFixes (i : nat) : Geo.Sample :=
  match i with
  | 0%nat => Geo.Resolved (Geo.mkPosition 1 1 5 0)
  | 1%nat => Geo.Resolved (Geo.mkPosition 2 2 5 1)
  | _ => Geo.Rejected Geo.TIMEOUT
  end.

(** A host whose [JSON.parse] reads the two booleans and nothing else. *)
Definition boolParse (text : string) : Storage.Completion string bool :=
  if String.eqb text "true" then Storage.Normal true
  else if String.eqb text "false" then Storage.Normal false
  else Storage.Throw "SyntaxError"%string.

(** A storage that always has room. *)
Definition roomy (items : list (string * string)) (key text : string)
  : option string := None.

(** The component with its compass hook and the window in the state [cw]. *)
Definition withCompass {E : Type} (a : CarFinder.App E)
  (cw : Orientation.Compass * Orientation.Window) : CarFinder.App E :=
  CarFinder.mkApp E (CarFinder.savedLocation E a) (CarFinder.mode E a)
    (CarFinder.useSimpleMode E a) (CarFinder.isSaving E a)
    (CarFinder.geo E a) (CarFinder.nav E a) (fst cw) (snd cw)
    (CarFinder.localStorage E a) (CarFinder.log E a).

(** The orientation events [events] reaching the window one after another. *)
Definition dispatchAll (angle : option R)
  (events : list Orientation.DeviceOrientationEvent)
  (cw : Orientation.Compass * Orientation.Window)
  : Orientation.Compass * Orientation.Window :=
  fold_left (fun s e => Orientation.dispatch angle e s) events cw.

(** The component as mounted, on an empty storage; [needsPermission] is
    what [checkNeedsPermission] returned. *)
Definition app0 (needsPermission : bool) : CarFinder.App string :=
  CarFinder.mkApp string None CarFinder.set false false Geo.initialHook nav0
    (Orientation.initialCompass needsPermission) [] (Storage.Items []) [].

(** An Android-style event: no [webkitCompassHeading], [alpha] 90. *)
Definition alpha90 : Orientation.DeviceOrientationEvent :=
  Orientation.mkEvent None (Some 90).

(** The sum of a list of reals. *)
Definition sumOf (xs : list R) : R := fold_right Rplus 0 xs.

(** The weights [1 / accuracy] of a buffer, and its latitudes and
    longitudes multiplied by them. *)
Definition weights (buffer : list Geo.PositionReading) : list R :=
  map (fun r => 1 / Geo.accuracy r) buffer.
Definition weightedLatitudes (buffer : list Geo.PositionReading) : list R :=
  map (fun r => latitude (Geo.coords r) * (1 / Geo.accuracy r)) buffer.
Definition weightedLongitudes (buffer : list Geo.PositionReading) : list R :=
  map (fun r => longitude (Geo.coords r) * (1 / Geo.accuracy r)) buffer.

(** The incoming fix and the buffered readings have positive accuracies. *)
Definition positiveAccuracies (pos : Geo.GeolocationPosition) (h : Geo.Hook)
  : Prop :=
  0 < Geo.pos_accuracy pos /\
  Forall (fun r => 0 < Geo.accuracy r) (Geo.positionBufferRef h).

(** The same of every fix of a sequence, each met in the state that the
    fixes before it leave. *)
Fixpoint allPositive (fixes : list Geo.GeolocationPosition) (h : Geo.Hook)
  : Prop :=
  match fixes with
  | [] => True
  | pos :: rest =>
      positiveAccuracies pos h /\ allPositive rest (Geo.handleSuccess pos h)
  end.

(** The point that a pair of binary64 coordinates denotes. *)
Definition realCoordinates (p : Binary64.Coordinates) : Coordinates :=
  mkCoordinates (Binary64.toR (Binary64.latitude p))
                (Binary64.toR (Binary64.longitude p)).

(** A fix of very poor accuracy (2^60 m) at (44.9, 0), then a fix of
    accuracy 1 m at the antipode (-44.9, 180). *)
Definition coarseNorth : Binary64.GeolocationPosition :=
  Binary64.mkPosition 0x1.6733333333333p+5%float 0%float 0x1p+60%float
                      0%float.
Definition preciseSouth : Binary64.GeolocationPosition :=
  Binary64.mkPosition (-0x1.6733333333333p+5)%float 180%float 1%float
                      1%float.

Definition readingOf64 (pos : Binary64.GeolocationPosition)
  : Binary64.PositionReading :=
  Binary64.mkReading
    (Binary64.mkCoordinates (Binary64.pos_latitude pos)
                            (Binary64.pos_longitude pos))
    (Binary64.pos_accuracy pos) (Binary64.pos_timestamp pos).

(** Two readings at (40, -75), of accuracies 5 and 10. *)
Definition twoAt40 : list Binary64.PositionReading :=
  [Binary64.mkReading (Binary64.mkCoordinates 40%float (-75)%float) 5%float
                      0%float;
   Binary64.mkReading (Binary64.mkCoordinates 40%float (-75)%float) 10%float
                      1%float].

(** 0.1, as binary64 has it. *)
Definition tenth : float := 0x1.999999999999ap-4%float.

(** ** Facts about rounding *)

Lemma Int_part_bounds (x : R) : IZR (Int_part x) <= x < IZR (Int_part x) + 1.
Proof.
  destruct (base_Int_part x) as [H1 H2]. lra.
Qed.

Lemma Int_part_unique (x : R) (z : Z) :
  IZR z <= x < IZR z + 1 -> Int_part x = z.
Proof.
  intros H. symmetry. apply Int_part_spec. lra.
Qed.

Lemma Math_round_unique (x : R) (z : Z) :
  IZR z - / 2 <= x < IZR z + / 2 -> JS.Math_round x = z.
Proof.
  intros H. unfold JS.Math_round. apply Int_part_unique. lra.
Qed.

Lemma Math_round_bounds (x : R) :
  IZR (JS.Math_round x) - / 2 <= x < IZR (JS.Math_round x) + / 2.
Proof.
  unfold JS.Math_round. pose proof (Int_part_bounds (x + / 2)). lra.
Qed.

(** ** The compass label *)

Lemma cardinalIndex_sector (bearing : R) (k : Z) :
  IZR k * 45 - 225 / 10 <= bearing < IZR k * 45 + 225 / 10 ->
  cardinalIndex bearing = Z.rem k 8.
Proof.
  intros H. unfold cardinalIndex. f_equal.
  apply Math_round_unique. lra.
Qed.

Lemma getCardinalDirection_sector (bearing : R) (k : Z) :
  (0 <= k <= 8)%Z ->
  IZR k * 45 - 225 / 10 <= bearing < IZR k * 45 + 225 / 10 ->
  getCardinalDirection bearing = nth_error directions (Z.to_nat (k mod 8)).
Proof.
  intros Hk H. unfold getCardinalDirection.
  rewrite (cardinalIndex_sector bearing k H).
  rewrite Z.rem_mod_nonneg by lia.
  unfold JS.index.
  assert (Hm : (0 <= k mod 8 < 8)%Z) by (apply Z.mod_pos_bound; lia).
  destruct (Z.ltb_spec (k mod 8) 0); [lia | reflexivity].
Qed.

(** Every bearing of [0, 360) lies in one of the nine half-open windows
    around 0, 45, ..., 360. *)
Lemma bearing_window (bearing : R) :
  0 <= bearing < 360 ->
  exists k : Z, (0 <= k <= 8)%Z /\
    IZR k * 45 - 225 / 10 <= bearing < IZR k * 45 + 225 / 10.
Proof.
  intros H.
  exists (JS.Math_round (bearing / 45)).
  pose proof (Math_round_bounds (bearing / 45)) as Hb.
  set (k := JS.Math_round (bearing / 45)) in *.
  split; [| lra].
  assert (H1 : -1 < IZR k) by lra.
  assert (H2 : IZR k < 9) by lra.
  apply lt_IZR in H1. apply lt_IZR in H2. lia.
Qed.

(** C2, the claim as stated fails: 44 degrees is past the boundary at 22.5,
    so [getCardinalDirection 44] is "NE" and not "N". *)
Lemma getCardinalDirection_44_is_NE :
  getCardinalDirection 44 = Some "NE"%string /\
  String.eqb "NE" "N" = false.
Proof.
  split; [| reflexivity].
  rewrite (getCardinalDirection_sector 44 1); [reflexivity | lia | lra].
Qed.

(** C2 (amended): for a bearing in [0, 360), [getCardinalDirection] is the
    label at index [round(bearing / 45) mod 8] of [N, NE, E, SE, S, SW, W,
    NW], so that the label changes at the odd multiples of 22.5 degrees; in
    particular cardinal(0) = N, cardinal(90) = E, cardinal(22) = N, and
    cardinal(44) = cardinal(46) = NE. *)
Theorem getCardinalDirection_spec :
  (forall bearing : R, 0 <= bearing < 360 ->
     (0 <= cardinalIndex bearing < 8)%Z /\
     cardinalIndex bearing = (JS.Math_round (bearing / 45) mod 8)%Z /\
     exists label : string,
       In label directions /\
       nth_error directions (Z.to_nat (cardinalIndex bearing)) = Some label /\
       getCardinalDirection bearing = Some label) /\
  (forall (bearing : R) (k : Z), (0 <= k <= 8)%Z ->
     IZR k * 45 - 225 / 10 <= bearing < IZR k * 45 + 225 / 10 ->
     getCardinalDirection bearing = nth_error directions (Z.to_nat (k mod 8))) /\
  getCardinalDirection 0 = Some "N"%string /\
  getCardinalDirection 90 = Some "E"%string /\
  getCardinalDirection 22 = Some "N"%string /\
  getCardinalDirection 44 = Some "NE"%string /\
  getCardinalDirection 46 = Some "NE"%string.
Proof.
  split; [| split].
  - intros bearing H.
    destruct (bearing_window bearing H) as [k [Hk Hw]].
    pose proof (cardinalIndex_sector bearing k Hw) as Hi.
    assert (Hr : JS.Math_round (bearing / 45) = k)
      by (apply Math_round_unique; lra).
    assert (Hm : (0 <= k mod 8 < 8)%Z) by (apply Z.mod_pos_bound; lia).
    rewrite Z.rem_mod_nonneg in Hi by lia.
    split; [lia |]. split; [rewrite Hr; exact Hi |].
    pose proof (getCardinalDirection_sector bearing k Hk Hw) as Hg.
    rewrite Hi.
    destruct (nth_error directions (Z.to_nat (k mod 8))) as [label |] eqn:Hn.
    + exists label. split; [eapply nth_error_In; exact Hn |].
      split; [reflexivity | exact Hg].
    + apply nth_error_None in Hn. simpl in Hn. lia.
  - exact getCardinalDirection_sector.
  - repeat split.
    + rewrite (getCardinalDirection_sector 0 0); [reflexivity | lia | lra].
    + rewrite (getCardinalDirection_sector 90 2); [reflexivity | lia | lra].
    + rewrite (getCardinalDirection_sector 22 0); [reflexivity | lia | lra].
    + rewrite (getCardinalDirection_sector 44 1); [reflexivity | lia | lra].
    + rewrite (getCardinalDirection_sector 46 1); [reflexivity | lia | lra].
Qed.

Lemma getCardinalDirection_spec_witness :
  0 <= 350 < 360 /\ getCardinalDirection 350 = Some "N"%string.
Proof.
  split; [lra |].
  destruct getCardinalDirection_spec as [_ [Hsector _]].
  rewrite (Hsector 350 8%Z); [reflexivity | lia | lra].
Defined.

(** ** Distance formatting *)

Section FormatDistanceFacts.

Variable toLocaleString : Z -> string.

Lemma formatDistance_feet (meters : R) :
  meters * FEET_PER_METER < 1000 ->
  formatDistance toLocaleString meters =
    {| value := toLocaleString (JS.Math_round (meters * FEET_PER_METER));
       unit := "ft" |}.
Proof.
  intros H. unfold formatDistance, DISTANCE_THRESHOLD_FEET.
  destruct (Rlt_dec (meters * FEET_PER_METER) 1000); [reflexivity | lra].
Qed.

Lemma formatDistance_meters (meters : R) :
  1000 <= meters * FEET_PER_METER ->
  formatDistance toLocaleString meters =
    {| value := toLocaleString (JS.Math_round (meters / 10) * 10);
       unit := "m" |}.
Proof.
  intros H. unfold formatDistance, DISTANCE_THRESHOLD_FEET.
  destruct (Rlt_dec (meters * FEET_PER_METER) 1000); [lra | reflexivity].
Qed.

(** C6: [formatDistance] converts to feet; strictly below 1000 ft it gives
    the feet rounded to the nearest whole number with unit "ft" (exactly
    999 ft gives "999" / "ft" on a host that prints 999 so), and from
    1000 ft on it gives [round(m / 10) * 10], the metres rounded to the
    nearest 10, with unit "m". *)
Theorem formatDistance_spec (meters : R) :
  0 <= meters ->
  let feet := meters * FEET_PER_METER in
  (feet < 1000 ->
     formatDistance toLocaleString meters =
       {| value := toLocaleString (JS.Math_round feet); unit := "ft" |} /\
     IZR (JS.Math_round feet) - / 2 <= feet < IZR (JS.Math_round feet) + / 2) /\
  (feet = 999 -> toLocaleString 999 = "999"%string ->
     formatDistance toLocaleString meters =
       {| value := "999"; unit := "ft" |}) /\
  (1000 <= feet ->
     formatDistance toLocaleString meters =
       {| value := toLocaleString (JS.Math_round (meters / 10) * 10);
          unit := "m" |} /\
     IZR (JS.Math_round (meters / 10) * 10) - 5 <= meters
       < IZR (JS.Math_round (meters / 10) * 10) + 5).
Proof.
  intros Hpos feet. subst feet. split; [| split].
  - intros H. split; [apply formatDistance_feet; exact H |].
    apply Math_round_bounds.
  - intros H Hprint. rewrite formatDistance_feet by lra.
    rewrite H.
    replace (JS.Math_round 999) with 999%Z
      by (symmetry; apply Math_round_unique; lra).
    rewrite Hprint. reflexivity.
  - intros H. split; [apply formatDistance_meters; exact H |].
    pose proof (Math_round_bounds (meters / 10)) as Hb.
    rewrite mult_IZR. lra.
Qed.

End FormatDistanceFacts.

Lemma formatDistance_spec_witness :
  0 <= 304 /\
  formatDistance toLocaleString_enUS 304 = {| value := "997"; unit := "ft" |} /\
  formatDistance toLocaleString_enUS 305 = {| value := "310"; unit := "m" |} /\
  formatDistance toLocaleString_enUS (99900000 / 328084) =
    {| value := "999"; unit := "ft" |}.
Proof.
  split; [lra |]. split; [| split].
  - destruct (formatDistance_spec toLocaleString_enUS 304) as [[H _] _];
      [lra | unfold FEET_PER_METER; lra |].
    rewrite H.
    replace (JS.Math_round (304 * FEET_PER_METER)) with 997%Z
      by (symmetry; apply Math_round_unique; unfold FEET_PER_METER; lra).
    reflexivity.
  - destruct (formatDistance_spec toLocaleString_enUS 305) as [_ [_ [H _]]];
      [lra | unfold FEET_PER_METER; lra |].
    rewrite H.
    replace (JS.Math_round (305 / 10)) with 31%Z
      by (symmetry; apply Math_round_unique; lra).
    reflexivity.
  - destruct (formatDistance_spec toLocaleString_enUS (99900000 / 328084))
      as [_ [H _]]; [lra |].
    apply H; [unfold FEET_PER_METER; lra | reflexivity].
Defined.

(** ** Angles *)

Lemma truncate_nonneg (x : R) : 0 <= x -> JS.truncate x = Int_part x.
Proof.
  intros H. unfold JS.truncate. destruct (Rle_dec 0 x); [reflexivity | lra].
Qed.

Lemma rem360_range (x : R) : 0 <= x -> 0 <= JS.rem x 360 < 360.
Proof.
  intros H. unfold JS.rem.
  rewrite truncate_nonneg by (apply Rle_mult_inv_pos; lra).
  pose proof (Int_part_bounds (x / 360)). lra.
Qed.

(** On a non-negative dividend [% 360] subtracts the one multiple of 360
    that lands in [0, 360). *)
Lemma rem360_unique (x : R) (n : Z) :
  0 <= x -> 0 <= x - 360 * IZR n < 360 -> JS.rem x 360 = x - 360 * IZR n.
Proof.
  intros H Hn. unfold JS.rem.
  rewrite truncate_nonneg by (apply Rle_mult_inv_pos; lra).
  rewrite (Int_part_unique (x / 360) n); [reflexivity | lra].
Qed.

Lemma rem360_small (x : R) : 0 <= x < 360 -> JS.rem x 360 = x.
Proof.
  intros H. rewrite (rem360_unique x 0); lra.
Qed.

Lemma addWhileNegative_nonneg (heading : R) :
  0 <= heading -> addWhileNegative heading = heading.
Proof.
  intros H. rewrite addWhileNegative_equation_1.
  destruct (Rlt_dec heading 0); [lra | reflexivity].
Qed.

Lemma addWhileNegative_step (heading : R) :
  heading < 0 -> addWhileNegative heading = addWhileNegative (heading + 360).
Proof.
  intros H. rewrite addWhileNegative_equation_1.
  destruct (Rlt_dec heading 0); [reflexivity | lra].
Qed.

(** The loop leaves [heading + 360 * n] for some number [n] of rounds, and
    what it leaves is not negative; a negative input ends below 360. *)
Lemma addWhileNegative_spec (heading : R) :
  exists n : Z, (0 <= n)%Z /\
    addWhileNegative heading = heading + 360 * IZR n /\
    0 <= addWhileNegative heading /\
    (heading < 0 -> addWhileNegative heading < 360).
Proof.
  funelim (addWhileNegative heading).
  - destruct H as [n [Hn [Hsum [Hpos Hlt]]]].
    exists (n + 1)%Z. split; [lia |]. rewrite plus_IZR.
    split; [rewrite Hsum; lra |]. split; [exact Hpos |].
    intros _. destruct (Rlt_dec (heading + 360) 0) as [Hneg' | Hnn].
    + apply Hlt. exact Hneg'.
    + rewrite addWhileNegative_nonneg by lra. lra.
  - exists 0%Z. split; [lia |]. split; [lra |]. split; lra.
Qed.

(** [normalizeHeading] is the representative in [0, 360) of its input
    modulo 360. *)
Lemma normalizeHeading_canonical (heading : R) :
  exists k : Z,
    normalizeHeading heading = heading + 360 * IZR k /\
    0 <= normalizeHeading heading < 360.
Proof.
  destruct (addWhileNegative_spec heading) as [n [Hn [Heq [Hpos Hlt]]]].
  unfold normalizeHeading.
  pose proof (rem360_range (addWhileNegative heading) Hpos) as Hr.
  split with (n - Int_part (addWhileNegative heading / 360))%Z.
  split; [| exact Hr].
  unfold JS.rem in *.
  rewrite truncate_nonneg in * by (apply Rle_mult_inv_pos; lra).
  rewrite minus_IZR, Heq. lra.
Qed.

Lemma congruent_in_range (y1 y2 : R) (m : Z) :
  0 <= y1 < 360 -> 0 <= y2 < 360 -> y1 = y2 + 360 * IZR m -> y1 = y2.
Proof.
  intros H1 H2 Heq.
  assert (Hlo : IZR (-1) < IZR m) by (simpl; lra).
  assert (Hhi : IZR m < IZR 1) by (simpl; lra).
  apply lt_IZR in Hlo. apply lt_IZR in Hhi.
  assert (m = 0%Z) by lia. subst m. lra.
Qed.

Lemma normalizeHeading_range (heading : R) :
  0 <= normalizeHeading heading < 360.
Proof.
  destruct (normalizeHeading_canonical heading) as [k [_ H]]. exact H.
Qed.

Lemma normalizeHeading_fixes_range (heading : R) :
  0 <= heading < 360 -> normalizeHeading heading = heading.
Proof.
  intros H. unfold normalizeHeading.
  rewrite addWhileNegative_nonneg by lra. apply rem360_small. exact H.
Qed.

Lemma normalizeHeading_periodic (x : R) (k : Z) :
  normalizeHeading (x + 360 * IZR k) = normalizeHeading x.
Proof.
  destruct (normalizeHeading_canonical (x + 360 * IZR k)) as [k1 [E1 R1]].
  destruct (normalizeHeading_canonical x) as [k2 [E2 R2]].
  apply (congruent_in_range _ _ (k + k1 - k2)%Z R1 R2).
  rewrite minus_IZR, plus_IZR. lra.
Qed.

Lemma Math_atan2_range (y x : R) : - PI < Math_atan2 y x <= PI.
Proof.
  pose proof PI_RGT_0 as Hpi.
  pose proof (atan_bound (y / x)) as Hb.
  unfold Math_atan2.
  destruct (Rlt_dec 0 x) as [Hx | Hx]; [lra |].
  destruct (Rlt_dec x 0) as [Hx' | Hx'].
  - assert (Hinv : / x < 0) by (apply Rinv_lt_0_compat; exact Hx').
    destruct (Rle_dec 0 y) as [Hy | Hy].
    + assert (Hq : y / x <= 0) by (unfold Rdiv; nra).
      assert (Ha : atan (y / x) <= 0).
      { destruct Hq as [Hq | Hq].
        - left. rewrite <- atan_0. apply atan_increasing. exact Hq.
        - rewrite Hq, atan_0. lra. }
      lra.
    + assert (Hq : 0 < y / x) by (unfold Rdiv; nra).
      assert (Ha : 0 < atan (y / x))
        by (rewrite <- atan_0; apply atan_increasing; exact Hq).
      lra.
  - destruct (Rlt_dec 0 y); [lra |].
    destruct (Rlt_dec y 0); lra.
Qed.

Lemma toDegrees_range (t : R) : - PI < t <= PI -> -180 < toDegrees t <= 180.
Proof.
  intros H. pose proof PI_RGT_0 as Hpi. unfold toDegrees.
  assert (Hin : 0 < / PI) by (apply Rinv_0_lt_compat; exact Hpi).
  assert (Hone : PI * / PI = 1) by (apply Rinv_r; lra).
  unfold Rdiv. split; nra.
Qed.

Lemma calculateBearing_range (from to : Coordinates) :
  0 <= calculateBearing from to < 360.
Proof.
  unfold calculateBearing. cbv zeta.
  match goal with |- context [toDegrees (Math_atan2 ?x ?y)] =>
    pose proof (toDegrees_range _ (Math_atan2_range x y)) as Hd end.
  apply rem360_range. lra.
Qed.

Lemma Math_atan2_origin : Math_atan2 0 0 = 0.
Proof.
  unfold Math_atan2.
  destruct (Rlt_dec 0 0); [lra |]. reflexivity.
Qed.

Lemma calculateBearing_same (a : Coordinates) : calculateBearing a a = 0.
Proof.
  unfold calculateBearing. cbv zeta.
  replace (toRadians (longitude a - longitude a)) with 0
    by (unfold toRadians; ring).
  rewrite sin_0, cos_0.
  replace (0 * cos (toRadians (latitude a))) with 0 by ring.
  replace (cos (toRadians (latitude a)) * sin (toRadians (latitude a)) -
           sin (toRadians (latitude a)) * cos (toRadians (latitude a)) * 1)
    with 0 by ring.
  rewrite Math_atan2_origin.
  replace (toDegrees 0 + 360) with 360 by (unfold toDegrees; field; apply PI_neq0).
  rewrite (rem360_unique 360 1); lra.
Qed.

(** With numbers read as exact reals, [calculateBearing],
    [normalizeHeading] and [calculateRelativeHeading] return an angle in
    [0, 360) on every input, and [calculateBearing a a] is defined (it is
    0) and lies in that range.  The loop of [normalizeHeading] is total
    there; on binary64 numbers it is not, see
    [normalizeHeading_never_returns]. *)
Theorem angles_in_range :
  (forall from to : Coordinates, 0 <= calculateBearing from to < 360) /\
  (forall heading : R, 0 <= normalizeHeading heading < 360) /\
  (forall bearing deviceHeading : R,
     0 <= calculateRelativeHeading bearing deviceHeading < 360) /\
  (forall a : Coordinates,
     calculateBearing a a = 0 /\ 0 <= calculateBearing a a < 360).
Proof.
  split; [exact calculateBearing_range |].
  split; [exact normalizeHeading_range |].
  split.
  - intros bearing deviceHeading. unfold calculateRelativeHeading.
    apply normalizeHeading_range.
  - intros a. split; [apply calculateBearing_same |].
    apply calculateBearing_range.
Qed.

Lemma addWhileNegative_absorbed (fuel : nat) :
  Binary64.addWhileNegative fuel Binary64.hugeNegative = None.
Proof.
  induction fuel as [| fuel IH]; [vm_compute; reflexivity |].
  change (Binary64.addWhileNegative (S fuel) Binary64.hugeNegative)
    with (if PrimFloat.ltb Binary64.hugeNegative 0
          then Binary64.addWhileNegative fuel
                 (PrimFloat.add Binary64.hugeNegative 360)
          else Some Binary64.hugeNegative).
  replace (PrimFloat.ltb Binary64.hugeNegative 0) with true
    by (vm_compute; reflexivity).
  replace (PrimFloat.add Binary64.hugeNegative 360)
    with Binary64.hugeNegative by (vm_compute; reflexivity).
  exact IH.
Qed.

(** C7, the code against the claim and against its own documentation
    ("any value"): on the finite binary64 number -1e300 the loop
    [while (heading < 0) heading += 360] of [normalizeHeading] never
    exits, because -1e300 + 360 is -1e300 again; so [normalizeHeading
    (-1e300)] and [calculateRelativeHeading 0 1e300] return nothing,
    however many iterations they are given.  The examples of the
    documentation, -90 and 450, do return 270 and 90. *)
Theorem normalizeHeading_never_returns :
  PrimFloat.is_finite Binary64.hugeNegative = true /\
  PrimFloat.ltb Binary64.hugeNegative 0 = true /\
  PrimFloat.eqb (PrimFloat.add Binary64.hugeNegative 360)
                Binary64.hugeNegative = true /\
  Binary64.neverReturns
    (fun fuel => Binary64.normalizeHeading fuel Binary64.hugeNegative) /\
  Binary64.neverReturns
    (fun fuel =>
       Binary64.calculateRelativeHeading fuel 0
         (PrimFloat.opp Binary64.hugeNegative)) /\
  Binary64.normalizeHeading 1 (-90)%float = Some 270%float /\
  Binary64.normalizeHeading 0 450%float = Some 90%float.
Proof.
  split; [vm_compute; reflexivity |].
  split; [vm_compute; reflexivity |].
  split; [vm_compute; reflexivity |].
  split.
  { intros fuel. unfold Binary64.normalizeHeading.
    rewrite addWhileNegative_absorbed. reflexivity. }
  split.
  { intros fuel.
    unfold Binary64.calculateRelativeHeading, Binary64.normalizeHeading.
    cbv zeta.
    replace (PrimFloat.sub 0 (PrimFloat.opp Binary64.hugeNegative))
      with Binary64.hugeNegative by (vm_compute; reflexivity).
    rewrite addWhileNegative_absorbed. reflexivity. }
  split; vm_compute; reflexivity.
Qed.

(** C8 (amended): with numbers read as exact reals, [normalizeHeading] is
    idempotent and 360-periodic for every whole number of turns, whatever
    the size or sign of the input: the loop runs as often as it takes
    (e.g. three rounds from -1000, giving 80) and the remainder removes
    any number of turns (1000 gives 280). *)
Theorem normalizeHeading_idempotent_periodic :
  (forall x : R, normalizeHeading (normalizeHeading x) = normalizeHeading x) /\
  (forall (x : R) (k : Z),
     normalizeHeading (x + 360 * IZR k) = normalizeHeading x) /\
  (forall x : R, exists k : Z,
     normalizeHeading x = x + 360 * IZR k /\ 0 <= normalizeHeading x < 360) /\
  normalizeHeading (-1000) = 80 /\
  normalizeHeading 1000 = 280.
Proof.
  split; [| split; [| split; [| split]]].
  - intros x. apply normalizeHeading_fixes_range, normalizeHeading_range.
  - exact normalizeHeading_periodic.
  - exact normalizeHeading_canonical.
  - replace (-1000) with (80 + 360 * IZR (-3)) by (simpl; lra).
    rewrite normalizeHeading_periodic.
    apply normalizeHeading_fixes_range. lra.
  - replace 1000 with (280 + 360 * IZR 2) by (simpl; lra).
    rewrite normalizeHeading_periodic.
    apply normalizeHeading_fixes_range. lra.
Qed.

(** C8, the claim as stated fails on binary64 numbers: the sum
    [0.1 + 360 * 1] is rounded before [normalizeHeading] sees it, and the
    exact remainder of the rounded sum, 0.10000000000002274, is not
    [normalizeHeading 0.1], which is 0.1. *)
Lemma normalizeHeading_rounded_sum :
  Binary64.normalizeHeading 0 tenth = Some tenth /\
  Binary64.normalizeHeading 0 (tenth + 360 * 1)%float
  = Some 0x1.999999999a000p-4%float /\
  PrimFloat.eqb 0x1.999999999a000p-4 tenth = false.
Proof.
  repeat split; vm_compute; reflexivity.
Qed.

(** ** The confidence-weighted average *)

Lemma least_le (x : R) (xs : list R) (y : R) :
  In y (x :: xs) -> least x xs <= y.
Proof.
  unfold least. induction xs as [| z zs IH]; simpl.
  - intros [H | []]. lra.
  - intros [H | [H | H]].
    + apply Rle_trans with (fold_right Rmin x zs); [apply Rmin_r |].
      apply IH. left. exact H.
    + subst. apply Rmin_l.
    + apply Rle_trans with (fold_right Rmin x zs); [apply Rmin_r |].
      apply IH. right. exact H.
Qed.

Lemma greatest_ge (x : R) (xs : list R) (y : R) :
  In y (x :: xs) -> y <= greatest x xs.
Proof.
  unfold greatest. induction xs as [| z zs IH]; simpl.
  - intros [H | []]. lra.
  - intros [H | [H | H]].
    + apply Rle_trans with (fold_right Rmax x zs); [| apply Rmax_r].
      apply IH. left. exact H.
    + subst. apply Rmax_l.
    + apply Rle_trans with (fold_right Rmax x zs); [| apply Rmax_r].
      apply IH. right. exact H.
Qed.

Section WeightedSums.

Import Geo.

Variables latLo latHi lngLo lngHi : R.

Local Abbreviation bounded := (readingWithin latLo latHi lngLo lngHi).
Local Abbreviation sumsBounded := (sumsWithin latLo latHi lngLo lngHi).

Lemma addReading_bounded (s : Sums) (r : PositionReading) :
  bounded r -> 0 <= totalWeight s -> sumsBounded s ->
  totalWeight s < totalWeight (addReading s r) /\
  sumsBounded (addReading s r) /\
  bestAccuracy (addReading s r) <> None.
Proof.
  intros [Hacc [Hlat Hlng]] Hw [Hslat Hslng].
  assert (Hpos : 0 < 1 / accuracy r)
    by (apply Rdiv_lt_0_compat; lra).
  unfold sumsWithin, addReading; simpl.
  set (w := 1 / accuracy r) in *.
  repeat split; try nra.
  destruct (bestAccuracy s); discriminate.
Qed.

Lemma fold_addReading_bounded (buffer : list PositionReading) (s : Sums) :
  Forall bounded buffer -> 0 <= totalWeight s -> sumsBounded s ->
  totalWeight s <= totalWeight (fold_left addReading buffer s) /\
  sumsBounded (fold_left addReading buffer s) /\
  (buffer <> [] ->
   totalWeight s < totalWeight (fold_left addReading buffer s) /\
   bestAccuracy (fold_left addReading buffer s) <> None).
Proof.
  revert s. induction buffer as [| r rest IH]; intros s Hall Hw Hs.
  - simpl. split; [lra |]. split; [exact Hs |]. intros H. contradiction.
  - inversion Hall as [| ? ? Hr Hrest]; subst. simpl.
    destruct (addReading_bounded s r Hr Hw Hs) as [Hlt [Hs' Hb]].
    destruct (IH (addReading s r) Hrest) as [Hle [Hs'' Hne]];
      [lra | exact Hs' |].
    split; [lra |]. split; [exact Hs'' |]. intros _.
    split; [lra |].
    destruct rest as [| r' rest'].
    + simpl. exact Hb.
    + apply Hne. discriminate.
Qed.

Lemma calculateSmoothedPosition_bounded (buffer : list PositionReading) :
  buffer <> [] -> Forall bounded buffer ->
  exists smoothed,
    calculateSmoothedPosition buffer = Some smoothed /\
    latLo <= latitude (result_coords smoothed) <= latHi /\
    lngLo <= longitude (result_coords smoothed) <= lngHi.
Proof.
  intros Hne Hall.
  assert (Hz : sumsBounded zeroSums)
    by (unfold sumsWithin, zeroSums; simpl; lra).
  destruct (fold_addReading_bounded buffer zeroSums Hall) as [_ [Hs Hnz]];
    [simpl; lra | exact Hz |].
  destruct (Hnz Hne) as [Hw Hb].
  change (totalWeight zeroSums) with 0 in Hw.
  unfold calculateSmoothedPosition.
  destruct buffer as [| r rest]; [contradiction |].
  set (s := fold_left addReading (r :: rest) zeroSums) in *.
  destruct (bestAccuracy s) as [best |]; [| contradiction].
  eexists. split; [reflexivity |].
  cbn [result_coords latitude longitude].
  destruct Hs as [Hlat Hlng].
  assert (Hcancel : forall x, x / totalWeight s * totalWeight s = x)
    by (intros x; field; lra).
  split; split; apply Rmult_le_reg_r with (totalWeight s);
    try exact Hw; rewrite Hcancel; lra.
Qed.

End WeightedSums.

Lemma fold_addReading_sums (buffer : list Geo.PositionReading)
  (s : Geo.Sums) :
  Geo.totalWeight (fold_left Geo.addReading buffer s)
  = Geo.totalWeight s + sumOf (weights buffer) /\
  Geo.weightedLat (fold_left Geo.addReading buffer s)
  = Geo.weightedLat s + sumOf (weightedLatitudes buffer) /\
  Geo.weightedLng (fold_left Geo.addReading buffer s)
  = Geo.weightedLng s + sumOf (weightedLongitudes buffer).
Proof.
  revert s. induction buffer as [| r rest IH]; intros s.
  - simpl. repeat split; lra.
  - change (fold_left Geo.addReading (r :: rest) s)
      with (fold_left Geo.addReading rest (Geo.addReading s r)).
    destruct (IH (Geo.addReading s r)) as [Hw [Hlat Hlng]].
    rewrite Hw, Hlat, Hlng. unfold Geo.addReading. simpl.
    repeat split; lra.
Qed.

Lemma calculateSmoothedPosition_mean (buffer : list Geo.PositionReading)
  (smoothed : Geo.BestReadingResult) :
  Geo.calculateSmoothedPosition buffer = Some smoothed ->
  latitude (Geo.result_coords smoothed)
  = sumOf (weightedLatitudes buffer) / sumOf (weights buffer) /\
  longitude (Geo.result_coords smoothed)
  = sumOf (weightedLongitudes buffer) / sumOf (weights buffer).
Proof.
  intros H. unfold Geo.calculateSmoothedPosition in H.
  destruct buffer as [| r rest]; [discriminate |]. cbv zeta in H.
  destruct (fold_addReading_sums (r :: rest) Geo.zeroSums)
    as [Hw [Hlat Hlng]].
  destruct (Geo.bestAccuracy (fold_left Geo.addReading (r :: rest)
                                Geo.zeroSums)); [| discriminate].
  injection H as <-. cbn [Geo.result_coords latitude longitude].
  change (fold_left Geo.addReading rest (Geo.addReading Geo.zeroSums r))
    with (fold_left Geo.addReading (r :: rest) Geo.zeroSums).
  rewrite Hw, Hlat, Hlng. unfold Geo.zeroSums.
  cbn [Geo.totalWeight Geo.weightedLat Geo.weightedLng].
  rewrite !Rplus_0_l. split; reflexivity.
Qed.

Lemma sumOf_weights_pos (r : Geo.PositionReading)
  (rest : list Geo.PositionReading) :
  Forall (fun reading => 0 < Geo.accuracy reading) (r :: rest) ->
  0 < sumOf (weights (r :: rest)).
Proof.
  intros Hall.
  assert (Hnonneg : forall l : list Geo.PositionReading,
            Forall (fun reading => 0 < Geo.accuracy reading) l ->
            0 <= sumOf (weights l)).
  { induction l as [| x l IH]; intros Hl; simpl; [lra |].
    inversion Hl as [| ? ? Hx Hl']; subst.
    specialize (IH Hl').
    assert (0 < 1 / Geo.accuracy x)
      by (unfold Rdiv; rewrite Rmult_1_l; apply Rinv_0_lt_compat; exact Hx).
    lra. }
  inversion Hall as [| ? ? Hr Hrest]; subst. simpl.
  specialize (Hnonneg rest Hrest).
  assert (0 < 1 / Geo.accuracy r)
    by (unfold Rdiv; rewrite Rmult_1_l; apply Rinv_0_lt_compat; exact Hr).
  lra.
Qed.

(** C10 (amended): with numbers read as exact reals, on a non-empty buffer
    whose accuracies are all positive the smoothed position is the mean of
    the buffered coordinates weighted by [1 / accuracy]; its latitude lies
    between the least and the greatest buffered latitude, and its
    longitude between the least and the greatest buffered longitude; on
    the empty buffer the result is null. *)
Theorem calculateSmoothedPosition_convex
  (r : Geo.PositionReading) (rest : list Geo.PositionReading) :
  Forall (fun reading => 0 < Geo.accuracy reading) (r :: rest) ->
  Geo.calculateSmoothedPosition [] = None /\
  exists smoothed,
    Geo.calculateSmoothedPosition (r :: rest) = Some smoothed /\
    0 < sumOf (weights (r :: rest)) /\
    latitude (Geo.result_coords smoothed)
    = sumOf (weightedLatitudes (r :: rest)) / sumOf (weights (r :: rest)) /\
    longitude (Geo.result_coords smoothed)
    = sumOf (weightedLongitudes (r :: rest)) / sumOf (weights (r :: rest)) /\
    least (latitude (Geo.coords r)) (latitudes rest)
      <= latitude (Geo.result_coords smoothed)
      <= greatest (latitude (Geo.coords r)) (latitudes rest) /\
    least (longitude (Geo.coords r)) (longitudes rest)
      <= longitude (Geo.result_coords smoothed)
      <= greatest (longitude (Geo.coords r)) (longitudes rest).
Proof.
  intros Hacc. split; [reflexivity |].
  assert (Hbox : exists smoothed,
    Geo.calculateSmoothedPosition (r :: rest) = Some smoothed /\
    least (latitude (Geo.coords r)) (latitudes rest)
      <= latitude (Geo.result_coords smoothed)
      <= greatest (latitude (Geo.coords r)) (latitudes rest) /\
    least (longitude (Geo.coords r)) (longitudes rest)
      <= longitude (Geo.result_coords smoothed)
      <= greatest (longitude (Geo.coords r)) (longitudes rest)).
  { apply calculateSmoothedPosition_bounded; [discriminate |].
    rewrite Forall_forall in *. intros x Hx.
    assert (Hlat : In (latitude (Geo.coords x))
                      (latitude (Geo.coords r) :: latitudes rest))
      by (apply (in_map (fun y => latitude (Geo.coords y)) (r :: rest));
          exact Hx).
    assert (Hlng : In (longitude (Geo.coords x))
                      (longitude (Geo.coords r) :: longitudes rest))
      by (apply (in_map (fun y => longitude (Geo.coords y)) (r :: rest));
          exact Hx).
    unfold readingWithin. split; [apply Hacc; exact Hx |].
    split; (split; [apply least_le | apply greatest_ge]); assumption. }
  destruct Hbox as [smoothed [Hs [Hlat Hlng]]].
  destruct (calculateSmoothedPosition_mean _ _ Hs) as [Hmlat Hmlng].
  exists smoothed.
  split; [exact Hs |]. split; [apply sumOf_weights_pos; exact Hacc |].
  split; [exact Hmlat |]. split; [exact Hmlng |].
  split; assumption.
Qed.

Lemma calculateSmoothedPosition_convex_witness :
  let r1 := Geo.mkReading (mkCoordinates 1 20) 5 0 in
  let r2 := Geo.mkReading (mkCoordinates 3 10) 2 0 in
  Forall (fun reading => 0 < Geo.accuracy reading) [r1; r2] /\
  exists smoothed,
    Geo.calculateSmoothedPosition [r1; r2] = Some smoothed /\
    latitude (Geo.result_coords smoothed)
    = sumOf (weightedLatitudes [r1; r2]) / sumOf (weights [r1; r2]) /\
    least 1 [3] <= latitude (Geo.result_coords smoothed) <= greatest 1 [3] /\
    least 20 [10] <= longitude (Geo.result_coords smoothed) <= greatest 20 [10].
Proof.
  intros r1 r2.
  assert (Hacc : Forall (fun reading => 0 < Geo.accuracy reading) [r1; r2])
    by (repeat constructor; simpl; lra).
  split; [exact Hacc |].
  destruct (proj2 (calculateSmoothedPosition_convex r1 [r2] Hacc))
    as [smoothed [Hs [_ [Hmean [_ [Hlat Hlng]]]]]].
  exists smoothed.
  split; [exact Hs |]. split; [exact Hmean |]. split; assumption.
Defined.

(** C10, the claim as stated fails on binary64 numbers: for two readings
    at (40, -75) with accuracies 5 and 10 the rounded quotients are
    39.999999999999993 and -74.999999999999986, below the only buffered
    latitude and above the only buffered longitude. *)
Lemma calculateSmoothedPosition_leaves_box :
  Binary64.calculateSmoothedPosition twoAt40
  = Some (Binary64.mkResult
            (Binary64.mkCoordinates 0x1.3ffffffffffffp+5%float
                                    (-0x1.2bfffffffffffp+6)%float)
            5%float) /\
  PrimFloat.ltb 0x1.3ffffffffffffp+5 40 = true /\
  PrimFloat.ltb (-75) (-0x1.2bfffffffffffp+6) = true.
Proof.
  repeat split; vm_compute; reflexivity.
Qed.

(** ** The haversine distance in exact arithmetic *)

Lemma toRadians_minus (x y : R) :
  toRadians (x - y) = toRadians x - toRadians y.
Proof. unfold toRadians. ring. Qed.

(** [cos (w - u) * cos (w + u) = cos^2 w - sin^2 u] *)
Lemma cos_product (w u : R) :
  cos (w - u) * cos (w + u) = cos w * cos w - sin u * sin u.
Proof.
  rewrite cos_minus, cos_plus.
  pose proof (sin2_cos2 w) as Hw. pose proof (sin2_cos2 u) as Hu.
  unfold Rsqr in *. nra.
Qed.

Lemma square_sin_bounds (x : R) : 0 <= sin x * sin x <= 1.
Proof.
  pose proof (sin2_cos2 x) as H. unfold Rsqr in H.
  pose proof (Rle_0_sqr (sin x)) as Hs. pose proof (Rle_0_sqr (cos x)) as Hc.
  unfold Rsqr in *. lra.
Qed.

Lemma square_cos_bounds (x : R) : 0 <= cos x * cos x <= 1.
Proof.
  pose proof (sin2_cos2 x) as H. unfold Rsqr in H.
  pose proof (Rle_0_sqr (sin x)) as Hs. pose proof (Rle_0_sqr (cos x)) as Hc.
  unfold Rsqr in *. lra.
Qed.

(** The value under the square roots is a mixture of [sin^2] and [cos^2]
    terms, hence in [0, 1], whatever the coordinates. *)
Lemma haversineA_bounds (point1 point2 : Coordinates) :
  0 <= haversineA point1 point2 <= 1.
Proof.
  unfold haversineA. cbv zeta.
  set (l1 := toRadians (latitude point1)).
  set (l2 := toRadians (latitude point2)).
  rewrite toRadians_minus. fold l1 l2.
  set (v := toRadians (longitude point2 - longitude point1) / 2).
  set (u := (l2 - l1) / 2).
  set (w := (l1 + l2) / 2).
  replace l1 with (w - u) by (unfold w, u; lra).
  replace l2 with (w + u) by (unfold w, u; lra).
  rewrite cos_product.
  pose proof (square_sin_bounds u) as Hu.
  pose proof (square_sin_bounds v) as Hv.
  pose proof (square_cos_bounds w) as Hw.
  set (s := sin u * sin u) in *.
  set (q := sin v * sin v) in *.
  set (t := cos w * cos w) in *.
  replace (s + (t - s) * sin v * sin v) with (s * (1 - q) + t * q)
    by (unfold q; ring).
  split; nra.
Qed.

Lemma Math_atan2_quadrant (y x : R) :
  0 <= y -> 0 <= x -> 0 <= Math_atan2 y x <= PI / 2.
Proof.
  intros Hy Hx. pose proof PI_RGT_0 as Hpi.
  unfold Math_atan2.
  destruct (Rlt_dec 0 x) as [Hpos | Hnpos].
  - pose proof (atan_bound (y / x)) as Hb.
    assert (Hq : 0 <= y / x) by (apply Rle_mult_inv_pos; assumption).
    split; [| lra].
    destruct Hq as [Hq | Hq].
    + left. rewrite <- atan_0. apply atan_increasing. exact Hq.
    + rewrite <- Hq, atan_0. lra.
  - destruct (Rlt_dec x 0); [lra |].
    destruct (Rlt_dec 0 y); [lra |].
    destruct (Rlt_dec y 0); lra.
Qed.

Lemma calculateDistance_bounds (point1 point2 : Coordinates) :
  0 <= calculateDistance point1 point2 <= EARTH_RADIUS_METERS * PI.
Proof.
  unfold calculateDistance. cbv zeta.
  pose proof (haversineA_bounds point1 point2) as Ha.
  set (a := haversineA point1 point2) in *.
  pose proof (Math_atan2_quadrant (sqrt a) (sqrt (1 - a))
                (sqrt_pos a) (sqrt_pos (1 - a))) as Hq.
  unfold EARTH_RADIUS_METERS. split; nra.
Qed.

Lemma calculateDistance_same (p : Coordinates) : calculateDistance p p = 0.
Proof.
  unfold calculateDistance, haversineA. cbv zeta.
  replace (toRadians (latitude p - latitude p) / 2) with 0
    by (unfold toRadians; field).
  replace (toRadians (longitude p - longitude p) / 2) with 0
    by (unfold toRadians; field).
  rewrite sin_0.
  replace (0 * 0 + cos (toRadians (latitude p)) * cos (toRadians (latitude p)) * 0 * 0)
    with 0 by ring.
  rewrite sqrt_0. replace (1 - 0) with 1 by ring. rewrite sqrt_1.
  unfold Math_atan2. destruct (Rlt_dec 0 1); [| lra].
  replace (0 / 1) with 0 by field. rewrite atan_0. ring.
Qed.

(** A quarter of the equator: from (0, 0) to (0, 90). *)
Lemma calculateDistance_quarter :
  calculateDistance (mkCoordinates 0 0) (mkCoordinates 0 90)
  = EARTH_RADIUS_METERS * (PI / 2).
Proof.
  unfold calculateDistance, haversineA. cbv zeta. simpl.
  replace (toRadians (0 - 0) / 2) with 0 by (unfold toRadians; field).
  replace (toRadians 0) with 0 by (unfold toRadians; field).
  replace (toRadians (90 - 0) / 2) with (PI / 4) by (unfold toRadians; field).
  rewrite sin_0, cos_0, sin_PI4.
  assert (Hs2 : sqrt 2 * sqrt 2 = 2) by (apply sqrt_def; lra).
  assert (Hs2pos : 0 < sqrt 2) by (apply sqrt_lt_R0; lra).
  replace (0 * 0 + 1 * 1 * (1 / sqrt 2) * (1 / sqrt 2)) with (1 / 2).
  2:{ field_simplify; [| lra]. rewrite <- Rsqr_pow2. unfold Rsqr.
      rewrite Hs2. field. }
  replace (1 - 1 / 2) with (1 / 2) by field.
  assert (Hh : 0 < sqrt (1 / 2)) by (apply sqrt_lt_R0; lra).
  unfold Math_atan2. destruct (Rlt_dec 0 (sqrt (1 / 2))); [| lra].
  replace (sqrt (1 / 2) / sqrt (1 / 2)) with 1 by (field; lra).
  rewrite atan_1. field.
Qed.

(** ** Continuous tracking *)

Section Tracking.

Import Geo.

Lemma pushReading_nonempty (buffer : list PositionReading)
  (r : PositionReading) : pushReading buffer r <> [].
Proof.
  unfold pushReading, POSITION_BUFFER_SIZE.
  destruct (Nat.ltb_spec 5 (List.length (buffer ++ [r]))) as [Hlen | Hlen].
  - destruct (buffer ++ [r]) as [| x l]; simpl in *; [lia |].
    destruct l; simpl in *; [lia | discriminate].
  - destruct buffer; discriminate.
Qed.

Lemma pushReading_length (buffer : list PositionReading)
  (r : PositionReading) :
  (List.length buffer <= 5)%nat ->
  (List.length (pushReading buffer r) <= 5)%nat.
Proof.
  intros H. unfold pushReading, POSITION_BUFFER_SIZE.
  destruct (Nat.ltb_spec 5 (List.length (buffer ++ [r]))) as [Hlen | Hlen];
    [| exact Hlen].
  rewrite length_app in Hlen. simpl in Hlen.
  destruct buffer as [| x l]; simpl in *; [lia |].
  rewrite length_app. simpl. lia.
Qed.

Lemma fold_addReading_best (buffer : list PositionReading) (s : Sums) :
  bestAccuracy s <> None ->
  bestAccuracy (fold_left addReading buffer s) <> None.
Proof.
  revert s. induction buffer as [| r rest IH]; intros s Hs; simpl.
  - exact Hs.
  - apply IH. unfold addReading; simpl.
    destruct (bestAccuracy s); discriminate.
Qed.

Lemma calculateSmoothedPosition_some (buffer : list PositionReading) :
  buffer <> [] ->
  exists smoothed, calculateSmoothedPosition buffer = Some smoothed.
Proof.
  intros Hne. destruct buffer as [| r rest]; [contradiction |].
  unfold calculateSmoothedPosition.
  assert (Hb : bestAccuracy (fold_left addReading (r :: rest) zeroSums) <> None).
  { simpl. apply fold_addReading_best. unfold addReading; simpl. discriminate. }
  destruct (bestAccuracy (fold_left addReading (r :: rest) zeroSums));
    [eexists; reflexivity | contradiction].
Qed.

Lemma smoothedWith_some (pos : GeolocationPosition) (h : Hook) :
  exists smoothed, smoothedWith pos h = Some smoothed.
Proof.
  apply calculateSmoothedPosition_some, pushReading_nonempty.
Qed.

Lemma handleSuccess_buffer (pos : GeolocationPosition) (h : Hook) :
  positionBufferRef (handleSuccess pos h)
  = pushReading (positionBufferRef h) (readingOf pos).
Proof.
  unfold handleSuccess. cbv zeta. fold (readingOf pos).
  destruct (calculateSmoothedPosition _); [| reflexivity].
  match goal with |- context [if ?c then _ else _] => destruct c end;
    reflexivity.
Qed.

Lemma handleSuccess_first (pos : GeolocationPosition) (h : Hook)
  (smoothed : BestReadingResult) :
  lastReportedPositionRef h = None ->
  smoothedWith pos h = Some smoothed ->
  position (handleSuccess pos h) = Some (result_coords smoothed) /\
  accuracyState (handleSuccess pos h) = Some (result_accuracy smoothed) /\
  lastReportedPositionRef (handleSuccess pos h) = Some (result_coords smoothed).
Proof.
  intros Hlast Hs. unfold smoothedWith in Hs.
  unfold handleSuccess. cbv zeta. fold (readingOf pos).
  rewrite Hs, Hlast. repeat split.
Qed.

Lemma handleSuccess_beyond (pos : GeolocationPosition) (h : Hook)
  (last : Coordinates) (smoothed : BestReadingResult) :
  lastReportedPositionRef h = Some last ->
  smoothedWith pos h = Some smoothed ->
  calculateDistance last (result_coords smoothed)
    > pos_accuracy pos * MOVEMENT_THRESHOLD_FACTOR ->
  position (handleSuccess pos h) = Some (result_coords smoothed) /\
  accuracyState (handleSuccess pos h) = Some (result_accuracy smoothed) /\
  lastReportedPositionRef (handleSuccess pos h) = Some (result_coords smoothed).
Proof.
  intros Hlast Hs Hd. unfold smoothedWith in Hs.
  unfold handleSuccess. cbv zeta. fold (readingOf pos).
  rewrite Hs, Hlast.
  destruct (Rgt_dec _ _) as [_ | Hn]; [repeat split | contradiction].
Qed.

Lemma handleSuccess_within (pos : GeolocationPosition) (h : Hook)
  (last : Coordinates) (smoothed : BestReadingResult) :
  lastReportedPositionRef h = Some last ->
  smoothedWith pos h = Some smoothed ->
  calculateDistance last (result_coords smoothed)
    <= pos_accuracy pos * MOVEMENT_THRESHOLD_FACTOR ->
  position (handleSuccess pos h) = position h /\
  accuracyState (handleSuccess pos h) = accuracyState h /\
  lastReportedPositionRef (handleSuccess pos h) = lastReportedPositionRef h.
Proof.
  intros Hlast Hs Hd. unfold smoothedWith in Hs.
  unfold handleSuccess. cbv zeta. fold (readingOf pos).
  rewrite Hs, Hlast.
  destruct (Rgt_dec _ _) as [Hgt | _]; [| repeat split].
  exfalso. apply (Rgt_not_le _ _ Hgt). exact Hd.
Qed.

Lemma deliver_within (fixes : list GeolocationPosition) (h : Hook) :
  allWithinThreshold fixes h ->
  position (deliver fixes h) = position h /\
  accuracyState (deliver fixes h) = accuracyState h /\
  lastReportedPositionRef (deliver fixes h) = lastReportedPositionRef h.
Proof.
  revert h. induction fixes as [| pos rest IH]; intros h Hall; simpl.
  - repeat split.
  - destruct Hall as [[last [smoothed [Hlast [Hs Hd]]]] Hrest].
    destruct (handleSuccess_within pos h last smoothed Hlast Hs Hd)
      as [Hp [Ha Hl]].
    destruct (IH _ Hrest) as [Hp' [Ha' Hl']].
    unfold deliver in *. simpl.
    rewrite Hp', Ha', Hl'. repeat split; assumption.
Qed.

End Tracking.

(** C4 (amended): with numbers read as exact reals and fixes of positive
    accuracy, while fixes arrive the reported position is overwritten by
    the smoothed one exactly when there is no last reported position yet
    (the very first fix) or the great-circle distance from the last
    reported position exceeds the incoming fix's accuracy times 0.5; over
    any sequence of fixes whose smoothed positions all stay within that
    threshold the reported position does not change. *)
Theorem movement_gating :
  (forall pos h,
     positiveAccuracies pos h ->
     Geo.lastReportedPositionRef h = None ->
     exists smoothed,
       smoothedWith pos h = Some smoothed /\
       Geo.position (Geo.handleSuccess pos h)
         = Some (Geo.result_coords smoothed) /\
       Geo.lastReportedPositionRef (Geo.handleSuccess pos h)
         = Some (Geo.result_coords smoothed)) /\
  (forall pos h last smoothed,
     positiveAccuracies pos h ->
     Geo.lastReportedPositionRef h = Some last ->
     smoothedWith pos h = Some smoothed ->
     (calculateDistance last (Geo.result_coords smoothed)
        > Geo.pos_accuracy pos * Geo.MOVEMENT_THRESHOLD_FACTOR ->
      Geo.position (Geo.handleSuccess pos h)
        = Some (Geo.result_coords smoothed) /\
      Geo.lastReportedPositionRef (Geo.handleSuccess pos h)
        = Some (Geo.result_coords smoothed)) /\
     (calculateDistance last (Geo.result_coords smoothed)
        <= Geo.pos_accuracy pos * Geo.MOVEMENT_THRESHOLD_FACTOR ->
      Geo.position (Geo.handleSuccess pos h) = Geo.position h /\
      Geo.lastReportedPositionRef (Geo.handleSuccess pos h)
        = Geo.lastReportedPositionRef h)) /\
  (forall fixes h,
     allPositive fixes h ->
     allWithinThreshold fixes h ->
     Geo.position (deliver fixes h) = Geo.position h /\
     Geo.lastReportedPositionRef (deliver fixes h)
       = Geo.lastReportedPositionRef h).
Proof.
  split; [| split].
  - intros pos h _ Hlast.
    destruct (smoothedWith_some pos h) as [smoothed Hs].
    exists smoothed. split; [exact Hs |].
    destruct (handleSuccess_first pos h smoothed Hlast Hs) as [Hp [_ Hl]].
    split; assumption.
  - intros pos h last smoothed _ Hlast Hs. split; intros Hd.
    + destruct (handleSuccess_beyond pos h last smoothed Hlast Hs Hd)
        as [Hp [_ Hl]]. split; assumption.
    + destruct (handleSuccess_within pos h last smoothed Hlast Hs Hd)
        as [Hp [_ Hl]]. split; assumption.
  - intros fixes h _ Hall.
    destruct (deliver_within fixes h Hall) as [Hp [_ Hl]]. split; assumption.
Qed.

(** Evaluates the smoothed position of a buffer of given readings: the
    loop is unfolded, the quotients are settled by [field], and the best
    accuracy by the minimum of equal numbers. *)
Ltac smoothed_value :=
  unfold smoothedWith, Geo.pushReading, Geo.calculateSmoothedPosition;
  simpl; unfold origin;
  repeat f_equal; try field;
  repeat rewrite (Rmin_left 1 1) by lra; reflexivity.

(** Half of the equator: from (0, 0) to (0, 180). *)
Lemma calculateDistance_half :
  calculateDistance (mkCoordinates 0 0) (mkCoordinates 0 180)
  = EARTH_RADIUS_METERS * PI.
Proof.
  unfold calculateDistance, haversineA. cbv zeta. simpl.
  replace (toRadians (0 - 0) / 2) with 0 by (unfold toRadians; field).
  replace (toRadians 0) with 0 by (unfold toRadians; field).
  replace (toRadians (180 - 0) / 2) with (PI / 2) by (unfold toRadians; field).
  rewrite sin_0, cos_0, sin_PI2.
  replace (0 * 0 + 1 * 1 * 1 * 1) with 1 by ring.
  replace (1 - 1) with 0 by ring.
  rewrite sqrt_0, sqrt_1.
  unfold Math_atan2.
  destruct (Rlt_dec 0 0); [lra |].
  destruct (Rlt_dec 0 1); [| lra].
  field.
Qed.

Lemma PI_above_2 : 2 < PI.
Proof. pose proof PI2_1. lra. Qed.

Lemma hookA_after_first_fix :
  Geo.handleSuccess fixA Geo.initialHook
  = Geo.mkHook (Some origin) (Some 1) None false false None
               [readingOf fixA] (Some origin).
Proof.
  assert (Hs : smoothedWith fixA Geo.initialHook
               = Some (Geo.mkResult origin 1)).
  { smoothed_value. }
  unfold Geo.handleSuccess. cbv zeta.
  fold (readingOf fixA). fold (smoothedWith fixA Geo.initialHook).
  rewrite Hs. reflexivity.
Qed.

Lemma firstSession_state :
  fst firstSession
  = Geo.mkHook (Some origin) (Some 1) None true false (Some 0%nat)
               [readingOf fixA] (Some origin).
Proof.
  assert (Hs : smoothedWith fixA (fst (Geo.startTracking (Geo.initialHook, nav0)))
               = Some (Geo.mkResult origin 1)).
  { smoothed_value. }
  unfold firstSession. cbv zeta. unfold fst at 1.
  unfold Geo.handleSuccess. cbv zeta.
  fold (readingOf fixA).
  fold (smoothedWith fixA (fst (Geo.startTracking (Geo.initialHook, nav0)))).
  rewrite Hs. reflexivity.
Qed.

Lemma restarted_state :
  fst restarted
  = Geo.mkHook (Some origin) (Some 1) None true true (Some 1%nat)
               [readingOf fixA] (Some origin).
Proof.
  unfold restarted.
  rewrite (surjective_pairing firstSession), firstSession_state.
  reflexivity.
Qed.

(** C3, the claim as stated fails: after a first session that buffered the
    fix at (0, 0), [stopTracking] and [startTracking] leave that fix in the
    buffer, and the first fix of the new session, at (0, 180), is reported
    as (0, 90); with the buffer emptied it would be reported as (0, 180). *)
Lemma startTracking_keeps_old_fix :
  Geo.positionBufferRef (fst restarted) = [readingOf fixA] /\
  Geo.position (Geo.handleSuccess fixB (fst restarted))
    = Some (mkCoordinates 0 90) /\
  Geo.position (Geo.handleSuccess fixB (withClearedBuffer (fst restarted)))
    = Some (mkCoordinates 0 180).
Proof.
  rewrite restarted_state. split; [reflexivity |]. split.
  - set (h := Geo.mkHook _ _ _ _ _ _ _ _).
    assert (Hs : smoothedWith fixB h
                 = Some (Geo.mkResult (mkCoordinates 0 90) 1)).
    { smoothed_value. }
    destruct (handleSuccess_beyond fixB h origin _ eq_refl Hs) as [Hp _];
      [| exact Hp].
    simpl. unfold origin. rewrite calculateDistance_quarter.
    unfold EARTH_RADIUS_METERS, Geo.MOVEMENT_THRESHOLD_FACTOR.
    pose proof PI_above_2. lra.
  - set (h := withClearedBuffer _).
    assert (Hs : smoothedWith fixB h
                 = Some (Geo.mkResult (mkCoordinates 0 180) 1)).
    { smoothed_value. }
    destruct (handleSuccess_beyond fixB h origin _ eq_refl Hs) as [Hp _];
      [| exact Hp].
    simpl. unfold origin. rewrite calculateDistance_half.
    unfold EARTH_RADIUS_METERS, Geo.MOVEMENT_THRESHOLD_FACTOR.
    pose proof PI_above_2. nra.
Qed.

Lemma deliver_buffer (fixes : list Geo.GeolocationPosition) (h : Geo.Hook) :
  Geo.positionBufferRef (deliver fixes h)
  = fold_left Geo.pushReading (map readingOf fixes) (Geo.positionBufferRef h).
Proof.
  revert h. induction fixes as [| pos rest IH]; intros h; simpl.
  - reflexivity.
  - unfold deliver in *. simpl. rewrite IH, handleSuccess_buffer. reflexivity.
Qed.

(** Five newer readings push every older one out of a buffer of at most
    five. *)
Lemma five_readings_evict (buffer : list Geo.PositionReading)
  (r1 r2 r3 r4 r5 : Geo.PositionReading) :
  (List.length buffer <= 5)%nat ->
  fold_left Geo.pushReading [r1; r2; r3; r4; r5] buffer = [r1; r2; r3; r4; r5].
Proof.
  intros Hlen.
  do 6 (destruct buffer as [| ? buffer]; [reflexivity |]).
  simpl in Hlen. lia.
Qed.

(** C3 (amended): [startTracking], also when called again while tracking,
    leaves the smoothing buffer, the last reported position and the
    reported position as they are; where geolocation is available it
    cancels the previous watch and registers a new one.  [stopTracking]
    does not touch the buffer either, so the first fix of a new session is
    smoothed together with the readings of the previous one, and a
    reading of the previous session leaves a full buffer only when five
    newer fixes have arrived. *)
Theorem startTracking_preserves_buffer (h : Geo.Hook) (nav : Geo.Navigator) :
  (Geo.positionBufferRef (fst (Geo.startTracking (h, nav)))
     = Geo.positionBufferRef h /\
   Geo.lastReportedPositionRef (fst (Geo.startTracking (h, nav)))
     = Geo.lastReportedPositionRef h /\
   Geo.position (fst (Geo.startTracking (h, nav))) = Geo.position h) /\
  Geo.positionBufferRef (fst (Geo.stopTracking (h, nav)))
    = Geo.positionBufferRef h /\
  (forall pos,
     Geo.positionBufferRef
       (Geo.handleSuccess pos (fst (Geo.startTracking (h, nav))))
     = Geo.pushReading (Geo.positionBufferRef h) (readingOf pos)) /\
  (Geo.geolocation nav = true ->
   Geo.isTracking (fst (Geo.startTracking (h, nav))) = true /\
   Geo.watchIdRef (fst (Geo.startTracking (h, nav)))
     = Some (Geo.nextWatchId nav) /\
   Geo.watches (snd (Geo.startTracking (h, nav)))
     = Geo.nextWatchId nav ::
       match Geo.watchIdRef h with
       | Some old => Geo.watches (Geo.clearWatch old nav)
       | None => Geo.watches nav
       end) /\
  (forall p1 p2 p3 p4 p5,
     (List.length (Geo.positionBufferRef h) <= 5)%nat ->
     Geo.positionBufferRef
       (deliver [p1; p2; p3; p4; p5] (fst (Geo.startTracking (h, nav))))
     = map readingOf [p1; p2; p3; p4; p5]).
Proof.
  assert (Hstart :
    Geo.positionBufferRef (fst (Geo.startTracking (h, nav)))
      = Geo.positionBufferRef h /\
    Geo.lastReportedPositionRef (fst (Geo.startTracking (h, nav)))
      = Geo.lastReportedPositionRef h /\
    Geo.position (fst (Geo.startTracking (h, nav))) = Geo.position h).
  { unfold Geo.startTracking.
    destruct (Geo.geolocation nav); simpl; repeat split. }
  split; [exact Hstart |]. destruct Hstart as [Hbuf _].
  split; [| split; [| split]].
  - unfold Geo.stopTracking. destruct (Geo.watchIdRef h); reflexivity.
  - intros pos. rewrite handleSuccess_buffer, Hbuf. reflexivity.
  - intros Hgeo. unfold Geo.startTracking. rewrite Hgeo. simpl.
    destruct (Geo.watchIdRef h); simpl; repeat split.
  - intros p1 p2 p3 p4 p5 Hlen.
    rewrite deliver_buffer, Hbuf. simpl map.
    apply five_readings_evict. exact Hlen.
Qed.

Lemma startTracking_preserves_buffer_witness :
  Geo.geolocation (snd (Geo.stopTracking firstSession)) = true /\
  (List.length (Geo.positionBufferRef (fst (Geo.stopTracking firstSession)))
     <= 5)%nat /\
  Geo.positionBufferRef (fst restarted)
    = Geo.positionBufferRef (fst (Geo.stopTracking firstSession)) /\
  Geo.watchIdRef (fst restarted) = Some 1%nat /\
  Geo.watches (snd restarted) = [1%nat].
Proof.
  assert (Hgeo : Geo.geolocation (snd (Geo.stopTracking firstSession)) = true)
    by reflexivity.
  assert (Hlen :
    (List.length (Geo.positionBufferRef (fst (Geo.stopTracking firstSession)))
       <= 5)%nat).
  { rewrite (surjective_pairing firstSession), firstSession_state.
    simpl. lia. }
  split; [exact Hgeo |]. split; [exact Hlen |].
  unfold restarted.
  destruct (startTracking_preserves_buffer
              (fst (Geo.stopTracking firstSession))
              (snd (Geo.stopTracking firstSession)))
    as [[Hbuf _] [_ [_ [Hwatch _]]]].
  rewrite <- surjective_pairing in Hbuf, Hwatch.
  destruct (Hwatch Hgeo) as [_ [Hid Hws]].
  split; [exact Hbuf |]. split.
  - rewrite Hid. reflexivity.
  - rewrite Hws.
    rewrite (surjective_pairing firstSession), firstSession_state.
    reflexivity.
Defined.

(** The states used to exercise the gate: after the fix at (0, 0), and
    after the same fix has arrived once more. *)
Lemma hookA_after_second_fix :
  Geo.handleSuccess fixA (Geo.handleSuccess fixA Geo.initialHook)
  = Geo.mkHook (Some origin) (Some 1) None false false None
               [readingOf fixA; readingOf fixA] (Some origin).
Proof.
  rewrite hookA_after_first_fix.
  set (h := Geo.mkHook _ _ _ _ _ _ _ _).
  assert (Hs : smoothedWith fixA h = Some (Geo.mkResult origin 1)).
  { smoothed_value. }
  unfold Geo.handleSuccess. cbv zeta.
  fold (readingOf fixA). fold (smoothedWith fixA h).
  rewrite Hs. simpl.
  rewrite calculateDistance_same.
  destruct (Rgt_dec 0 (1 * Geo.MOVEMENT_THRESHOLD_FACTOR)) as [Hgt | _];
    [unfold Geo.MOVEMENT_THRESHOLD_FACTOR in Hgt; lra | reflexivity].
Qed.

Lemma movement_gating_witness :
  let h1 := Geo.handleSuccess fixA Geo.initialHook in
  Geo.lastReportedPositionRef Geo.initialHook = None /\
  Geo.position h1 = Some origin /\
  allPositive [fixA; fixA] h1 /\
  allWithinThreshold [fixA; fixA] h1 /\
  Geo.position (deliver [fixA; fixA] h1) = Some origin /\
  Geo.position (Geo.handleSuccess fixB h1) = Some (mkCoordinates 0 90).
Proof.
  intros h1.
  destruct movement_gating as [Hfirst [Hgate Hseq]].
  assert (Hh1 : h1 = Geo.mkHook (Some origin) (Some 1) None false false None
                                [readingOf fixA] (Some origin))
    by (apply hookA_after_first_fix).
  assert (HsA : smoothedWith fixA h1 = Some (Geo.mkResult origin 1)).
  { rewrite Hh1.
    smoothed_value. }
  assert (HsA2 : smoothedWith fixA (Geo.handleSuccess fixA h1)
                 = Some (Geo.mkResult origin 1)).
  { unfold h1. rewrite hookA_after_second_fix.
    smoothed_value. }
  assert (HsB : smoothedWith fixB h1
                = Some (Geo.mkResult (mkCoordinates 0 90) 1)).
  { rewrite Hh1.
    smoothed_value. }
  assert (Hlast1 : Geo.lastReportedPositionRef h1 = Some origin)
    by (rewrite Hh1; reflexivity).
  assert (Hlast2 : Geo.lastReportedPositionRef (Geo.handleSuccess fixA h1)
                   = Some origin)
    by (unfold h1; rewrite hookA_after_second_fix; reflexivity).
  assert (Hnear : calculateDistance origin origin
                  <= Geo.pos_accuracy fixA * Geo.MOVEMENT_THRESHOLD_FACTOR).
  { rewrite calculateDistance_same. simpl.
    unfold Geo.MOVEMENT_THRESHOLD_FACTOR. lra. }
  assert (Hall : allWithinThreshold [fixA; fixA] h1).
  { simpl. split; [| split; [| exact I]].
    - exists origin, (Geo.mkResult origin 1). repeat split; assumption.
    - exists origin, (Geo.mkResult origin 1). repeat split; assumption. }
  assert (Hpos0 : positiveAccuracies fixA Geo.initialHook)
    by (split; [simpl; lra | constructor]).
  assert (HposA : positiveAccuracies fixA h1)
    by (rewrite Hh1; split; [simpl; lra | repeat constructor; simpl; lra]).
  assert (HposB : positiveAccuracies fixB h1)
    by (rewrite Hh1; split; [simpl; lra | repeat constructor; simpl; lra]).
  assert (Hpos : allPositive [fixA; fixA] h1).
  { simpl. split; [exact HposA |]. split; [| exact I].
    unfold h1. rewrite hookA_after_second_fix.
    split; [simpl; lra | repeat constructor; simpl; lra]. }
  split; [reflexivity |].
  split.
  { destruct (Hfirst fixA Geo.initialHook Hpos0 eq_refl)
      as [sm [Hsm [Hp _]]].
    assert (Hs0 : smoothedWith fixA Geo.initialHook
                  = Some (Geo.mkResult origin 1)).
    { smoothed_value. }
    rewrite Hs0 in Hsm. injection Hsm as <-. exact Hp. }
  split; [exact Hpos |].
  split; [exact Hall |].
  split.
  { destruct (Hseq [fixA; fixA] h1 Hpos Hall) as [Hp _].
    rewrite Hp, Hh1. reflexivity. }
  destruct (Hgate fixB h1 origin _ HposB Hlast1 HsB) as [Hbeyond _].
  destruct Hbeyond as [Hp _]; [| exact Hp].
  simpl. unfold origin. rewrite calculateDistance_quarter.
  unfold EARTH_RADIUS_METERS, Geo.MOVEMENT_THRESHOLD_FACTOR.
  pose proof PI_above_2. lra.
Defined.

(** ** Best of N samples *)

Lemma takeReadings_resolved (sensor : nat -> Geo.Sample) (n i : nat)
  (readings : list Geo.PositionReading) :
  Geo.takeReadings sensor i n readings
  = readings ++ resolvedReadings sensor i n.
Proof.
  revert i readings. induction n as [| n IH]; intros i readings; simpl.
  - rewrite app_nil_r. reflexivity.
  - destruct (sensor i) as [pos | err].
    + rewrite IH, <- app_assoc. reflexivity.
    + apply IH.
Qed.

Lemma resolvedReadings_In (sensor : nat -> Geo.Sample) (n i : nat)
  (r : Geo.PositionReading) :
  In r (resolvedReadings sensor i n) <->
  exists j pos, (i <= j < i + n)%nat /\
    sensor j = Geo.Resolved pos /\ r = readingOf pos.
Proof.
  revert i. induction n as [| n IH]; intros i; simpl.
  - split; [intros [] | intros [j [pos [Hj _]]]; lia].
  - split.
    + intros Hin. destruct (sensor i) as [pos | err] eqn:Hs.
      * destruct Hin as [Heq | Hin].
        -- exists i, pos. repeat split; [lia | lia | exact Hs | auto].
        -- apply IH in Hin. destruct Hin as [j [pos' [Hj [Hs' Hr]]]].
           exists j, pos'. repeat split; [lia | lia | exact Hs' | exact Hr].
      * apply IH in Hin. destruct Hin as [j [pos' [Hj [Hs' Hr]]]].
        exists j, pos'. repeat split; [lia | lia | exact Hs' | exact Hr].
    + intros [j [pos [Hj [Hs Hr]]]].
      destruct (Nat.eq_dec j i) as [-> | Hne].
      * rewrite Hs. left. auto.
      * assert (Hin : In r (resolvedReadings sensor (S i) n)).
        { apply IH. exists j, pos. repeat split; [lia | lia | exact Hs | exact Hr]. }
        destruct (sensor i); [right |]; exact Hin.
Qed.

Lemma resolvedReadings_nil (sensor : nat -> Geo.Sample) (n : nat) :
  resolvedReadings sensor 0 n = [] <->
  forall i, (i < n)%nat -> exists err, sensor i = Geo.Rejected err.
Proof.
  split.
  - intros Hnil i Hi.
    destruct (sensor i) as [pos | err] eqn:Hs; [| exists err; reflexivity].
    assert (Hin : In (readingOf pos) (resolvedReadings sensor 0 n)).
    { apply resolvedReadings_In. exists i, pos. repeat split; [lia | lia | exact Hs]. }
    rewrite Hnil in Hin. destruct Hin.
  - intros Hall.
    destruct (resolvedReadings sensor 0 n) as [| r rest] eqn:Hr;
      [reflexivity |].
    assert (Hin : In r (resolvedReadings sensor 0 n))
      by (rewrite Hr; left; reflexivity).
    apply resolvedReadings_In in Hin.
    destruct Hin as [j [pos [Hj [Hs _]]]].
    destruct (Hall j) as [err Herr]; [lia |].
    rewrite Herr in Hs. discriminate.
Qed.

(** The reduction keeps a reading of the list whose accuracy value no other
    reading undercuts. *)
Lemma bestOf_least (rest : list Geo.PositionReading)
  (first : Geo.PositionReading) :
  In (Geo.bestOf first rest) (first :: rest) /\
  forall r, In r (first :: rest) ->
    Geo.accuracy (Geo.bestOf first rest) <= Geo.accuracy r.
Proof.
  unfold Geo.bestOf. revert first.
  induction rest as [| current rest IH]; intros first; simpl.
  - split; [left; reflexivity |]. intros r [<- | []]. lra.
  - destruct (Rlt_dec (Geo.accuracy current) (Geo.accuracy first))
      as [Hlt | Hge].
    + destruct (IH current) as [Hin Hmin]. split.
      * right. exact Hin.
      * intros r [<- | [<- | Hr]].
        -- apply Rle_trans with (Geo.accuracy current);
             [apply Hmin; left; reflexivity | lra].
        -- apply Hmin. left. reflexivity.
        -- apply Hmin. right. exact Hr.
    + destruct (IH first) as [Hin Hmin]. split.
      * destruct Hin as [Hin | Hin]; [left; exact Hin | right; right; exact Hin].
      * intros r [<- | [<- | Hr]].
        -- apply Hmin. left. reflexivity.
        -- apply Rle_trans with (Geo.accuracy first);
             [apply Hmin; left; reflexivity | lra].
        -- apply Hmin. right. exact Hr.
Qed.

(** C5: where geolocation is available, [getBestReading n] resolves with
    null exactly when all [n] requests are rejected, and it then reports
    "Failed to get any GPS readings."; otherwise rejected requests are
    skipped and the result is a resolved sample whose accuracy value none
    of the resolved samples undercuts, which also becomes the reported
    position. *)
Theorem getBestReading_spec (numSamples : nat) (sensor : nat -> Geo.Sample)
  (nav : Geo.Navigator) (h : Geo.Hook) :
  Geo.geolocation nav = true ->
  let outcome := Geo.getBestReading numSamples sensor nav h in
  (snd outcome = None <->
   forall i, (i < numSamples)%nat -> exists err, sensor i = Geo.Rejected err) /\
  (snd outcome = None ->
   Geo.error (fst outcome) = Some "Failed to get any GPS readings."%string) /\
  (forall best, snd outcome = Some best ->
     (exists i pos, (i < numSamples)%nat /\ sensor i = Geo.Resolved pos /\
        best = Geo.mkResult (Geo.coords (readingOf pos)) (Geo.pos_accuracy pos)) /\
     (forall j pos, (j < numSamples)%nat -> sensor j = Geo.Resolved pos ->
        Geo.result_accuracy best <= Geo.pos_accuracy pos) /\
     Geo.position (fst outcome) = Some (Geo.result_coords best) /\
     Geo.accuracyState (fst outcome) = Some (Geo.result_accuracy best) /\
     Geo.error (fst outcome) = None).
Proof.
  intros Hgeo outcome. subst outcome. unfold Geo.getBestReading.
  rewrite Hgeo. simpl negb. cbv iota.
  rewrite takeReadings_resolved. simpl app.
  pose proof (resolvedReadings_nil sensor numSamples) as Hnil.
  pose proof (resolvedReadings_In sensor numSamples 0) as Hin.
  destruct (resolvedReadings sensor 0 numSamples) as [| first rest].
  - simpl. split; [| split].
    + split; [intros _; apply Hnil; reflexivity | reflexivity].
    + reflexivity.
    + intros best Hbest. discriminate.
  - simpl. split; [| split].
    + split; [discriminate |].
      intros Hall. apply Hnil in Hall. discriminate.
    + discriminate.
    + intros best Hbest. injection Hbest as <-. simpl.
      destruct (bestOf_least rest first) as [Hmem Hmin].
      split; [| split; [| repeat split]].
      * apply Hin in Hmem. destruct Hmem as [i [pos [Hi [Hs Hr]]]].
        exists i, pos. split; [lia |]. split; [exact Hs |].
        rewrite Hr. reflexivity.
      * intros j pos Hj Hs.
        change (Geo.pos_accuracy pos) with (Geo.accuracy (readingOf pos)).
        apply Hmin. apply Hin. exists j, pos.
        repeat split; [lia | lia | exact Hs].
Qed.

Lemma getBestReading_spec_witness :
  Geo.geolocation nav0 = true /\
  snd (Geo.getBestReading 3 threeFixes nav0 Geo.initialHook)
    = Some (Geo.mkResult (mkCoordinates 2 2) 5).
Proof.
  split; [reflexivity |].
  destruct (getBestReading_spec 3 threeFixes nav0 Geo.initialHook eq_refl)
    as [[Hnone _] [_ Hbest]].
  destruct (snd (Geo.getBestReading 3 threeFixes nav0 Geo.initialHook))
    as [best |].
  - destruct (Hbest best eq_refl) as [[i [pos [Hi [Hs Heq]]]] [Hmin _]].
    pose proof (Hmin 1%nat (Geo.mkPosition 2 2 5 1) ltac:(lia) eq_refl) as H5.
    rewrite Heq in *. simpl in H5.
    destruct i as [| [| [| i]]]; simpl in Hs; try lia;
      injection Hs as <-; simpl in *; try lra.
    reflexivity.
  - destruct (Hnone eq_refl 0%nat ltac:(lia)) as [err Herr]. discriminate.
Defined.

(** ** Reading the saved location *)

Section GetCarLocationFacts.

Import Storage.

Variables (E V : Type).
Variable JSON_parse : string -> Completion E V.

(** C9: [getCarLocation] never throws; it returns null when nothing is
    stored under the key, when the stored text does not parse, and when
    access to the storage throws. *)
Theorem getCarLocation_never_throws (localStorage : LocalStorage E) :
  (exists result, getCarLocation E V JSON_parse localStorage = Normal result) /\
  (getItem localStorage STORAGE_KEY = Normal None ->
   getCarLocation E V JSON_parse localStorage = Normal None) /\
  (forall text e,
     getItem localStorage STORAGE_KEY = Normal (Some text) ->
     JSON_parse text = Throw e ->
     getCarLocation E V JSON_parse localStorage = Normal None) /\
  (forall e,
     getItem localStorage STORAGE_KEY = Throw e ->
     getCarLocation E V JSON_parse localStorage = Normal None) /\
  (forall text parsed,
     getItem localStorage STORAGE_KEY = Normal (Some text) ->
     text <> EmptyString ->
     JSON_parse text = Normal parsed ->
     getCarLocation E V JSON_parse localStorage = Normal (Some parsed)).
Proof.
  unfold getCarLocation.
  destruct (getItem localStorage STORAGE_KEY) as [[text |] | e] eqn:Hget;
    simpl.
  - destruct (String.eqb_spec text EmptyString) as [Hempty | Hfull].
    + split; [eexists; reflexivity |].
      split; [discriminate |]. split; [reflexivity |].
      split; [discriminate |].
      intros text' parsed Heq Hne. injection Heq as <-. contradiction.
    + destruct (JSON_parse text) as [parsed | e] eqn:Hparse; simpl.
      * split; [eexists; reflexivity |].
        split; [discriminate |]. split.
        -- intros text' e Heq Hthrow. injection Heq as <-.
           rewrite Hparse in Hthrow. discriminate.
        -- split; [discriminate |].
           intros text' parsed' Heq _ Hp. injection Heq as <-.
           rewrite Hparse in Hp. injection Hp as <-. reflexivity.
      * split; [eexists; reflexivity |].
        split; [discriminate |]. split; [reflexivity |].
        split; [discriminate |].
        intros text' parsed' Heq _ Hp. injection Heq as <-.
        rewrite Hparse in Hp. discriminate.
  - split; [eexists; reflexivity |]. split; [reflexivity |].
    split; [discriminate |]. split; discriminate.
  - split; [eexists; reflexivity |]. split; [discriminate |].
    split; [discriminate |]. split; [reflexivity | discriminate].
Qed.

End GetCarLocationFacts.

Lemma getCarLocation_never_throws_witness :
  Storage.getCarLocation string string sampleParse (Storage.Items [])
    = Storage.Normal None /\
  Storage.getCarLocation string string sampleParse
    (Storage.Items [(Storage.STORAGE_KEY, "{oops"%string)])
    = Storage.Normal None /\
  Storage.getCarLocation string string sampleParse
    (Storage.Refused "SecurityError"%string)
    = Storage.Normal None /\
  Storage.getCarLocation string string sampleParse
    (Storage.Items [(Storage.STORAGE_KEY, savedText)])
    = Storage.Normal (Some savedText).
Proof.
  split; [| split; [| split]].
  - apply (getCarLocation_never_throws string string sampleParse
             (Storage.Items [])). reflexivity.
  - apply (proj1 (proj2 (proj2
             (getCarLocation_never_throws string string sampleParse
                (Storage.Items [(Storage.STORAGE_KEY, "{oops"%string)]))))
             "{oops"%string "SyntaxError"%string); reflexivity.
  - apply (proj1 (proj2 (proj2 (proj2
             (getCarLocation_never_throws string string sampleParse
                (Storage.Refused "SecurityError"%string)))))
             "SecurityError"%string). reflexivity.
  - apply (proj2 (proj2 (proj2 (proj2
             (getCarLocation_never_throws string string sampleParse
                (Storage.Items [(Storage.STORAGE_KEY, savedText)])))))
             savedText savedText); [reflexivity | discriminate | reflexivity].
Defined.

(** ** The host values used under binary64 *)

Section SeriesOverQ.

Import Binary64.

Lemma INR_fact (n : nat) : INR (fact n) = IZR (Zfact n).
Proof.
  induction n as [| n IH].
  - reflexivity.
  - rewrite fact_simpl, mult_INR, IH.
    change (Zfact (S n)) with (Z.of_nat (S n) * Zfact n)%Z.
    rewrite mult_IZR, <- INR_IZR_INZ. reflexivity.
Qed.

Lemma Zfact_pos (n : nat) : (0 < Zfact n)%Z.
Proof.
  induction n as [| n IH]; [reflexivity |].
  change (0 < Z.of_nat (S n) * Zfact n)%Z. nia.
Qed.

Lemma Q2R_inject_Z (z : Z) : Q2R (inject_Z z) = IZR z.
Proof. unfold Q2R, inject_Z. simpl. field. Qed.

Lemma Q2R_Qpow (a : Q) (k : nat) : Q2R (Qpow a k) = Q2R a ^ k.
Proof.
  induction k as [| k IH]; simpl.
  - apply RMicromega.Q2R_1.
  - rewrite Q2R_mult, IH. reflexivity.
Qed.

Lemma Q2R_minus_one : Q2R (-1) = -1.
Proof. unfold Q2R. simpl. lra. Qed.

Lemma Zfact_not_zero (k : nat) : ~ (inject_Z (Zfact k) == 0)%Q.
Proof.
  intros H. pose proof (Zfact_pos k).
  unfold Qeq in H. cbn [Qnum Qden inject_Z] in H. lia.
Qed.

Lemma Q2R_sin_term (a : Q) (i : nat) :
  Q2R (sin_termQ a i) = sin_term (Q2R a) i.
Proof.
  unfold sin_termQ, sin_term.
  rewrite Q2R_mult, Q2R_Qpow, Q2R_minus_one, Q2R_div
    by apply Zfact_not_zero.
  rewrite Q2R_Qpow, Q2R_inject_Z, INR_fact. reflexivity.
Qed.

Lemma Q2R_cos_term (a : Q) (i : nat) :
  Q2R (cos_termQ a i) = cos_term (Q2R a) i.
Proof.
  unfold cos_termQ, cos_term.
  rewrite Q2R_mult, Q2R_Qpow, Q2R_minus_one, Q2R_div
    by apply Zfact_not_zero.
  rewrite Q2R_Qpow, Q2R_inject_Z, INR_fact. reflexivity.
Qed.

Lemma Q2R_sin_approx (a : Q) (n : nat) :
  Q2R (sumQ (sin_termQ a) n) = sin_approx (Q2R a) n.
Proof.
  unfold sin_approx. induction n as [| n IH]; simpl.
  - apply Q2R_sin_term.
  - rewrite Q2R_plus, IH, Q2R_sin_term. reflexivity.
Qed.

Lemma Q2R_cos_approx (a : Q) (n : nat) :
  Q2R (sumQ (cos_termQ a) n) = cos_approx (Q2R a) n.
Proof.
  unfold cos_approx. induction n as [| n IH]; simpl.
  - apply Q2R_cos_term.
  - rewrite Q2R_plus, IH, Q2R_cos_term. reflexivity.
Qed.

(** A rational enclosure of the series gives one of the function. *)
Lemma sin_enclosed (a lo hi : Q) (n : nat) :
  (0 <= a)%Q -> (a <= 4)%Q ->
  (lo < sumQ (sin_termQ a) (2 * n + 1))%Q ->
  (sumQ (sin_termQ a) (2 * (n + 1)) < hi)%Q ->
  Q2R lo < sin (Q2R a) < Q2R hi.
Proof.
  intros H0 H4 Hlo Hhi.
  apply Qle_Rle in H0, H4. apply Qlt_Rlt in Hlo, Hhi.
  rewrite RMicromega.Q2R_0 in H0.
  replace (Q2R 4) with 4 in H4 by (unfold Q2R; simpl; lra).
  rewrite Q2R_sin_approx in Hlo, Hhi.
  pose proof (pre_sin_bound (Q2R a) n H0 H4). lra.
Qed.

Lemma cos_enclosed (a lo hi : Q) (n : nat) :
  (-2 <= a)%Q -> (a <= 2)%Q ->
  (lo < sumQ (cos_termQ a) (2 * n + 1))%Q ->
  (sumQ (cos_termQ a) (2 * (n + 1)) < hi)%Q ->
  Q2R lo < cos (Q2R a) < Q2R hi.
Proof.
  intros H0 H2 Hlo Hhi.
  apply Qle_Rle in H0, H2. apply Qlt_Rlt in Hlo, Hhi.
  replace (Q2R (-2)) with (-2) in H0 by (unfold Q2R; simpl; lra).
  replace (Q2R 2) with 2 in H2 by (unfold Q2R; simpl; lra).
  rewrite Q2R_cos_approx in Hlo, Hhi.
  pose proof (pre_cos_bound (Q2R a) n H0 H2). lra.
Qed.

(** The tabulated values of [Math_sin] and [Math_cos] are within half a
    unit in the last place of the real sine and cosine of their arguments:
    they are what a correctly rounding host returns. *)
Lemma table_nearest :
  Rabs (sin (toR (- latRad)) - toR (- sinLatRad)) < Q2R halfUlp /\
  Rabs (cos (toR latRad) - toR cosLatRad) < Q2R halfUlp /\
  Rabs (sin (toR halfPi) - toR 1) < Q2R halfUlp.
Proof.
  assert (Hneg : forall f g : float,
            (toQ (- f) == - toQ f)%Q -> toR (- f) = - toR f).
  { intros f g H. unfold toR. rewrite (Qeq_eqR _ _ H), Q2R_opp. reflexivity. }
  assert (Hx : toR (- latRad) = - toR latRad)
    by (apply (Hneg latRad latRad); vm_compute; reflexivity).
  assert (Hs : toR (- sinLatRad) = - toR sinLatRad)
    by (apply (Hneg sinLatRad sinLatRad); vm_compute; reflexivity).
  destruct (sin_enclosed (toQ latRad) (toQ sinLatRad - halfUlp)
              (toQ sinLatRad + halfUlp) 4) as [Hs1 Hs2];
    try (vm_compute; reflexivity);
    try (vm_compute; discriminate).
  destruct (cos_enclosed (toQ latRad) (toQ cosLatRad - halfUlp)
              (toQ cosLatRad + halfUlp) 4) as [Hc1 Hc2];
    try (vm_compute; reflexivity);
    try (vm_compute; discriminate).
  destruct (sin_enclosed (toQ halfPi) (toQ 1 - halfUlp)
              (toQ 1 + halfUlp) 6) as [Hp1 Hp2];
    try (vm_compute; reflexivity);
    try (vm_compute; discriminate).
  rewrite Q2R_minus in Hs1, Hc1, Hp1. rewrite Q2R_plus in Hs2, Hc2, Hp2.
  fold (toR latRad) in *. fold (toR sinLatRad) in *.
  fold (toR cosLatRad) in *. fold (toR halfPi) in *. fold (toR 1) in *.
  rewrite Hx, Hs, sin_neg.
  repeat split; apply Rabs_def1; lra.
Qed.

End SeriesOverQ.

(** ** The square-root arguments of [calculateDistance] *)

(** C1, the claim as stated fails: nothing clamps the value under the
    square roots.  For the antipodal pair (44.9, 0) and (-44.9, 180),
    binary64 rounding makes that value 1 + 2^-52; [1 - a] is then negative,
    its square root is NaN, and so is the distance. *)
Lemma calculateDistance_antipodal_nan :
  Binary64.wellFormed Binary64.north = true /\
  Binary64.wellFormed Binary64.south = true /\
  Binary64.haversineA Binary64.north Binary64.south
    = Some 0x1.0000000000001p+0%float /\
  PrimFloat.ltb (1 - 0x1.0000000000001p+0) 0 = true /\
  PrimFloat.is_nan (Binary64.Math_sqrt (1 - 0x1.0000000000001p+0)) = true /\
  Binary64.calculateDistance Binary64.north Binary64.south
    = Some PrimFloat.nan.
Proof.
  repeat split; vm_compute; reflexivity.
Qed.

(** C1 (amended): [calculateDistance] takes the square roots of [a] and of
    [1 - a] as they are, without a clamp.  In exact arithmetic [a] lies in
    [0, 1] for every pair of coordinates, so both roots are defined and the
    result is a non-negative finite number of metres, at most half the
    circumference [PI * 6371000], and 0 for identical points. *)
Theorem calculateDistance_exact (point1 point2 : Coordinates) :
  0 <= haversineA point1 point2 <= 1 /\
  0 <= 1 - haversineA point1 point2 <= 1 /\
  0 <= calculateDistance point1 point2 <= EARTH_RADIUS_METERS * PI /\
  calculateDistance point1 point1 = 0.
Proof.
  pose proof (haversineA_bounds point1 point2) as Ha.
  split; [exact Ha |]. split; [lra |].
  split; [apply calculateDistance_bounds | apply calculateDistance_same].
Qed.

(** ** The movement gate on a distance that is not a number *)

Lemma calculateDistance_antipodes (lat : R) :
  calculateDistance (mkCoordinates lat 0) (mkCoordinates (- lat) 180)
  = EARTH_RADIUS_METERS * PI.
Proof.
  unfold calculateDistance, haversineA. cbv zeta. simpl.
  replace (toRadians (- lat - lat) / 2) with (- toRadians lat)
    by (unfold toRadians; field).
  replace (toRadians (- lat)) with (- toRadians lat)
    by (unfold toRadians; field).
  replace (toRadians (180 - 0) / 2) with (PI / 2)
    by (unfold toRadians; field).
  rewrite sin_neg, cos_neg, sin_PI2.
  replace (- sin (toRadians lat) * - sin (toRadians lat)
           + cos (toRadians lat) * cos (toRadians lat) * 1 * 1) with 1.
  2:{ pose proof (sin2_cos2 (toRadians lat)) as H. unfold Rsqr in H. lra. }
  replace (1 - 1) with 0 by ring.
  rewrite sqrt_0, sqrt_1.
  unfold Math_atan2.
  destruct (Rlt_dec 0 0); [lra |].
  destruct (Rlt_dec 0 1); [| lra].
  field.
Qed.

Lemma realCoordinates_antipodes :
  realCoordinates Binary64.north
  = mkCoordinates (Binary64.toR 0x1.6733333333333p+5) 0 /\
  realCoordinates Binary64.south
  = mkCoordinates (- Binary64.toR 0x1.6733333333333p+5) 180.
Proof.
  assert (H0 : Binary64.toR 0 = 0)
    by (unfold Binary64.toR, Binary64.toQ; simpl; apply RMicromega.Q2R_0).
  assert (H180 : Binary64.toR 180 = 180).
  { unfold Binary64.toR.
    assert (Hq : (Binary64.toQ 180 == inject_Z 180)%Q)
      by (vm_compute; reflexivity).
    rewrite (Qeq_eqR _ _ Hq). apply Q2R_inject_Z. }
  assert (Hneg : Binary64.toR (-0x1.6733333333333p+5)
                 = - Binary64.toR 0x1.6733333333333p+5).
  { unfold Binary64.toR.
    assert (Hq : (Binary64.toQ (-0x1.6733333333333p+5)
                  == - Binary64.toQ 0x1.6733333333333p+5)%Q)
      by (vm_compute; reflexivity).
    rewrite (Qeq_eqR _ _ Hq). apply Q2R_opp. }
  unfold realCoordinates, Binary64.north, Binary64.south.
  cbn [Binary64.latitude Binary64.longitude].
  rewrite H0, H180, Hneg. split; reflexivity.
Qed.

(** C4, the claim as stated fails on binary64 numbers: a smoothed
    position far beyond the threshold does not replace the reported one
    when the computed distance is NaN, because [NaN > threshold] is
    false.  After a fix of accuracy 2^60 at (44.9, 0) the reported
    position is (44.9, 0); a fix of accuracy 1 at (-44.9, 180) then makes
    the smoothed position (-44.9, 180), half the globe away and far
    beyond the threshold of 0.5 m, the distance computed to it is NaN,
    and the reported position stays (44.9, 0). *)
Lemma handleSuccess_nan_keeps_position :
  let h1 := Binary64.handleSuccess coarseNorth Binary64.initialHook in
  let h2 := match h1 with
            | Some h => Binary64.handleSuccess preciseSouth h
            | None => None
            end in
  option_map Binary64.lastReportedPositionRef h1
  = Some (Some Binary64.north) /\
  Binary64.calculateSmoothedPosition
    [readingOf64 coarseNorth; readingOf64 preciseSouth]
  = Some (Binary64.mkResult Binary64.south 1%float) /\
  Binary64.calculateDistance Binary64.north Binary64.south
  = Some PrimFloat.nan /\
  PrimFloat.ltb (1 * Binary64.MOVEMENT_THRESHOLD_FACTOR)%float PrimFloat.nan
  = false /\
  calculateDistance (realCoordinates Binary64.north)
                    (realCoordinates Binary64.south)
  = EARTH_RADIUS_METERS * PI /\
  EARTH_RADIUS_METERS * PI > 1 * Geo.MOVEMENT_THRESHOLD_FACTOR /\
  option_map Binary64.position h2 = Some (Some Binary64.north) /\
  option_map Binary64.lastReportedPositionRef h2
  = Some (Some Binary64.north).
Proof.
  intros h1 h2.
  split; [vm_compute; reflexivity |].
  split; [vm_compute; reflexivity |].
  split; [vm_compute; reflexivity |].
  split; [vm_compute; reflexivity |].
  split.
  { destruct realCoordinates_antipodes as [-> ->].
    apply calculateDistance_antipodes. }
  split.
  { unfold EARTH_RADIUS_METERS, Geo.MOVEMENT_THRESHOLD_FACTOR.
    pose proof PI_above_2. nra. }
  split; vm_compute; reflexivity.
Qed.

(** * Further properties of the code *)

(** ** Distances and bearings along the grid *)

Lemma haversineA_sym (point1 point2 : Coordinates) :
  haversineA point1 point2 = haversineA point2 point1.
Proof.
  unfold haversineA. cbv zeta.
  replace (toRadians (latitude point1 - latitude point2) / 2)
    with (- (toRadians (latitude point2 - latitude point1) / 2))
    by (unfold toRadians; field).
  replace (toRadians (longitude point1 - longitude point2) / 2)
    with (- (toRadians (longitude point2 - longitude point1) / 2))
    by (unfold toRadians; field).
  rewrite !sin_neg. ring.
Qed.

(** X1: the distance does not depend on the order of the two points. *)
Theorem calculateDistance_symmetric (point1 point2 : Coordinates) :
  calculateDistance point1 point2 = calculateDistance point2 point1.
Proof.
  unfold calculateDistance. cbv zeta.
  rewrite (haversineA_sym point1 point2). reflexivity.
Qed.

(** The angle [2 * atan2(sin d, cos d)] is [2 d] for [d] in [0, PI / 2]. *)
Lemma Math_atan2_sin_cos (d : R) :
  0 <= d <= PI / 2 -> Math_atan2 (sin d) (cos d) = d.
Proof.
  intros [Hlo Hhi]. pose proof PI_RGT_0 as Hpi.
  unfold Math_atan2.
  destruct (Rlt_dec 0 (cos d)) as [Hc | Hc].
  - assert (Hd : d < PI / 2).
    { destruct Hhi as [Hlt | Heq]; [exact Hlt |].
      rewrite Heq, cos_PI2 in Hc. lra. }
    change (sin d / cos d) with (tan d). apply atan_tan. lra.
  - assert (Hd : d = PI / 2).
    { destruct Hhi as [Hlt | Heq]; [| exact Heq].
      exfalso. apply Hc. apply cos_gt_0; lra. }
    rewrite Hd, cos_PI2, sin_PI2.
    destruct (Rlt_dec 0 0); [lra |].
    destruct (Rlt_dec 0 1); [reflexivity | lra].
Qed.

Lemma calculateDistance_northward (lat1 lat2 lng : R) :
  0 <= lat2 - lat1 <= 180 ->
  calculateDistance (mkCoordinates lat1 lng) (mkCoordinates lat2 lng)
  = EARTH_RADIUS_METERS * toRadians (lat2 - lat1).
Proof.
  intros H. pose proof PI_RGT_0 as Hpi.
  unfold calculateDistance, haversineA. cbv zeta. simpl.
  replace (toRadians (lng - lng) / 2) with 0 by (unfold toRadians; field).
  rewrite sin_0.
  set (d := toRadians (lat2 - lat1) / 2).
  assert (Hd : 0 <= d <= PI / 2).
  { unfold d, toRadians. split; nra. }
  replace (sin d * sin d + cos (toRadians lat1) * cos (toRadians lat2) * 0 * 0)
    with (sin d * sin d) by ring.
  replace (1 - sin d * sin d) with (cos d * cos d).
  2:{ pose proof (sin2_cos2 d) as Hsc. unfold Rsqr in Hsc. lra. }
  rewrite sqrt_square by (apply sin_ge_0; lra).
  rewrite sqrt_square by (apply cos_ge_0; lra).
  rewrite Math_atan2_sin_cos by exact Hd.
  unfold d. field.
Qed.

(** X2: between two points of the same longitude whose latitudes differ by
    at most 180 degrees, the distance is the earth radius times the
    difference of latitude in radians. *)
Theorem calculateDistance_meridian (lat1 lat2 lng : R) :
  Rabs (lat2 - lat1) <= 180 ->
  calculateDistance (mkCoordinates lat1 lng) (mkCoordinates lat2 lng)
  = EARTH_RADIUS_METERS * toRadians (Rabs (lat2 - lat1)).
Proof.
  intros H. destruct (Rle_dec lat1 lat2) as [Hle | Hgt].
  - rewrite Rabs_pos_eq in * by lra.
    apply calculateDistance_northward. lra.
  - rewrite Rabs_left in * by lra.
    assert (Hswap :
      calculateDistance (mkCoordinates lat1 lng) (mkCoordinates lat2 lng)
      = calculateDistance (mkCoordinates lat2 lng) (mkCoordinates lat1 lng)).
    { unfold calculateDistance. cbv zeta.
      rewrite haversineA_sym. reflexivity. }
    rewrite Hswap.
    replace (- (lat2 - lat1)) with (lat1 - lat2) by ring.
    apply calculateDistance_northward. lra.
Qed.

Lemma calculateDistance_meridian_witness :
  Rabs (40 + 9 / 10000 - 40) <= 180 /\
  calculateDistance (mkCoordinates 40 (-75))
                    (mkCoordinates (40 + 9 / 10000) (-75))
  = EARTH_RADIUS_METERS * toRadians (9 / 10000).
Proof.
  assert (Hb : Rabs (40 + 9 / 10000 - 40) <= 180)
    by (rewrite Rabs_pos_eq; lra).
  split; [exact Hb |].
  rewrite (calculateDistance_meridian 40 (40 + 9 / 10000) (-75) Hb).
  rewrite Rabs_pos_eq by lra. f_equal. f_equal. lra.
Defined.

Lemma toDegrees_PI : toDegrees PI = 180.
Proof. unfold toDegrees. field. apply PI_neq0. Qed.

Lemma toDegrees_half_PI : toDegrees (PI / 2) = 90.
Proof. unfold toDegrees. field. apply PI_neq0. Qed.

Lemma toDegrees_0 : toDegrees 0 = 0.
Proof. unfold toDegrees. ring. Qed.

Lemma toRadians_bounds (x : R) :
  0 < x < 180 -> 0 < toRadians x < PI.
Proof.
  intros H. pose proof PI_RGT_0 as Hpi. unfold toRadians. split; nra.
Qed.

(** On binary64 numbers the conversion to radians can merge two
    latitudes: 60 and the number just below it have the same radians, so
    the bearing between them is computed as between identical points. *)
Lemma toRadians_merges_latitudes :
  PrimFloat.ltb (PrimFloat.next_down 60) 60 = true /\
  PrimFloat.eqb (Binary64.toRadians (PrimFloat.next_down 60))
                (Binary64.toRadians 60) = true.
Proof.
  split; vm_compute; reflexivity.
Qed.

(** X3: with numbers read as exact reals, the bearing to a point due
    north (same longitude, higher latitude) is 0 and to a point due south
    is 180; along the equator the bearing to a point to the east is 90 and
    to a point to the west is 270.  (Not so on binary64 numbers for
    latitudes that [toRadians] merges, see
    [toRadians_merges_latitudes].) *)
Theorem calculateBearing_grid (lat1 lat2 lng1 lng2 : R) :
  (0 < lat2 - lat1 < 180 ->
   calculateBearing (mkCoordinates lat1 lng1) (mkCoordinates lat2 lng1) = 0) /\
  (0 < lat1 - lat2 < 180 ->
   calculateBearing (mkCoordinates lat1 lng1) (mkCoordinates lat2 lng1) = 180) /\
  (0 < lng2 - lng1 < 180 ->
   calculateBearing (mkCoordinates 0 lng1) (mkCoordinates 0 lng2) = 90) /\
  (0 < lng1 - lng2 < 180 ->
   calculateBearing (mkCoordinates 0 lng1) (mkCoordinates 0 lng2) = 270).
Proof.
  pose proof PI_RGT_0 as Hpi.
  assert (Hmeridian :
    calculateBearing (mkCoordinates lat1 lng1) (mkCoordinates lat2 lng1)
    = JS.rem (toDegrees (Math_atan2 0 (sin (toRadians (lat2 - lat1)))) + 360)
             360).
  { unfold calculateBearing. cbv zeta. simpl.
    replace (toRadians (lng1 - lng1)) with 0 by (unfold toRadians; ring).
    rewrite sin_0, cos_0, toRadians_minus, sin_minus.
    do 4 f_equal; ring. }
  assert (Hequator :
    calculateBearing (mkCoordinates 0 lng1) (mkCoordinates 0 lng2)
    = JS.rem (toDegrees (Math_atan2 (sin (toRadians (lng2 - lng1))) 0) + 360)
             360).
  { unfold calculateBearing. cbv zeta. simpl.
    replace (toRadians 0) with 0 by (unfold toRadians; ring).
    rewrite sin_0, cos_0. do 4 f_equal; ring. }
  split; [| split; [| split]]; intros H.
  - rewrite Hmeridian.
    pose proof (toRadians_bounds _ H) as [Hlo Hhi].
    pose proof (sin_gt_0 _ Hlo Hhi) as Hs.
    unfold Math_atan2. destruct (Rlt_dec 0 _) as [_ | Hn]; [| contradiction].
    replace (0 / sin (toRadians (lat2 - lat1))) with 0 by (field; lra).
    rewrite atan_0, toDegrees_0.
    rewrite (rem360_unique (0 + 360) 1); lra.
  - rewrite Hmeridian.
    pose proof (toRadians_bounds _ H) as [Hlo Hhi].
    pose proof (sin_gt_0 _ Hlo Hhi) as Hs.
    replace (toRadians (lat2 - lat1)) with (- toRadians (lat1 - lat2))
      by (unfold toRadians; ring).
    rewrite sin_neg.
    set (y := sin (toRadians (lat1 - lat2))) in *.
    unfold Math_atan2.
    destruct (Rlt_dec 0 (- y)); [lra |].
    destruct (Rlt_dec (- y) 0); [| lra].
    destruct (Rle_dec 0 0); [| lra].
    replace (0 / - y) with 0 by (field; lra).
    rewrite atan_0, Rplus_0_l, toDegrees_PI.
    rewrite (rem360_unique (180 + 360) 1); lra.
  - rewrite Hequator.
    pose proof (toRadians_bounds _ H) as [Hlo Hhi].
    pose proof (sin_gt_0 _ Hlo Hhi) as Hs.
    unfold Math_atan2.
    destruct (Rlt_dec 0 0); [lra |].
    destruct (Rlt_dec 0 (sin (toRadians (lng2 - lng1)))); [| lra].
    rewrite toDegrees_half_PI.
    rewrite (rem360_unique (90 + 360) 1); lra.
  - rewrite Hequator.
    pose proof (toRadians_bounds _ H) as [Hlo Hhi].
    pose proof (sin_gt_0 _ Hlo Hhi) as Hs.
    replace (toRadians (lng2 - lng1)) with (- toRadians (lng1 - lng2))
      by (unfold toRadians; ring).
    rewrite sin_neg.
    set (x := sin (toRadians (lng1 - lng2))) in *.
    unfold Math_atan2.
    destruct (Rlt_dec 0 0); [lra |].
    destruct (Rlt_dec 0 (- x)); [lra |].
    destruct (Rlt_dec (- x) 0); [| lra].
    replace (toDegrees (- (PI / 2))) with (-90)
      by (unfold toDegrees; field; apply PI_neq0).
    rewrite (rem360_unique (-90 + 360) 0); lra.
Qed.

Lemma calculateBearing_grid_witness :
  calculateBearing (mkCoordinates 40 (-75)) (mkCoordinates 41 (-75)) = 0 /\
  calculateBearing (mkCoordinates 41 (-75)) (mkCoordinates 40 (-75)) = 180 /\
  calculateBearing (mkCoordinates 0 10) (mkCoordinates 0 20) = 90 /\
  calculateBearing (mkCoordinates 0 20) (mkCoordinates 0 10) = 270.
Proof.
  split; [| split; [| split]].
  - apply (calculateBearing_grid 40 41 (-75) 0). lra.
  - apply (calculateBearing_grid 41 40 (-75) 0). lra.
  - apply (calculateBearing_grid 0 0 10 20). lra.
  - apply (calculateBearing_grid 0 0 20 10). lra.
Defined.

(** ** The arrow's angle and the compass label *)

(** X4: with numbers read as exact reals,
    [calculateRelativeHeading bearing heading] is [bearing - heading]
    brought into [0, 360): with a heading of 0 it is the normalized
    bearing, it is 0 when the device faces the car, whole turns added to
    either argument do not change it, and for a bearing and a heading in
    [0, 360) it is [bearing - heading], plus 360 when that is negative. *)
Theorem calculateRelativeHeading_spec (bearing deviceHeading : R) :
  calculateRelativeHeading bearing 0 = normalizeHeading bearing /\
  calculateRelativeHeading bearing bearing = 0 /\
  (forall j k : Z,
     calculateRelativeHeading (bearing + 360 * IZR j)
                              (deviceHeading + 360 * IZR k)
     = calculateRelativeHeading bearing deviceHeading) /\
  (0 <= bearing < 360 -> 0 <= deviceHeading < 360 ->
   calculateRelativeHeading bearing deviceHeading
   = if Rle_dec deviceHeading bearing then bearing - deviceHeading
     else bearing - deviceHeading + 360).
Proof.
  unfold calculateRelativeHeading. cbv zeta.
  split; [| split; [| split]].
  - rewrite Rminus_0_r. reflexivity.
  - replace (bearing - bearing) with 0 by ring.
    apply normalizeHeading_fixes_range. lra.
  - intros j k.
    replace (bearing + 360 * IZR j - (deviceHeading + 360 * IZR k))
      with (bearing - deviceHeading + 360 * IZR (j - k))
      by (rewrite minus_IZR; ring).
    apply normalizeHeading_periodic.
  - intros Hb Hh. destruct (Rle_dec deviceHeading bearing) as [Hle | Hgt].
    + apply normalizeHeading_fixes_range. lra.
    + rewrite <- (normalizeHeading_periodic (bearing - deviceHeading) 1).
      replace (bearing - deviceHeading + 360)
        with (bearing - deviceHeading + 360 * IZR 1) by (simpl; lra).
      apply normalizeHeading_fixes_range. simpl. lra.
Qed.

Lemma calculateRelativeHeading_spec_witness :
  0 <= 90 < 360 /\ 0 <= 350 < 360 /\
  calculateRelativeHeading 90 350 = 100.
Proof.
  assert (Hb : 0 <= 90 < 360) by lra.
  assert (Hh : 0 <= 350 < 360) by lra.
  split; [exact Hb |]. split; [exact Hh |].
  destruct (calculateRelativeHeading_spec 90 350) as [_ [_ [_ H]]].
  rewrite (H Hb Hh).
  destruct (Rle_dec 350 90); lra.
Defined.



(** X6: on a bearing in [-337.5, -22.5) the index [round(bearing / 45) % 8]
    is negative and [getCardinalDirection] returns undefined; once past
    -22.5 the label is "N". *)
Theorem getCardinalDirection_negative (bearing : R) :
  (- 3375 / 10 <= bearing < - 225 / 10 ->
   (cardinalIndex bearing < 0)%Z /\ getCardinalDirection bearing = None) /\
  (- 225 / 10 <= bearing < 0 ->
   getCardinalDirection bearing = Some "N"%string).
Proof.
  split; intros H.
  - pose proof (Math_round_bounds (bearing / 45)) as Hb.
    unfold getCardinalDirection, cardinalIndex.
    set (k := JS.Math_round (bearing / 45)) in *.
    assert (H1 : IZR (-8) < IZR k) by (simpl; lra).
    assert (H2 : IZR k < IZR 0) by (simpl; lra).
    apply lt_IZR in H1. apply lt_IZR in H2.
    assert (Hk : (k = -7 \/ k = -6 \/ k = -5 \/ k = -4 \/ k = -3 \/ k = -2
                  \/ k = -1)%Z) by lia.
    destruct Hk as [-> | [-> | [-> | [-> | [-> | [-> | ->]]]]]];
      split; reflexivity.
  - unfold getCardinalDirection.
    rewrite (cardinalIndex_sector bearing 0) by (simpl; lra).
    reflexivity.
Qed.

Lemma getCardinalDirection_negative_witness :
  - 3375 / 10 <= -45 < - 225 / 10 /\
  getCardinalDirection (-45) = None /\
  - 225 / 10 <= -10 < 0 /\
  getCardinalDirection (-10) = Some "N"%string.
Proof.
  assert (H1 : - 3375 / 10 <= -45 < - 225 / 10) by lra.
  assert (H2 : - 225 / 10 <= -10 < 0) by lra.
  split; [exact H1 |].
  split; [exact (proj2 (proj1 (getCardinalDirection_negative (-45)) H1)) |].
  split; [exact H2 |].
  exact (proj2 (getCardinalDirection_negative (-10)) H2).
Defined.

(** X7: for a distance that is not negative, the number [formatDistance]
    displays in feet lies between 0 and 1000 (1000 itself for 999.5 ft and
    more), and the number it displays in metres is a multiple of 10 that
    is at least 300. *)
Theorem formatDistance_display (toLocaleString : Z -> string) (meters : R) :
  0 <= meters ->
  exists n : Z,
    (formatDistance toLocaleString meters
       = {| value := toLocaleString n; unit := "ft" |} /\
     meters * FEET_PER_METER < 1000 /\ (0 <= n <= 1000)%Z /\
     (9995 / 10 <= meters * FEET_PER_METER -> n = 1000%Z)) \/
    (formatDistance toLocaleString meters
       = {| value := toLocaleString n; unit := "m" |} /\
     1000 <= meters * FEET_PER_METER /\ (n mod 10 = 0)%Z /\ (300 <= n)%Z).
Proof.
  intros Hpos.
  destruct (Rlt_dec (meters * FEET_PER_METER) 1000) as [Hft | Hm].
  - exists (JS.Math_round (meters * FEET_PER_METER)). left.
    split; [apply formatDistance_feet; exact Hft |].
    split; [exact Hft |].
    pose proof (Math_round_bounds (meters * FEET_PER_METER)) as Hb.
    set (n := JS.Math_round (meters * FEET_PER_METER)) in *.
    assert (Hfeet : 0 <= meters * FEET_PER_METER)
      by (unfold FEET_PER_METER; nra).
    assert (H1 : IZR (-1) < IZR n) by (simpl; lra).
    assert (H2 : IZR n < IZR 1001) by (simpl; lra).
    apply lt_IZR in H1. apply lt_IZR in H2.
    split; [lia |]. intros Hhigh.
    assert (H3 : IZR 999 < IZR n) by (simpl; lra).
    apply lt_IZR in H3. lia.
  - exists (JS.Math_round (meters / 10) * 10)%Z. right.
    split; [apply formatDistance_meters; lra |].
    split; [lra |].
    split; [apply Z.mod_mul; lia |].
    pose proof (Math_round_bounds (meters / 10)) as Hb.
    set (q := JS.Math_round (meters / 10)) in *.
    assert (Hm' : 304 < meters) by (unfold FEET_PER_METER in Hm; lra).
    assert (H1 : IZR 29 < IZR q) by (simpl; lra).
    apply lt_IZR in H1. lia.
Qed.

Lemma formatDistance_display_witness :
  0 <= 3047 / 10 /\
  formatDistance toLocaleString_enUS (3047 / 10)
    = {| value := "1,000"; unit := "ft" |}.
Proof.
  assert (Hpos : 0 <= 3047 / 10) by lra.
  split; [exact Hpos |].
  destruct (formatDistance_display toLocaleString_enUS (3047 / 10) Hpos)
    as [n [[Heq [_ [_ Hn]]] | [_ [Hge _]]]].
  - rewrite Heq, Hn; [reflexivity | unfold FEET_PER_METER; lra].
  - unfold FEET_PER_METER in Hge. lra.
Defined.

(** ** The smoothing buffer over time *)

Lemma fold_addReading_least (buffer : list Geo.PositionReading)
  (s : Geo.Sums) (b : R) :
  Geo.bestAccuracy s = Some b ->
  exists m,
    Geo.bestAccuracy (fold_left Geo.addReading buffer s) = Some m /\
    m <= b /\
    (forall r, In r buffer -> m <= Geo.accuracy r) /\
    (m = b \/ exists r, In r buffer /\ m = Geo.accuracy r).
Proof.
  revert s b. induction buffer as [| r rest IH]; intros s b Hb; simpl.
  - exists b. split; [exact Hb |]. split; [lra |].
    split; [intros r [] | left; reflexivity].
  - destruct (IH (Geo.addReading s r) (Rmin b (Geo.accuracy r)))
      as [m [Hm [Hle [Hall Hex]]]].
    { unfold Geo.addReading; simpl. rewrite Hb. reflexivity. }
    exists m. split; [exact Hm |].
    pose proof (Rmin_l b (Geo.accuracy r)) as Hl.
    pose proof (Rmin_r b (Geo.accuracy r)) as Hr.
    split; [lra |]. split.
    + intros x [<- | Hx]; [lra | apply Hall; exact Hx].
    + destruct Hex as [Heq | [x [Hx Heq]]].
      * assert (Hc : Rmin b (Geo.accuracy r) = b
                     \/ Rmin b (Geo.accuracy r) = Geo.accuracy r).
        { unfold Rmin. destruct (Rle_dec b (Geo.accuracy r)); auto. }
        destruct Hc as [Hc | Hc].
        -- left. lra.
        -- right. exists r. split; [left; reflexivity | lra].
      * right. exists x. split; [right; exact Hx | exact Heq].
Qed.

(** X8: the accuracy that [calculateSmoothedPosition] reports for a
    non-empty buffer is the best of the buffered accuracies: it is the
    accuracy of one of the readings and no reading has a smaller one. *)
Theorem calculateSmoothedPosition_accuracy
  (r : Geo.PositionReading) (rest : list Geo.PositionReading) :
  exists smoothed,
    Geo.calculateSmoothedPosition (r :: rest) = Some smoothed /\
    In (Geo.result_accuracy smoothed) (accuracies (r :: rest)) /\
    forall x, In x (r :: rest) ->
      Geo.result_accuracy smoothed <= Geo.accuracy x.
Proof.
  destruct (fold_addReading_least rest (Geo.addReading Geo.zeroSums r)
              (Geo.accuracy r) eq_refl) as [m [Hm [Hle [Hall Hex]]]].
  unfold Geo.calculateSmoothedPosition.
  change (fold_left Geo.addReading (r :: rest) Geo.zeroSums)
    with (fold_left Geo.addReading rest (Geo.addReading Geo.zeroSums r)).
  rewrite Hm. eexists. split; [reflexivity |].
  cbn [Geo.result_accuracy]. split.
  - unfold accuracies. destruct Hex as [-> | [x [Hx ->]]].
    + left. reflexivity.
    + right. apply in_map. exact Hx.
  - intros x [<- | Hx]; [exact Hle | apply Hall; exact Hx].
Qed.

(** X9: with numbers read as exact reals, when all buffered readings
    carry the same coordinates, with positive accuracies, smoothing
    returns those coordinates.  (On binary64 numbers the rounded quotient
    can differ from them in the last places, see
    [calculateSmoothedPosition_leaves_box].) *)
Theorem calculateSmoothedPosition_constant (p : Coordinates)
  (r : Geo.PositionReading) (rest : list Geo.PositionReading) :
  Forall (fun x => Geo.coords x = p /\ 0 < Geo.accuracy x) (r :: rest) ->
  exists smoothed,
    Geo.calculateSmoothedPosition (r :: rest) = Some smoothed /\
    Geo.result_coords smoothed = p.
Proof.
  intros Hall.
  destruct (calculateSmoothedPosition_bounded
              (latitude p) (latitude p) (longitude p) (longitude p)
              (r :: rest)) as [smoothed [Hs [Hlat Hlng]]].
  - discriminate.
  - eapply Forall_impl; [| exact Hall].
    intros x [Hx Hacc]. unfold readingWithin. rewrite Hx. lra.
  - exists smoothed. split; [exact Hs |].
    destruct (Geo.result_coords smoothed) as [lat lng], p as [plat plng].
    simpl in *. f_equal; lra.
Qed.

Lemma calculateSmoothedPosition_constant_witness :
  let r1 := Geo.mkReading (mkCoordinates 40 (-75)) 12 0 in
  let r2 := Geo.mkReading (mkCoordinates 40 (-75)) 3 1 in
  Forall (fun x => Geo.coords x = mkCoordinates 40 (-75) /\ 0 < Geo.accuracy x)
         [r1; r2] /\
  exists smoothed,
    Geo.calculateSmoothedPosition [r1; r2] = Some smoothed /\
    Geo.result_coords smoothed = mkCoordinates 40 (-75).
Proof.
  intros r1 r2.
  assert (Hall : Forall (fun x => Geo.coords x = mkCoordinates 40 (-75)
                                  /\ 0 < Geo.accuracy x) [r1; r2])
    by (repeat constructor; simpl; lra).
  split; [exact Hall |].
  exact (calculateSmoothedPosition_constant (mkCoordinates 40 (-75))
           r1 [r2] Hall).
Defined.

Lemma pushReading_lastN (buffer : list Geo.PositionReading)
  (r : Geo.PositionReading) :
  (List.length buffer <= 5)%nat ->
  Geo.pushReading buffer r = lastN 5 (buffer ++ [r]).
Proof.
  intros Hlen. unfold Geo.pushReading, Geo.POSITION_BUFFER_SIZE, lastN.
  assert (Hl : List.length (buffer ++ [r]) = S (List.length buffer))
    by (rewrite length_app; simpl; lia).
  destruct (Nat.ltb_spec 5 (List.length (buffer ++ [r]))) as [Hgt | Hle].
  - replace (List.length (buffer ++ [r]) - 5)%nat with 1%nat by lia.
    destruct (buffer ++ [r]); reflexivity.
  - replace (List.length (buffer ++ [r]) - 5)%nat with 0%nat by lia.
    reflexivity.
Qed.

Lemma lastN_length {A : Type} (n : nat) (l : list A) :
  (List.length (lastN n l) <= n)%nat.
Proof. unfold lastN. rewrite length_skipn. lia. Qed.

Lemma lastN_app {A : Type} (n : nat) (l l' : list A) :
  lastN n (lastN n l ++ l') = lastN n (l ++ l').
Proof.
  unfold lastN.
  rewrite length_app, length_skipn, length_app.
  set (k := (List.length l - n)%nat).
  assert (Hk : (k <= List.length l)%nat) by (unfold k; lia).
  replace (skipn k l ++ l') with (skipn k (l ++ l')).
  2:{ rewrite skipn_app.
      replace (k - List.length l)%nat with 0%nat by lia. reflexivity. }
  rewrite skipn_skipn. f_equal. unfold k. lia.
Qed.

Lemma fold_pushReading_lastN (readings buffer : list Geo.PositionReading) :
  (List.length buffer <= 5)%nat ->
  fold_left Geo.pushReading readings buffer = lastN 5 (buffer ++ readings).
Proof.
  revert buffer. induction readings as [| r rest IH]; intros buffer Hlen.
  - simpl. rewrite app_nil_r. unfold lastN.
    replace (List.length buffer - 5)%nat with 0%nat by lia. reflexivity.
  - simpl. rewrite IH by (apply pushReading_length; exact Hlen).
    rewrite pushReading_lastN by exact Hlen.
    rewrite lastN_app, <- app_assoc. reflexivity.
Qed.

(** X10: the buffer is a sliding window: after any sequence of fixes it
    holds the last five of the readings it held before followed by the new
    ones, in order of arrival, and so never more than five. *)
Theorem buffer_is_window (fixes : list Geo.GeolocationPosition)
  (h : Geo.Hook) :
  (List.length (Geo.positionBufferRef h) <= 5)%nat ->
  Geo.positionBufferRef (deliver fixes h)
    = lastN 5 (Geo.positionBufferRef h ++ map readingOf fixes) /\
  (List.length (Geo.positionBufferRef (deliver fixes h)) <= 5)%nat.
Proof.
  intros Hlen.
  assert (Heq : Geo.positionBufferRef (deliver fixes h)
                = lastN 5 (Geo.positionBufferRef h ++ map readingOf fixes)).
  { rewrite deliver_buffer. apply fold_pushReading_lastN. exact Hlen. }
  split; [exact Heq |]. rewrite Heq. apply lastN_length.
Qed.

Lemma buffer_is_window_witness :
  (List.length (Geo.positionBufferRef Geo.initialHook) <= 5)%nat /\
  Geo.positionBufferRef
    (deliver [fixA; fixB; fixA; fixB; fixA; fixB; fixA] Geo.initialHook)
  = map readingOf [fixA; fixB; fixA; fixB; fixA].
Proof.
  assert (Hlen : (List.length (Geo.positionBufferRef Geo.initialHook) <= 5)%nat)
    by (simpl; lia).
  split; [exact Hlen |].
  rewrite (proj1 (buffer_is_window
                    [fixA; fixB; fixA; fixB; fixA; fixB; fixA]
                    Geo.initialHook Hlen)).
  reflexivity.
Defined.

(** ** Sequences of tracking events *)

Lemma handleSuccess_frame (pos : Geo.GeolocationPosition) (h : Geo.Hook) :
  Geo.watchIdRef (Geo.handleSuccess pos h) = Geo.watchIdRef h /\
  Geo.isTracking (Geo.handleSuccess pos h) = Geo.isTracking h.
Proof.
  unfold Geo.handleSuccess. cbv zeta.
  destruct (Geo.calculateSmoothedPosition _); [| split; reflexivity].
  match goal with |- context [if ?c then _ else _] => destruct c end;
    split; reflexivity.
Qed.

Lemma step_ownsWatches (s : Geo.Hook * Geo.Navigator)
  (event : Geo.TrackingEvent) :
  ownsWatches s -> ownsWatches (Geo.step s event).
Proof.
  destruct s as [h nav]. unfold ownsWatches. simpl.
  intros [Hw Ht]. destruct event as [| | pos | err]; simpl.
  - destruct (Geo.geolocation nav); simpl; [| split; assumption].
    destruct (Geo.watchIdRef h) as [id |]; simpl.
    + rewrite Hw. simpl. rewrite Nat.eqb_refl. split; reflexivity.
    + rewrite Hw. split; reflexivity.
  - destruct (Geo.watchIdRef h) as [id |]; simpl.
    + rewrite Hw. simpl. rewrite Nat.eqb_refl. split; reflexivity.
    + split; [exact Hw | reflexivity].
  - destruct (handleSuccess_frame pos h) as [Hid Htr].
    rewrite Hid, Htr. split; assumption.
  - split; assumption.
Qed.

(** X11: however [startTracking], [stopTracking] and the watch callbacks
    follow one another, the hook keeps at most one watch registered, the
    one [watchIdRef] names, and reports that it is tracking exactly while
    it holds one: calling [startTracking] again never leaves a second
    watch behind, and after [stopTracking] none is left. *)
Theorem single_watch (events : list Geo.TrackingEvent)
  (nav : Geo.Navigator) :
  Geo.watches nav = [] ->
  ownsWatches (Geo.run events (Geo.initialHook, nav)) /\
  (List.length (Geo.watches (snd (Geo.run events (Geo.initialHook, nav))))
     <= 1)%nat /\
  Geo.watches (snd (Geo.stopTracking
                      (Geo.run events (Geo.initialHook, nav)))) = [].
Proof.
  intros Hnav.
  assert (Hown : ownsWatches (Geo.run events (Geo.initialHook, nav))).
  { unfold Geo.run.
    assert (H0 : ownsWatches (Geo.initialHook, nav))
      by (unfold ownsWatches; simpl; rewrite Hnav; split; reflexivity).
    revert H0. generalize (Geo.initialHook, nav).
    induction events as [| e rest IH]; intros s Hs; simpl.
    - exact Hs.
    - apply IH, step_ownsWatches, Hs. }
  split; [exact Hown |].
  pose proof (step_ownsWatches _ Geo.Stop Hown) as Hstop.
  simpl in Hstop.
  destruct (Geo.run events (Geo.initialHook, nav)) as [h nav'].
  destruct Hown as [Hw _]. simpl in Hw. simpl. split.
  - rewrite Hw. destruct (Geo.watchIdRef h); simpl; lia.
  - destruct (Geo.watchIdRef h) as [id |]; simpl.
    + rewrite Hw. simpl. rewrite Nat.eqb_refl. reflexivity.
    + exact Hw.
Qed.

Lemma single_watch_witness :
  Geo.watches nav0 = [] /\
  Geo.watches
    (snd (Geo.run [Geo.Start; Geo.Start; Geo.Stop; Geo.Start]
                  (Geo.initialHook, nav0))) = [2%nat].
Proof.
  split; [reflexivity |].
  destruct (single_watch [Geo.Start; Geo.Start; Geo.Stop; Geo.Start]
              nav0 eq_refl) as [[Hw _] _].
  rewrite Hw. reflexivity.
Defined.

Lemma handleSuccess_invariant (pos : Geo.GeolocationPosition) (h : Geo.Hook) :
  trackingInvariant h -> trackingInvariant (Geo.handleSuccess pos h).
Proof.
  intros [Heq [Hlen Hnone]]. unfold trackingInvariant.
  rewrite handleSuccess_buffer.
  pose proof (pushReading_nonempty (Geo.positionBufferRef h) (readingOf pos))
    as Hne.
  pose proof (pushReading_length (Geo.positionBufferRef h) (readingOf pos) Hlen)
    as Hlen'.
  destruct (smoothedWith_some pos h) as [smoothed Hs].
  destruct (Geo.lastReportedPositionRef h) as [last |] eqn:Hlast.
  - destruct (Rle_or_lt
                (calculateDistance last (Geo.result_coords smoothed))
                (Geo.pos_accuracy pos * Geo.MOVEMENT_THRESHOLD_FACTOR))
      as [Hnear | Hfar].
    + destruct (handleSuccess_within pos h last smoothed Hlast Hs Hnear)
        as [Hp [_ Hl]].
      rewrite Hp, Hl, Heq, Hlast.
      split; [reflexivity |]. split; [exact Hlen' |].
      split; [discriminate | intros H; contradiction].
    + destruct (handleSuccess_beyond pos h last smoothed Hlast Hs Hfar)
        as [Hp [_ Hl]].
      rewrite Hp, Hl.
      split; [reflexivity |]. split; [exact Hlen' |].
      split; [discriminate | intros H; contradiction].
  - destruct (handleSuccess_first pos h smoothed Hlast Hs) as [Hp [_ Hl]].
    rewrite Hp, Hl.
    split; [reflexivity |]. split; [exact Hlen' |].
    split; [discriminate | intros H; contradiction].
Qed.

Lemma step_invariant (s : Geo.Hook * Geo.Navigator)
  (event : Geo.TrackingEvent) :
  trackingInvariant (fst s) -> trackingInvariant (fst (Geo.step s event)).
Proof.
  destruct s as [h nav]. simpl. intros Hinv.
  destruct event as [| | pos | err]; simpl.
  - unfold Geo.startTracking.
    destruct (Geo.geolocation nav); simpl; exact Hinv.
  - unfold Geo.stopTracking.
    destruct (Geo.watchIdRef h); simpl; exact Hinv.
  - apply handleSuccess_invariant, Hinv.
  - exact Hinv.
Qed.

(** X12: as long as only tracking events reach the hook (start, stop, a
    fix, a sensor error), the reported position equals the position the
    movement gate compares with, the buffer holds at most five readings,
    and a position is reported exactly when at least one fix has been
    buffered. *)
Theorem tracking_keeps_invariant (events : list Geo.TrackingEvent)
  (nav : Geo.Navigator) :
  trackingInvariant (fst (Geo.run events (Geo.initialHook, nav))).
Proof.
  unfold Geo.run.
  assert (H0 : trackingInvariant (fst (Geo.initialHook, nav))).
  { unfold trackingInvariant. simpl.
    split; [reflexivity |]. split; [lia |]. split; reflexivity. }
  revert H0. generalize (Geo.initialHook, nav).
  induction events as [| e rest IH]; intros s Hs; simpl.
  - exact Hs.
  - apply IH, step_invariant, Hs.
Qed.

(** X13: [stopTracking] is idempotent; it leaves the reported position,
    the last reported position and the buffer as they are, forgets the
    watch id, and the watch it cleared is no longer registered. *)
Theorem stopTracking_idempotent (s : Geo.Hook * Geo.Navigator) :
  Geo.stopTracking (Geo.stopTracking s) = Geo.stopTracking s /\
  Geo.position (fst (Geo.stopTracking s)) = Geo.position (fst s) /\
  Geo.lastReportedPositionRef (fst (Geo.stopTracking s))
    = Geo.lastReportedPositionRef (fst s) /\
  Geo.positionBufferRef (fst (Geo.stopTracking s))
    = Geo.positionBufferRef (fst s) /\
  Geo.watchIdRef (fst (Geo.stopTracking s)) = None /\
  Geo.isTracking (fst (Geo.stopTracking s)) = false /\
  forall id, Geo.watchIdRef (fst s) = Some id ->
    existsb (Nat.eqb id) (Geo.watches (snd (Geo.stopTracking s))) = false.
Proof.
  destruct s as [h nav]. unfold Geo.stopTracking. simpl.
  destruct (Geo.watchIdRef h) as [id |]; simpl.
  - repeat split. intros id' Hid. injection Hid as <-.
    induction (Geo.watches nav) as [| w ws IH]; simpl; [reflexivity |].
    destruct (Nat.eqb_spec w id) as [-> | Hne]; simpl; [exact IH |].
    destruct (Nat.eqb_spec id w) as [-> | _]; [contradiction | exact IH].
  - repeat split. intros id Hid. discriminate.
Qed.

Lemma stopTracking_idempotent_witness :
  Geo.watchIdRef (fst firstSession) = Some 0%nat /\
  existsb (Nat.eqb 0)
          (Geo.watches (snd (Geo.stopTracking firstSession))) = false.
Proof.
  assert (Hid : Geo.watchIdRef (fst firstSession) = Some 0%nat)
    by (rewrite firstSession_state; reflexivity).
  split; [exact Hid |].
  destruct (stopTracking_idempotent firstSession)
    as [_ [_ [_ [_ [_ [_ H]]]]]].
  exact (H 0%nat Hid).
Defined.

Lemma getErrorMessage_injective (e1 e2 : Geo.GeolocationPositionError) :
  Geo.getErrorMessage e1 = Geo.getErrorMessage e2 -> e1 = e2.
Proof.
  destruct e1, e2; simpl; intros H; try reflexivity; discriminate.
Qed.

(** X14: a sensor error during tracking is reported with a message of its
    own kind (different kinds give different messages); the watch and the
    tracking flag stay, and the position and the buffer are kept; the next
    fix that arrives clears the error. *)
Theorem handleError_recovers (err : Geo.GeolocationPositionError)
  (h : Geo.Hook) :
  Geo.error (Geo.handleError err h) = Some (Geo.getErrorMessage err) /\
  (forall err', Geo.error (Geo.handleError err' h)
                = Geo.error (Geo.handleError err h) -> err' = err) /\
  Geo.watchIdRef (Geo.handleError err h) = Geo.watchIdRef h /\
  Geo.isTracking (Geo.handleError err h) = Geo.isTracking h /\
  Geo.position (Geo.handleError err h) = Geo.position h /\
  Geo.positionBufferRef (Geo.handleError err h) = Geo.positionBufferRef h /\
  (forall pos,
     Geo.error (Geo.handleSuccess pos (Geo.handleError err h)) = None /\
     Geo.isLoading (Geo.handleSuccess pos (Geo.handleError err h)) = false).
Proof.
  split; [reflexivity |]. split.
  { intros err' H. simpl in H. injection H as H.
    apply getErrorMessage_injective. exact H. }
  repeat (split; [reflexivity |]).
  intros pos.
  destruct (smoothedWith_some pos (Geo.handleError err h)) as [smoothed Hs].
  unfold smoothedWith in Hs. unfold Geo.handleSuccess. cbv zeta.
  fold (readingOf pos). rewrite Hs.
  match goal with |- context [if ?c then _ else _] => destruct c end;
    split; reflexivity.
Qed.

Lemma handleError_recovers_witness :
  Geo.error (Geo.handleError Geo.TIMEOUT Geo.initialHook)
    = Geo.error (Geo.handleError Geo.TIMEOUT Geo.initialHook) /\
  Geo.error (Geo.handleSuccess fixA
               (Geo.handleError Geo.TIMEOUT Geo.initialHook)) = None.
Proof.
  split; [reflexivity |].
  destruct (handleError_recovers Geo.TIMEOUT Geo.initialHook)
    as [_ [Hinj [_ [_ [_ [_ Hnext]]]]]].
  pose proof (Hinj Geo.TIMEOUT eq_refl) as _.
  exact (proj1 (Hnext fixA)).
Defined.

(** ** Ties and one-shot reads *)

(** The reduction returns the first reading of least accuracy value: the
    readings before it are strictly worse, those after it no better. *)
Lemma bestOf_first_least (rest : list Geo.PositionReading)
  (first : Geo.PositionReading) :
  exists before after,
    first :: rest = before ++ Geo.bestOf first rest :: after /\
    (forall r, In r before ->
       Geo.accuracy (Geo.bestOf first rest) < Geo.accuracy r) /\
    (forall r, In r after ->
       Geo.accuracy (Geo.bestOf first rest) <= Geo.accuracy r).
Proof.
  unfold Geo.bestOf.
  assert (Hgen : forall (rest : list Geo.PositionReading)
                   (before : list Geo.PositionReading)
                   (best : Geo.PositionReading)
                   (between : list Geo.PositionReading),
    (forall r, In r before -> Geo.accuracy best < Geo.accuracy r) ->
    (forall r, In r between -> Geo.accuracy best <= Geo.accuracy r) ->
    let result :=
      fold_left
        (fun best current =>
           if Rlt_dec (Geo.accuracy current) (Geo.accuracy best)
           then current else best) rest best in
    exists before' after',
      before ++ best :: between ++ rest = before' ++ result :: after' /\
      (forall r, In r before' -> Geo.accuracy result < Geo.accuracy r) /\
      (forall r, In r after' -> Geo.accuracy result <= Geo.accuracy r)).
  { clear rest first.
    induction rest as [| current rest IH];
      intros before best between Hbefore Hbetween; simpl.
    - exists before, between. rewrite app_nil_r.
      split; [reflexivity |]. split; assumption.
    - destruct (Rlt_dec (Geo.accuracy current) (Geo.accuracy best))
        as [Hlt | Hge].
      + destruct (IH (before ++ best :: between) current [])
          as [before' [after' [Heq [Hb Ha]]]].
        * intros r Hr. apply in_app_or in Hr.
          destruct Hr as [Hr | [<- | Hr]].
          -- pose proof (Hbefore r Hr). lra.
          -- exact Hlt.
          -- pose proof (Hbetween r Hr). lra.
        * intros r [].
        * exists before', after'. split; [| split; assumption].
          rewrite <- Heq. rewrite <- !app_assoc. reflexivity.
      + destruct (IH before best (between ++ [current]))
          as [before' [after' [Heq [Hb Ha]]]].
        * exact Hbefore.
        * intros r Hr. apply in_app_or in Hr.
          destruct Hr as [Hr | [<- | []]]; [apply Hbetween; exact Hr | lra].
        * exists before', after'. split; [| split; assumption].
          rewrite <- Heq. rewrite <- !app_assoc. reflexivity. }
  destruct (Hgen rest [] first []) as [before [after [Heq [Hb Ha]]]].
  - intros r [].
  - intros r [].
  - exists before, after. split; [exact Heq |]. split; assumption.
Qed.

Lemma resolvedReadings_split (sensor : nat -> Geo.Sample) (n i : nat)
  (before after : list Geo.PositionReading) (x : Geo.PositionReading) :
  resolvedReadings sensor i n = before ++ x :: after ->
  exists k pos, (i <= k < i + n)%nat /\
    sensor k = Geo.Resolved pos /\ x = readingOf pos /\
    forall j pos', (i <= j < k)%nat -> sensor j = Geo.Resolved pos' ->
      In (readingOf pos') before.
Proof.
  revert i before. induction n as [| n IH]; intros i before Heq; simpl in Heq.
  - destruct before; discriminate.
  - destruct (sensor i) as [p | err] eqn:Hs.
    + destruct before as [| y before'].
      * simpl in Heq. injection Heq as Hx _.
        exists i, p. split; [lia |]. split; [exact Hs |].
        split; [symmetry; exact Hx |]. intros j pos' Hj. lia.
      * simpl in Heq. injection Heq as Hy Hrest.
        destruct (IH (S i) before' Hrest) as [k [pos [Hk [Hsk [Hx Hearlier]]]]].
        exists k, pos. split; [lia |]. split; [exact Hsk |].
        split; [exact Hx |]. intros j pos' Hj Hsj.
        destruct (Nat.eq_dec j i) as [-> | Hne].
        -- rewrite Hs in Hsj. injection Hsj as <-. left. symmetry. exact Hy.
        -- right. apply (Hearlier j pos'); [lia | exact Hsj].
    + destruct (IH (S i) before Heq) as [k [pos [Hk [Hsk [Hx Hearlier]]]]].
      exists k, pos. split; [lia |]. split; [exact Hsk |].
      split; [exact Hx |]. intros j pos' Hj Hsj.
      destruct (Nat.eq_dec j i) as [-> | Hne].
      * rewrite Hs in Hsj. discriminate.
      * apply (Hearlier j pos'); [lia | exact Hsj].
Qed.

(** X15: among resolved samples of equal best accuracy [getBestReading]
    returns the earliest: every sample resolved before the returned one
    has a strictly greater accuracy value. *)
Theorem getBestReading_earliest (numSamples : nat)
  (sensor : nat -> Geo.Sample) (nav : Geo.Navigator) (h : Geo.Hook)
  (best : Geo.BestReadingResult) :
  Geo.geolocation nav = true ->
  snd (Geo.getBestReading numSamples sensor nav h) = Some best ->
  exists i pos, (i < numSamples)%nat /\
    sensor i = Geo.Resolved pos /\
    best = Geo.mkResult (Geo.coords (readingOf pos)) (Geo.pos_accuracy pos) /\
    forall j pos', (j < i)%nat -> sensor j = Geo.Resolved pos' ->
      Geo.pos_accuracy pos < Geo.pos_accuracy pos'.
Proof.
  intros Hgeo. unfold Geo.getBestReading. rewrite Hgeo. simpl negb. cbv iota.
  rewrite takeReadings_resolved. simpl app.
  destruct (resolvedReadings sensor 0 numSamples) as [| first rest] eqn:Hr;
    simpl; [discriminate |].
  intros Hbest. injection Hbest as <-.
  destruct (bestOf_first_least rest first) as [before [after [Heq [Hb _]]]].
  rewrite Heq in Hr.
  destruct (resolvedReadings_split sensor numSamples 0 before after _ Hr)
    as [k [pos [Hk [Hs [Hx Hearlier]]]]].
  exists k, pos. split; [lia |]. split; [exact Hs |].
  split; [rewrite Hx; reflexivity |].
  intros j pos' Hj Hsj.
  pose proof (Hb _ (Hearlier j pos' ltac:(lia) Hsj)) as Hlt.
  rewrite Hx in Hlt. exact Hlt.
Qed.

Lemma getBestReading_earliest_witness :
  Geo.geolocation nav0 = true /\
  snd (Geo.getBestReading 2 tiedFixes nav0 Geo.initialHook)
    = Some (Geo.mkResult (mkCoordinates 1 1) 5).
Proof.
  split; [reflexivity |].
  assert (Hsome : exists best,
            snd (Geo.getBestReading 2 tiedFixes nav0 Geo.initialHook)
            = Some best) by (eexists; reflexivity).
  destruct Hsome as [best Hbest]. rewrite Hbest.
  destruct (getBestReading_earliest 2 tiedFixes nav0 Geo.initialHook best
              eq_refl Hbest) as [i [pos [Hi [Hs [Heq Hearlier]]]]].
  destruct i as [| [| i]]; simpl in Hs; try lia.
  - injection Hs as <-. rewrite Heq. reflexivity.
  - injection Hs as <-.
    pose proof (Hearlier 0%nat (Geo.mkPosition 1 1 5 0) ltac:(lia) eq_refl)
      as Hlt.
    simpl in Hlt. lra.
Defined.

(** X16: a one-shot read ([getCurrentPosition], [getBestReading]) replaces
    the reported position with the coordinates of a fix as they are, but
    it leaves alone the buffer and the position that the movement gate
    compares with; so a fix that then arrives within the threshold of the
    last gated position leaves the one-shot position in place. *)
Theorem one_shot_bypasses_gate (nav : Geo.Navigator) (h : Geo.Hook)
  (fix1 : Geo.GeolocationPosition) :
  Geo.geolocation nav = true ->
  let h1 := fst (Geo.getCurrentPosition (Geo.Resolved fix1) nav h) in
  let h2 := fst (Geo.getBestReading 1 (fun _ => Geo.Resolved fix1) nav h) in
  Geo.position h1 = Some (Geo.coords (readingOf fix1)) /\
  Geo.position h2 = Some (Geo.coords (readingOf fix1)) /\
  Geo.positionBufferRef h1 = Geo.positionBufferRef h /\
  Geo.positionBufferRef h2 = Geo.positionBufferRef h /\
  Geo.lastReportedPositionRef h1 = Geo.lastReportedPositionRef h /\
  Geo.lastReportedPositionRef h2 = Geo.lastReportedPositionRef h /\
  (forall pos, withinThreshold pos h ->
     Geo.position (Geo.handleSuccess pos h1)
       = Some (Geo.coords (readingOf fix1)) /\
     Geo.position (Geo.handleSuccess pos h2)
       = Some (Geo.coords (readingOf fix1))).
Proof.
  intros Hgeo h1 h2.
  assert (H1 : h1 = Geo.mkHook (Some (Geo.coords (readingOf fix1)))
                      (Some (Geo.pos_accuracy fix1)) None (Geo.isTracking h)
                      false (Geo.watchIdRef h) (Geo.positionBufferRef h)
                      (Geo.lastReportedPositionRef h)).
  { unfold h1, Geo.getCurrentPosition. rewrite Hgeo. reflexivity. }
  assert (H2 : h2 = h1).
  { rewrite H1. unfold h2, Geo.getBestReading. rewrite Hgeo. reflexivity. }
  rewrite H2, H1. repeat (split; [reflexivity |]).
  intros pos [last [smoothed [Hlast [Hs Hnear]]]].
  set (h' := Geo.mkHook _ _ _ _ _ _ _ _).
  assert (Hp : Geo.position (Geo.handleSuccess pos h')
               = Some (Geo.coords (readingOf fix1))).
  { destruct (handleSuccess_within pos h' last smoothed Hlast Hs Hnear)
      as [Hp _]. exact Hp. }
  split; exact Hp.
Qed.

Lemma one_shot_bypasses_gate_witness :
  let h := Geo.handleSuccess fixA Geo.initialHook in
  Geo.geolocation nav0 = true /\
  withinThreshold fixA h /\
  Geo.position h = Some origin /\
  Geo.position
    (Geo.handleSuccess fixA (fst (Geo.getCurrentPosition (Geo.Resolved fixB)
                                    nav0 h)))
  = Some (mkCoordinates 0 180).
Proof.
  intros h.
  assert (Hh : h = Geo.mkHook (Some origin) (Some 1) None false false None
                              [readingOf fixA] (Some origin))
    by apply hookA_after_first_fix.
  assert (Hnear : withinThreshold fixA h).
  { exists origin, (Geo.mkResult origin 1).
    split; [rewrite Hh; reflexivity |]. split.
    - rewrite Hh. smoothed_value.
    - simpl. rewrite calculateDistance_same.
      unfold Geo.MOVEMENT_THRESHOLD_FACTOR. lra. }
  split; [reflexivity |]. split; [exact Hnear |].
  split; [rewrite Hh; reflexivity |].
  destruct (one_shot_bypasses_gate nav0 h fixB eq_refl)
    as [_ [_ [_ [_ [_ [_ Hgate]]]]]].
  exact (proj1 (Hgate fixA Hnear)).
Defined.

(** ** The compass heading *)

(** X17: off iOS, for [alpha] in [0, 360] and a screen angle that is not
    negative, the heading that [handleOrientation] stores is
    [360 - alpha + angle] brought into [0, 360), and the compass is marked
    available with no error.  On iOS [webkitCompassHeading] is stored as it
    is, without normalization; when it is null the compass is marked
    unavailable and the previous heading is kept, whatever [alpha] is. *)
Theorem handleOrientation_heading (angle : option R) (a : R)
  (c : Orientation.Compass) :
  (0 <= a <= 360 -> 0 <= Orientation.screenOrientation angle ->
   exists h : R,
     Orientation.handleOrientation angle
       (Orientation.mkEvent None (Some a)) c
     = Orientation.mkCompass (Some h) true (Orientation.isActive c)
                             (Orientation.needsPermission c) None
                             (Orientation.listenerRef c) /\
     0 <= h < 360 /\
     exists k : Z,
       h = 360 - a + Orientation.screenOrientation angle - 360 * IZR k) /\
  (forall w : R,
     Orientation.heading
       (Orientation.handleOrientation angle
          (Orientation.mkEvent (Some (Some w)) (Some a)) c) = Some w) /\
  Orientation.handleOrientation angle
    (Orientation.mkEvent (Some None) (Some a)) c
  = Orientation.mkCompass (Orientation.heading c) false
                          (Orientation.isActive c)
                          (Orientation.needsPermission c)
                          (Orientation.error c)
                          (Orientation.listenerRef c).
Proof.
  split; [| split; [intros w; reflexivity | reflexivity]].
  intros Ha Hangle.
  set (x := 360 - a + Orientation.screenOrientation angle).
  assert (Hx : 0 <= x) by (unfold x; lra).
  exists (JS.rem x 360). split; [reflexivity |].
  split; [apply rem360_range; exact Hx |].
  exists (Int_part (x / 360)).
  unfold JS.rem. rewrite truncate_nonneg by (apply Rle_mult_inv_pos; lra).
  reflexivity.
Qed.

Lemma handleOrientation_heading_witness :
  0 <= 90 <= 360 /\ 0 <= Orientation.screenOrientation (Some 90) /\
  Orientation.heading
    (Orientation.handleOrientation (Some 90)
       (Orientation.mkEvent None (Some 90))
       (Orientation.mkCompass None true true false None true))
  = Some 0.
Proof.
  assert (Ha : 0 <= 90 <= 360) by lra.
  assert (Hs : 0 <= Orientation.screenOrientation (Some 90)) by (simpl; lra).
  split; [exact Ha |]. split; [exact Hs |].
  destruct (handleOrientation_heading (Some 90) 90
              (Orientation.mkCompass None true true false None true))
    as [H _].
  destruct (H Ha Hs) as [h [Heq [Hrange [k Hk]]]].
  rewrite Heq. simpl in *. f_equal.
  assert (Hk0 : IZR 0 < IZR k) by (simpl; lra).
  assert (Hk2 : IZR k < IZR 2) by (simpl; lra).
  apply lt_IZR in Hk0. apply lt_IZR in Hk2.
  assert (k = 1%Z) by lia. subst k. lra.
Defined.

(** ** Writing and reading the storage *)

Lemma lookup_remove_same (key : string) (items : list (string * string)) :
  Storage.lookup key (Storage.remove key items) = None.
Proof.
  induction items as [| [k v] rest IH]; simpl; [reflexivity |].
  destruct (String.eqb_spec k key) as [-> | Hne]; [exact IH |].
  simpl. destruct (String.eqb_spec k key); [contradiction | exact IH].
Qed.

Lemma lookup_remove_other (key other : string)
  (items : list (string * string)) :
  other <> key ->
  Storage.lookup other (Storage.remove key items) = Storage.lookup other items.
Proof.
  intros Hne. induction items as [| [k v] rest IH]; simpl; [reflexivity |].
  destruct (String.eqb_spec k key) as [-> | Hk].
  - destruct (String.eqb_spec key other) as [-> | _];
      [contradiction | exact IH].
  - simpl. destruct (String.eqb k other); [reflexivity | exact IH].
Qed.

Lemma lookup_written (key text : string) (items : list (string * string)) :
  Storage.lookup key ((key, text) :: Storage.remove key items) = Some text.
Proof. simpl. rewrite String.eqb_refl. reflexivity. Qed.

Lemma lookup_written_other (key other text : string)
  (items : list (string * string)) :
  other <> key ->
  Storage.lookup other ((key, text) :: Storage.remove key items)
  = Storage.lookup other items.
Proof.
  intros Hne. simpl.
  destruct (String.eqb_spec key other) as [-> | _]; [contradiction |].
  apply lookup_remove_other. exact Hne.
Qed.

Section StorageFacts.

Import Storage.

Variables (E V : Type).
Variable full : list (string * string) -> string -> string -> option E.
Variable JSON_parse : string -> Completion E V.
Variable JSON_stringify : V -> string.

(** X18: when the storage accepts the write and [JSON.parse] inverts
    [JSON.stringify] on the location, [saveCarLocation] returns true and
    [getCarLocation] then returns that location, whatever was stored
    before; [hasCarLocation] is true and the other keys are untouched. *)
Theorem saveCarLocation_roundtrip (items : list (string * string))
  (location : V) :
  full items STORAGE_KEY (JSON_stringify location) = None ->
  JSON_stringify location <> EmptyString ->
  JSON_parse (JSON_stringify location) = Normal location ->
  let saved := saveCarLocation E full V JSON_stringify (Items items) location in
  fst saved = true /\
  getCarLocation E V JSON_parse (snd saved) = Normal (Some location) /\
  hasCarLocation E (snd saved) = Normal true /\
  forall key, key <> STORAGE_KEY ->
    getItem (snd saved) key = getItem (Items items) key.
Proof.
  intros Hroom Hne Hparse saved. subst saved.
  unfold saveCarLocation, setItem. rewrite Hroom. simpl fst. simpl snd.
  split; [reflexivity |]. split; [| split].
  - unfold getCarLocation, getItem. rewrite lookup_written. simpl.
    destruct (String.eqb_spec (JSON_stringify location) EmptyString);
      [contradiction |].
    rewrite Hparse. reflexivity.
  - unfold hasCarLocation, getItem. rewrite lookup_written. reflexivity.
  - intros key Hkey. unfold getItem.
    rewrite lookup_written_other by exact Hkey. reflexivity.
Qed.

(** X19: on a storage that can be accessed, [clearCarLocation] does not
    throw; afterwards [getCarLocation] returns null and [hasCarLocation]
    false, and the items under other keys are as before.  When access to
    the storage throws, [clearCarLocation] and [hasCarLocation], which
    have no [try], let the exception escape, while [getCarLocation]
    returns null. *)
Theorem clearCarLocation_clears (items : list (string * string)) :
  (exists cleared,
     clearCarLocation E (Items items) = Normal cleared /\
     getCarLocation E V JSON_parse cleared = Normal None /\
     hasCarLocation E cleared = Normal false /\
     forall key, key <> STORAGE_KEY ->
       getItem cleared key = getItem (Items items) key) /\
  (forall e : E,
     clearCarLocation E (Refused e) = Throw e /\
     hasCarLocation E (Refused e) = Throw e /\
     getCarLocation E V JSON_parse (Refused e) = Normal None).
Proof.
  split; [| intros e; repeat split].
  exists (Items (remove STORAGE_KEY items)).
  split; [reflexivity |]. split; [| split].
  - unfold getCarLocation, getItem. rewrite lookup_remove_same. reflexivity.
  - unfold hasCarLocation, getItem. rewrite lookup_remove_same. reflexivity.
  - intros key Hkey. unfold getItem.
    rewrite lookup_remove_other by exact Hkey. reflexivity.
Qed.

(** X20: whenever [getCarLocation] returns a location, [hasCarLocation] is
    true; the converse fails: for a stored text that is empty or does not
    parse, [hasCarLocation] is true while [getCarLocation] returns null. *)
Theorem hasCarLocation_vs_getCarLocation (localStorage : LocalStorage E) :
  (forall location,
     getCarLocation E V JSON_parse localStorage = Normal (Some location) ->
     hasCarLocation E localStorage = Normal true) /\
  (forall text,
     getItem localStorage STORAGE_KEY = Normal (Some text) ->
     (text = EmptyString \/ exists e, JSON_parse text = Throw e) ->
     hasCarLocation E localStorage = Normal true /\
     getCarLocation E V JSON_parse localStorage = Normal None).
Proof.
  unfold getCarLocation, hasCarLocation. split.
  - intros location.
    destruct (getItem localStorage STORAGE_KEY) as [[text |] | e]; simpl;
      [reflexivity | discriminate | discriminate].
  - intros text Hget Hbad. rewrite Hget. simpl. split; [reflexivity |].
    destruct Hbad as [-> | [e Hthrow]]; [reflexivity |].
    destruct (String.eqb text EmptyString); [reflexivity |].
    rewrite Hthrow. reflexivity.
Qed.

End StorageFacts.

Lemma saveCarLocation_roundtrip_witness :
  let saved :=
    Storage.saveCarLocation string (fun _ _ _ => None) string (fun v => v)
      (Storage.Items [(Storage.STORAGE_KEY, "{oops"%string)]) savedText in
  fst saved = true /\
  Storage.getCarLocation string string sampleParse (snd saved)
    = Storage.Normal (Some savedText).
Proof.
  intros saved.
  destruct (saveCarLocation_roundtrip string string (fun _ _ _ => None)
              sampleParse (fun v => v)
              [(Storage.STORAGE_KEY, "{oops"%string)] savedText)
    as [Hok [Hget _]];
    [reflexivity | discriminate | reflexivity |].
  split; [exact Hok | exact Hget].
Defined.

Lemma clearCarLocation_clears_witness :
  exists cleared,
    Storage.clearCarLocation string
      (Storage.Items [("other", "1"); (Storage.STORAGE_KEY, savedText)]%string)
      = Storage.Normal cleared /\
    Storage.getCarLocation string string sampleParse cleared
      = Storage.Normal None /\
    Storage.getItem cleared "other" = Storage.Normal (Some "1"%string).
Proof.
  destruct (clearCarLocation_clears string string sampleParse
              [("other", "1"); (Storage.STORAGE_KEY, savedText)]%string)
    as [[cleared [Hclear [Hget [_ Hother]]]] _].
  exists cleared. split; [exact Hclear |]. split; [exact Hget |].
  rewrite (Hother "other"%string) by discriminate. reflexivity.
Defined.

Lemma hasCarLocation_vs_getCarLocation_witness :
  Storage.hasCarLocation string
    (Storage.Items [(Storage.STORAGE_KEY, "{oops"%string)])
    = Storage.Normal true /\
  Storage.getCarLocation string string sampleParse
    (Storage.Items [(Storage.STORAGE_KEY, "{oops"%string)])
    = Storage.Normal None.
Proof.
  apply (proj2 (hasCarLocation_vs_getCarLocation string string sampleParse
                  (Storage.Items [(Storage.STORAGE_KEY, "{oops"%string)]))
           "{oops"%string eq_refl).
  right. exists "SyntaxError"%string. reflexivity.
Defined.

(** ** The API key and the mode preference *)

Section GoogleFacts.

Import Storage GoogleGeolocation.

Variable E : Type.
Variable full : list (string * string) -> string -> string -> option E.

(** X21: a saved API key is read back as it was saved, and
    [hasGoogleApiKey] is then true unless the key is the empty string.
    The key and the car location live under different storage keys:
    saving or clearing the one leaves what is read for the other
    unchanged. *)
Theorem saveGoogleApiKey_roundtrip (items : list (string * string))
  (apiKey : string) :
  full items GOOGLE_API_STORAGE_KEY apiKey = None ->
  let saved := saveGoogleApiKey E full (Items items) apiKey in
  fst saved = true /\
  getGoogleApiKey E (snd saved) = Some apiKey /\
  hasGoogleApiKey E (snd saved) = negb (String.eqb apiKey EmptyString) /\
  getItem (snd saved) STORAGE_KEY = getItem (Items items) STORAGE_KEY /\
  (forall cleared,
     clearGoogleApiKey E (snd saved) = Normal cleared ->
     hasGoogleApiKey E cleared = false /\
     getItem cleared STORAGE_KEY = getItem (Items items) STORAGE_KEY) /\
  (forall cleared,
     clearCarLocation E (snd saved) = Normal cleared ->
     getGoogleApiKey E cleared = Some apiKey).
Proof.
  intros Hroom saved. subst saved.
  unfold saveGoogleApiKey, setItem. rewrite Hroom. simpl fst. simpl snd.
  assert (Hkeys : STORAGE_KEY <> GOOGLE_API_STORAGE_KEY) by discriminate.
  split; [reflexivity |]. split; [| split; [| split; [| split]]].
  - unfold getGoogleApiKey, getItem. rewrite lookup_written. reflexivity.
  - unfold hasGoogleApiKey, getGoogleApiKey, getItem.
    rewrite lookup_written. reflexivity.
  - unfold getItem. rewrite lookup_written_other by exact Hkeys. reflexivity.
  - intros cleared Hclear. injection Hclear as <-. split.
    + unfold hasGoogleApiKey, getGoogleApiKey, getItem.
      rewrite lookup_remove_same. reflexivity.
    + unfold getItem. rewrite !lookup_remove_other by exact Hkeys.
      reflexivity.
  - intros cleared Hclear. injection Hclear as <-.
    unfold getGoogleApiKey, getItem. simpl. reflexivity.
Qed.

Variable V : Type.
Variable ofBool : bool -> V.
Variable JSON_parse : string -> Completion E V.

(** X22: [getSuperPreciseMode] never throws and is false when nothing is
    stored, when access to the storage throws and when the stored text
    does not parse; after [setSuperPreciseMode b] on a storage that
    accepts the write it is [b], given a [JSON.parse] that reads "true"
    and "false"; a write that the storage refuses leaves the preference
    as it was. *)
Theorem superPreciseMode_roundtrip (items : list (string * string))
  (enabled : bool) :
  JSON_parse "true" = Normal (ofBool true) ->
  JSON_parse "false" = Normal (ofBool false) ->
  (full items SUPER_PRECISE_MODE_KEY (stringifyBool enabled) = None ->
   getSuperPreciseMode E V ofBool JSON_parse
     (setSuperPreciseMode E full (Items items) enabled) = ofBool enabled) /\
  (forall e, full items SUPER_PRECISE_MODE_KEY (stringifyBool enabled) = Some e ->
   setSuperPreciseMode E full (Items items) enabled = Items items) /\
  (lookup SUPER_PRECISE_MODE_KEY items = None ->
   getSuperPreciseMode E V ofBool JSON_parse (Items items) = ofBool false) /\
  (forall text e, lookup SUPER_PRECISE_MODE_KEY items = Some text ->
   JSON_parse text = Throw e ->
   getSuperPreciseMode E V ofBool JSON_parse (Items items) = ofBool false) /\
  (forall e, getSuperPreciseMode E V ofBool JSON_parse (Refused e)
             = ofBool false).
Proof.
  intros Htrue Hfalse.
  split; [| split; [| split; [| split]]].
  - intros Hroom. unfold setSuperPreciseMode, setItem. rewrite Hroom.
    unfold getSuperPreciseMode, getItem. rewrite lookup_written. simpl.
    destruct enabled; simpl; [rewrite Htrue | rewrite Hfalse]; reflexivity.
  - intros e Hfull. unfold setSuperPreciseMode, setItem. rewrite Hfull.
    reflexivity.
  - intros Habsent. unfold getSuperPreciseMode, getItem. rewrite Habsent.
    reflexivity.
  - intros text e Hstored Hthrow.
    unfold getSuperPreciseMode, getItem. rewrite Hstored. simpl.
    destruct (String.eqb text EmptyString); [reflexivity |].
    rewrite Hthrow. reflexivity.
  - intros e. reflexivity.
Qed.

End GoogleFacts.

Lemma saveGoogleApiKey_roundtrip_witness :
  let items := [(Storage.STORAGE_KEY, savedText)] in
  let saved :=
    GoogleGeolocation.saveGoogleApiKey string roomy (Storage.Items items)
      "AIza-key" in
  roomy items GoogleGeolocation.GOOGLE_API_STORAGE_KEY "AIza-key" = None /\
  GoogleGeolocation.getGoogleApiKey string (snd saved) = Some "AIza-key"%string /\
  Storage.getCarLocation string string sampleParse (snd saved)
    = Storage.Normal (Some savedText).
Proof.
  intros items saved.
  assert (Hroom : roomy items GoogleGeolocation.GOOGLE_API_STORAGE_KEY
                    "AIza-key" = None) by reflexivity.
  split; [exact Hroom |].
  destruct (saveGoogleApiKey_roundtrip string roomy items "AIza-key" Hroom)
    as [_ [Hget [_ [Hcar _]]]].
  split; [exact Hget |].
  unfold Storage.getCarLocation. fold saved in Hcar. rewrite Hcar.
  reflexivity.
Defined.

Lemma superPreciseMode_roundtrip_witness :
  boolParse "true" = Storage.Normal true /\
  boolParse "false" = Storage.Normal false /\
  GoogleGeolocation.getSuperPreciseMode string bool (fun b => b) boolParse
    (GoogleGeolocation.setSuperPreciseMode string roomy
       (Storage.Items [(GoogleGeolocation.SUPER_PRECISE_MODE_KEY, "false")]%string)
       true) = true /\
  GoogleGeolocation.getSuperPreciseMode string bool (fun b => b) boolParse
    (Storage.Items [(GoogleGeolocation.SUPER_PRECISE_MODE_KEY, "maybe")]%string)
    = false.
Proof.
  split; [reflexivity |]. split; [reflexivity |].
  destruct (superPreciseMode_roundtrip string roomy bool (fun b => b) boolParse
              [(GoogleGeolocation.SUPER_PRECISE_MODE_KEY, "false")]%string
              true eq_refl eq_refl) as [Hset _].
  destruct (superPreciseMode_roundtrip string roomy bool (fun b => b) boolParse
              [(GoogleGeolocation.SUPER_PRECISE_MODE_KEY, "maybe")]%string
              true eq_refl eq_refl) as [_ [_ [_ [Hbad _]]]].
  split; [exact (Hset eq_refl) |].
  exact (Hbad "maybe"%string "SyntaxError"%string eq_refl eq_refl).
Defined.

(** ** What the screen shows *)

Section ScreenFacts.

Variable toLocaleString : Z -> string.


(** X24: when the position is the saved location, the values the
    component calculates are a distance of 0, [formattedDistance] of
    [toLocaleString 0] feet, [arrivalStatus] "found", a bearing of 0 and
    the label "N"; without a position, or without a saved location,
    [formattedDistance] is "--" with no unit and [arrivalStatus] is
    "navigating". *)
Theorem at_the_car (p : Coordinates) (saved : CarFinder.SavedLocation) :
  (CarFinder.location saved = p ->
   CarFinder.distanceMeters (Some p) (Some saved) = Some 0 /\
   CarFinder.formattedDistance toLocaleString (Some p) (Some saved)
     = {| value := toLocaleString 0; unit := "ft" |} /\
   CarFinder.arrivalStatus (Some p) (Some saved) = CarFinder.found /\
   CarFinder.bearingToCar (Some p) (Some saved) = Some 0 /\
   CarFinder.cardinalDirection (Some p) (Some saved) = Some "N"%string) /\
  (forall position,
     CarFinder.formattedDistance toLocaleString position None
       = {| value := "--"; unit := EmptyString |} /\
     CarFinder.arrivalStatus position None = CarFinder.navigating) /\
  CarFinder.formattedDistance toLocaleString None (Some saved)
    = {| value := "--"; unit := EmptyString |} /\
  CarFinder.arrivalStatus None (Some saved) = CarFinder.navigating.
Proof.
  split; [| split; [| split; reflexivity]].
  - intros Hloc.
    assert (Hd : CarFinder.distanceMeters (Some p) (Some saved) = Some 0)
      by (unfold CarFinder.distanceMeters; rewrite Hloc,
            calculateDistance_same; reflexivity).
    assert (Hbearing : CarFinder.bearingToCar (Some p) (Some saved) = Some 0)
      by (unfold CarFinder.bearingToCar; rewrite Hloc,
            calculateBearing_same; reflexivity).
    split; [exact Hd |]. split; [| split; [| split]].
    + unfold CarFinder.formattedDistance. rewrite Hd.
      rewrite formatDistance_feet by (unfold FEET_PER_METER; lra).
      replace (JS.Math_round (0 * FEET_PER_METER)) with 0%Z
        by (symmetry; apply Math_round_unique;
            unfold FEET_PER_METER; simpl; lra).
      reflexivity.
    + unfold CarFinder.arrivalStatus. rewrite Hd.
      destruct (Rlt_dec 0 5); [reflexivity | lra].
    + exact Hbearing.
    + unfold CarFinder.cardinalDirection. rewrite Hbearing.
      rewrite (getCardinalDirection_sector 0 0); [reflexivity | lia | simpl; lra].
  - intros position. destruct position; split; reflexivity.
Qed.

(** X25: while [arrivalStatus] is "close", the number of the text
    "Within ~N ft", [Math.round(distanceMeters * 3.28084)], is between 16
    and 49, and it is the number that [formattedDistance] holds, in feet;
    while [arrivalStatus] is "found", [formattedDistance] holds at most 16
    feet; and [formattedDistance] is in metres only while [arrivalStatus]
    is "navigating". *)
Theorem arrival_zone_display (position : option Coordinates)
  (savedLocation : option CarFinder.SavedLocation) :
  (CarFinder.arrivalStatus position savedLocation = CarFinder.found ->
   exists n : Z,
     CarFinder.formattedDistance toLocaleString position savedLocation
       = {| value := toLocaleString n; unit := "ft" |} /\
     (0 <= n <= 16)%Z) /\
  (CarFinder.arrivalStatus position savedLocation = CarFinder.close ->
   CarFinder.formattedDistance toLocaleString position savedLocation
     = {| value :=
            toLocaleString (CarFinder.withinFeet position savedLocation);
          unit := "ft" |} /\
   (16 <= CarFinder.withinFeet position savedLocation <= 49)%Z) /\
  (forall n : Z,
     CarFinder.formattedDistance toLocaleString position savedLocation
       = {| value := toLocaleString n; unit := "m" |} ->
     CarFinder.arrivalStatus position savedLocation = CarFinder.navigating).
Proof.
  unfold CarFinder.arrivalStatus, CarFinder.formattedDistance,
    CarFinder.withinFeet.
  assert (Hpos : forall d,
            CarFinder.distanceMeters position savedLocation = Some d ->
            0 <= d).
  { unfold CarFinder.distanceMeters.
    destruct position as [p |], savedLocation as [saved |];
      intros d H; try discriminate.
    injection H as <-. apply calculateDistance_bounds. }
  destruct (CarFinder.distanceMeters position savedLocation) as [d |].
  2:{ split; [discriminate |]. split; [discriminate | reflexivity]. }
  pose proof (Hpos d eq_refl) as Hd.
  pose proof (Math_round_bounds (d * FEET_PER_METER)) as Hb.
  split; [| split].
  - destruct (Rlt_dec d 5) as [H5 | H5];
      [| destruct (Rlt_dec d 15); discriminate].
    intros _. exists (JS.Math_round (d * FEET_PER_METER)).
    split; [apply formatDistance_feet; unfold FEET_PER_METER; lra |].
    unfold FEET_PER_METER in *.
    set (n := JS.Math_round (d * (328084 / 100000))) in *.
    assert (H1 : IZR (-1) < IZR n) by (simpl; lra).
    assert (H2 : IZR n < IZR 17) by (simpl; lra).
    apply lt_IZR in H1. apply lt_IZR in H2. lia.
  - destruct (Rlt_dec d 5) as [H5 | H5]; [discriminate |].
    destruct (Rlt_dec d 15) as [H15 | H15]; [| discriminate].
    intros _. fold FEET_PER_METER.
    split; [apply formatDistance_feet; unfold FEET_PER_METER; lra |].
    unfold FEET_PER_METER in *.
    set (n := JS.Math_round (d * (328084 / 100000))) in *.
    assert (H1 : IZR 15 < IZR n) by (simpl; lra).
    assert (H2 : IZR n < IZR 50) by (simpl; lra).
    apply lt_IZR in H1. apply lt_IZR in H2. lia.
  - intros n Hm.
    destruct (Rlt_dec d 15) as [H15 | H15].
    + rewrite formatDistance_feet in Hm by (unfold FEET_PER_METER; lra).
      discriminate.
    + destruct (Rlt_dec d 5); [lra | reflexivity].
Qed.

End ScreenFacts.

Lemma at_the_car_witness :
  let saved := CarFinder.mkSaved (mkCoordinates 40 (-75)) 0 (Some 5) in
  CarFinder.location saved = mkCoordinates 40 (-75) /\
  CarFinder.formattedDistance toLocaleString_enUS
    (Some (mkCoordinates 40 (-75))) (Some saved)
  = {| value := "0"; unit := "ft" |}.
Proof.
  intros saved. split; [reflexivity |].
  destruct (at_the_car toLocaleString_enUS (mkCoordinates 40 (-75)) saved)
    as [H _].
  destruct (H eq_refl) as [_ [Hf _]]. rewrite Hf. reflexivity.
Defined.


Lemma arrival_zone_display_witness :
  let p := mkCoordinates 40 (-75) in
  let saved := CarFinder.mkSaved p 0 None in
  CarFinder.arrivalStatus (Some p) (Some saved) = CarFinder.found /\
  exists n : Z,
    CarFinder.formattedDistance toLocaleString_enUS (Some p) (Some saved)
      = {| value := toLocaleString_enUS n; unit := "ft" |} /\
    (0 <= n <= 16)%Z.
Proof.
  intros p saved.
  assert (Hfound : CarFinder.arrivalStatus (Some p) (Some saved)
                   = CarFinder.found).
  { unfold CarFinder.arrivalStatus, CarFinder.distanceMeters. simpl.
    rewrite calculateDistance_same. destruct (Rlt_dec 0 5); [reflexivity | lra]. }
  split; [exact Hfound |].
  exact (proj1 (arrival_zone_display toLocaleString_enUS (Some p) (Some saved))
           Hfound).
Defined.

(** ** The compass listener and the component's handlers *)

Lemma handleOrientation_reading (angle : option R)
  (event : Orientation.DeviceOrientationEvent) (h : R)
  (c : Orientation.Compass) :
  Orientation.compassHeading angle event = Some h ->
  Orientation.handleOrientation angle event c
  = Orientation.mkCompass (Some h) true (Orientation.isActive c)
      (Orientation.needsPermission c) None (Orientation.listenerRef c).
Proof.
  intros Hh. unfold Orientation.handleOrientation. rewrite Hh. reflexivity.
Qed.

Lemma dispatch_registered (angle : option R)
  (event : Orientation.DeviceOrientationEvent) (h : R)
  (c : Orientation.Compass) (w : Orientation.Window) :
  Orientation.compassHeading angle event = Some h ->
  w <> [] ->
  Orientation.dispatch angle event (c, w)
  = (Orientation.mkCompass (Some h) true (Orientation.isActive c)
       (Orientation.needsPermission c) None (Orientation.listenerRef c), w).
Proof.
  intros Hh Hw. unfold Orientation.dispatch. simpl. f_equal.
  destruct w as [| flag rest]; [contradiction |]. simpl.
  rewrite (handleOrientation_reading angle event h c Hh).
  clear Hw. induction rest as [| flag' rest IH]; simpl; [reflexivity |].
  rewrite (handleOrientation_reading angle event h _ Hh). simpl. exact IH.
Qed.

Lemma dispatchAll_window (angle : option R)
  (events : list Orientation.DeviceOrientationEvent)
  (cw : Orientation.Compass * Orientation.Window) :
  snd (dispatchAll angle events cw) = snd cw.
Proof.
  unfold dispatchAll. revert cw.
  induction events as [| e rest IH]; intros cw; simpl; [reflexivity |].
  rewrite IH. reflexivity.
Qed.

Lemma dispatchAll_frame (angle : option R)
  (events : list Orientation.DeviceOrientationEvent)
  (cw : Orientation.Compass * Orientation.Window) :
  Orientation.isActive (fst (dispatchAll angle events cw))
  = Orientation.isActive (fst cw) /\
  Orientation.needsPermission (fst (dispatchAll angle events cw))
  = Orientation.needsPermission (fst cw) /\
  Orientation.listenerRef (fst (dispatchAll angle events cw))
  = Orientation.listenerRef (fst cw).
Proof.
  unfold dispatchAll. revert cw.
  induction events as [| e rest IH]; intros cw; simpl;
    [repeat split |].
  destruct (IH (Orientation.dispatch angle e cw)) as [Ha [Hn Hl]].
  rewrite Ha, Hn, Hl. clear IH Ha Hn Hl.
  destruct cw as [c w]. unfold Orientation.dispatch. simpl.
  revert c. induction w as [| flag w IH]; intros c; simpl;
    [repeat split |].
  destruct (IH (Orientation.handleOrientation angle e c)) as [Ha [Hn Hl]].
  rewrite Ha, Hn, Hl. unfold Orientation.handleOrientation.
  destruct (Orientation.compassHeading angle e); repeat split.
Qed.

Lemma dispatchAll_last (angle : option R)
  (events : list Orientation.DeviceOrientationEvent)
  (event : Orientation.DeviceOrientationEvent) (h : R)
  (cw : Orientation.Compass * Orientation.Window) :
  Orientation.compassHeading angle event = Some h ->
  snd cw <> [] ->
  Orientation.heading (fst (dispatchAll angle (events ++ [event]) cw))
  = Some h /\
  Orientation.isAvailable (fst (dispatchAll angle (events ++ [event]) cw))
  = true.
Proof.
  intros Hh Hw.
  assert (Hlast : dispatchAll angle (events ++ [event]) cw
                  = Orientation.dispatch angle event
                      (dispatchAll angle events cw))
    by (unfold dispatchAll; rewrite fold_left_app; reflexivity).
  rewrite Hlast.
  pose proof (dispatchAll_window angle events cw) as Hsnd.
  destruct (dispatchAll angle events cw) as [c w]. simpl in Hsnd.
  rewrite <- Hsnd in Hw.
  rewrite (dispatch_registered angle event h c w Hh Hw).
  split; reflexivity.
Qed.

Lemma addEventListener_In (capture : bool) (w : Orientation.Window) :
  In capture (Orientation.addEventListener capture w).
Proof.
  unfold Orientation.addEventListener.
  destruct (existsb (Bool.eqb capture) w) eqn:Hex.
  - apply existsb_exists in Hex. destruct Hex as [x [Hin Heq]].
    apply Bool.eqb_prop in Heq. subst x. exact Hin.
  - left. reflexivity.
Qed.

Lemma removeEventListener_other (w : Orientation.Window) :
  In true w -> In true (Orientation.removeEventListener false w).
Proof.
  intros Hin. unfold Orientation.removeEventListener.
  apply filter_In. split; [exact Hin | reflexivity].
Qed.

Lemma startListening_registers (c : Orientation.Compass)
  (w : Orientation.Window) :
  In true (snd (fst (Orientation.startListening true (c, w)))) /\
  snd (Orientation.startListening true (c, w))
  = Some (Orientation.heading c) /\
  fst (fst (Orientation.startListening true (c, w)))
  = Orientation.mkCompass (Orientation.heading c) (Orientation.isAvailable c)
      true (Orientation.needsPermission c) (Orientation.error c) true.
Proof.
  unfold Orientation.startListening. simpl.
  split; [apply addEventListener_In | split; reflexivity].
Qed.

(** X26: [stopListening] does not detach the listener.  [startListening]
    registers it for the capture phase and [stopListening] asks to remove
    a registration without capture, so the registration stays: the hook
    reports that it is inactive and forgets its reference, while an
    orientation event that arrives afterwards still sets the heading. *)
Theorem stopListening_keeps_listener (c : Orientation.Compass)
  (w : Orientation.Window) (angle : option R)
  (event : Orientation.DeviceOrientationEvent) (h : R) :
  Orientation.compassHeading angle event = Some h ->
  let started := fst (Orientation.startListening true (c, w)) in
  let stopped := Orientation.stopListening started in
  In true (snd started) /\
  In true (snd stopped) /\
  Orientation.isActive (fst stopped) = false /\
  Orientation.listenerRef (fst stopped) = false /\
  Orientation.heading (fst (Orientation.dispatch angle event stopped))
  = Some h.
Proof.
  intros Hh started stopped.
  destruct (startListening_registers c w) as [Hin [_ Hc]].
  fold started in Hin, Hc.
  assert (Hstopped : In true (snd stopped) /\
                     Orientation.isActive (fst stopped) = false /\
                     Orientation.listenerRef (fst stopped) = false).
  { unfold stopped. destruct started as [c1 w1]. simpl in Hin, Hc.
    unfold Orientation.stopListening. rewrite Hc. simpl.
    split; [apply removeEventListener_other; exact Hin |].
    split; reflexivity. }
  destruct Hstopped as [Hin' [Hact Href]].
  repeat split; try assumption.
  destruct stopped as [c2 w2]. simpl in Hin'.
  rewrite (dispatch_registered angle event h c2 w2 Hh).
  - reflexivity.
  - intros ->. destruct Hin'.
Qed.

Lemma stopListening_keeps_listener_witness :
  snd (Orientation.stopListening
         (fst (Orientation.startListening true
                 (Orientation.initialCompass false, [])))) = [true] /\
  Orientation.heading
    (fst (Orientation.dispatch None alpha90
            (Orientation.stopListening
               (fst (Orientation.startListening true
                       (Orientation.initialCompass false, []))))))
  = Some (JS.rem (360 - 90 + 0) 360).
Proof.
  split; [reflexivity |].
  exact (proj2 (proj2 (proj2 (proj2
           (stopListening_keeps_listener (Orientation.initialCompass false)
              [] None alpha90 (JS.rem (360 - 90 + 0) 360) eq_refl))))).
Defined.

Lemma stopTracking_frame (s : Geo.Hook * Geo.Navigator) :
  Geo.isTracking (fst (Geo.stopTracking s)) = false /\
  Geo.position (fst (Geo.stopTracking s)) = Geo.position (fst s) /\
  Geo.watchIdRef (fst (Geo.stopTracking s)) = None.
Proof.
  destruct s as [h nav]. unfold Geo.stopTracking.
  destruct (Geo.watchIdRef h); repeat split.
Qed.

Section HandlerFacts.

Import Storage.

Variable E : Type.
Variable full : list (string * string) -> string -> string -> option E.
Variable JSON_parse : string -> Completion E CarFinder.SavedLocation.
Variable JSON_stringify : CarFinder.SavedLocation -> string.
Variable vibrates : bool.

Lemma handleStartNavigation_starts_compass (a : CarFinder.App E)
  (checkNeedsPermission : bool) (outcome : Orientation.PermissionOutcome) :
  Orientation.needsPermission (CarFinder.compass E a) = false ->
  Orientation.isAvailable (CarFinder.compass E a) = true ->
  let started :=
    CarFinder.handleStartNavigation E checkNeedsPermission true outcome a in
  snd started = Some (Orientation.heading (CarFinder.compass E a)) /\
  CarFinder.useSimpleMode E (fst started) = CarFinder.useSimpleMode E a /\
  CarFinder.mode E (fst started) = CarFinder.find /\
  In true (CarFinder.window E (fst started)) /\
  Orientation.isActive (CarFinder.compass E (fst started)) = true.
Proof.
  intros Hneeds Havail started.
  unfold started, CarFinder.handleStartNavigation.
  rewrite Hneeds, Havail. cbv zeta. simpl andb. cbv match.
  destruct (Geo.startTracking (CarFinder.geo E a, CarFinder.nav E a))
    as [geo1 nav1].
  destruct (startListening_registers (CarFinder.compass E a)
              (CarFinder.window E a)) as [Hin [Htimer Hc]].
  destruct (Orientation.startListening true
              (CarFinder.compass E a, CarFinder.window E a))
    as [[c2 w2] timer].
  simpl in Hin, Htimer, Hc. simpl. subst c2 timer.
  repeat split. exact Hin.
Qed.

(** X27: compass mode lasts two seconds.  When navigation starts with no
    heading received yet, the timer that [startListening] sets tests the
    heading of the render it was created in, so when it fires it marks the
    compass unavailable even though headings have arrived since; the
    component's effect then switches simple mode on. *)
Theorem timer_forces_simple_mode (a : CarFinder.App E)
  (checkNeedsPermission : bool) (outcome : Orientation.PermissionOutcome)
  (angle : option R) (events : list Orientation.DeviceOrientationEvent)
  (event : Orientation.DeviceOrientationEvent) (h : R) :
  Orientation.needsPermission (CarFinder.compass E a) = false ->
  Orientation.isAvailable (CarFinder.compass E a) = true ->
  Orientation.heading (CarFinder.compass E a) = None ->
  Orientation.compassHeading angle event = Some h ->
  let started :=
    CarFinder.handleStartNavigation E checkNeedsPermission true outcome a in
  let received :=
    dispatchAll angle (events ++ [event])
      (CarFinder.compass E (fst started), CarFinder.window E (fst started)) in
  let fired :=
    CarFinder.simpleModeEffect E
      (withCompass (fst started)
         (Orientation.timerFires None (fst received), snd received)) in
  snd started = Some None /\
  CarFinder.useSimpleMode E (fst started) = CarFinder.useSimpleMode E a /\
  Orientation.heading (fst received) = Some h /\
  Orientation.isAvailable (fst received) = true /\
  Orientation.heading (CarFinder.compass E fired) = Some h /\
  Orientation.isAvailable (CarFinder.compass E fired) = false /\
  CarFinder.useSimpleMode E fired = true.
Proof.
  intros Hneeds Havail Hnone Hh started received fired.
  destruct (handleStartNavigation_starts_compass a checkNeedsPermission
              outcome Hneeds Havail) as [Htimer [Hsimple [Hmode [Hin _]]]].
  fold started in Htimer, Hsimple, Hmode, Hin. rewrite Hnone in Htimer.
  assert (Hw : snd (CarFinder.compass E (fst started),
                    CarFinder.window E (fst started)) <> []).
  { simpl. intros Hnil. rewrite Hnil in Hin. destruct Hin. }
  destruct (dispatchAll_last angle events event h _ Hh Hw) as [Hhead Hav].
  fold received in Hhead, Hav.
  split; [exact Htimer |]. split; [exact Hsimple |].
  split; [exact Hhead |]. split; [exact Hav |].
  unfold fired, CarFinder.simpleModeEffect, withCompass. simpl.
  rewrite Hmode. simpl. rewrite Hhead. repeat split.
Qed.

(** X28: [handleSaveLocation] saves the most accurate of its three
    samples.  When every request fails, the saved location, the storage
    and the toasts are as before, and the hook's error is set to "Failed
    to get any GPS readings.".  Otherwise the location built from a
    sample of least accuracy value and the current time is what is saved:
    if the storage takes it, it becomes the component's location, and
    [getCarLocation] returns it when [JSON.parse] inverts
    [JSON.stringify] on it; if the storage refuses it, the component's
    location and the storage stay as they were and the failure is
    reported. *)
Theorem handleSaveLocation_saves_best (sensor : nat -> Geo.Sample)
  (now : R) (a : CarFinder.App E) (items : list (string * string)) :
  Geo.geolocation (CarFinder.nav E a) = true ->
  CarFinder.localStorage E a = Items items ->
  let a' := CarFinder.handleSaveLocation E full JSON_stringify vibrates
              sensor now a in
  CarFinder.isSaving E a' = false /\
  ((forall i, (i < 3)%nat -> exists err, sensor i = Geo.Rejected err) ->
   CarFinder.savedLocation E a' = CarFinder.savedLocation E a /\
   CarFinder.localStorage E a' = CarFinder.localStorage E a /\
   CarFinder.log E a' = CarFinder.log E a /\
   Geo.error (CarFinder.geo E a')
   = Some "Failed to get any GPS readings."%string) /\
  (forall k pos0, (k < 3)%nat -> sensor k = Geo.Resolved pos0 ->
   exists i pos,
     (i < 3)%nat /\ sensor i = Geo.Resolved pos /\
     (forall j pos', (j < 3)%nat -> sensor j = Geo.Resolved pos' ->
        Geo.pos_accuracy pos <= Geo.pos_accuracy pos') /\
     let location :=
       CarFinder.mkSaved
         (mkCoordinates (Geo.pos_latitude pos) (Geo.pos_longitude pos))
         now (Some (Geo.pos_accuracy pos)) in
     (full items STORAGE_KEY (JSON_stringify location) = None ->
      CarFinder.savedLocation E a' = Some location /\
      (JSON_stringify location <> EmptyString ->
       JSON_parse (JSON_stringify location) = Normal location ->
       getCarLocation E CarFinder.SavedLocation JSON_parse
         (CarFinder.localStorage E a') = Normal (Some location))) /\
     (forall e, full items STORAGE_KEY (JSON_stringify location) = Some e ->
      CarFinder.savedLocation E a' = CarFinder.savedLocation E a /\
      CarFinder.localStorage E a' = CarFinder.localStorage E a /\
      CarFinder.log E a' = CarFinder.log E a ++ [CarFinder.SaveFailedToast])).
Proof.
  intros Hgeo Hls a'.
  unfold a', CarFinder.handleSaveLocation, Geo.getBestReading.
  rewrite Hgeo, Hls. simpl negb. cbv match.
  rewrite takeReadings_resolved, app_nil_l.
  destruct (resolvedReadings sensor 0 3) as [| first rest] eqn:Hr.
  - split; [reflexivity |]. split; [intros _; repeat split |].
    intros k pos0 Hk Hs. exfalso.
    assert (Hin : In (readingOf pos0) (resolvedReadings sensor 0 3)).
    { apply resolvedReadings_In. exists k, pos0.
      repeat split; [lia | lia | exact Hs]. }
    rewrite Hr in Hin. destruct Hin.
  - destruct (bestOf_least rest first) as [Hin Hmin].
    rewrite <- Hr in Hin, Hmin.
    apply resolvedReadings_In in Hin.
    destruct Hin as [i [pos [Hi [Hs Hbest]]]].
    assert (Hleast : forall j pos', (j < 3)%nat ->
              sensor j = Geo.Resolved pos' ->
              Geo.pos_accuracy pos <= Geo.pos_accuracy pos').
    { intros j pos' Hj Hs'.
      assert (Hin' : In (readingOf pos') (resolvedReadings sensor 0 3)).
      { apply resolvedReadings_In. exists j, pos'.
        repeat split; [lia | lia | exact Hs']. }
      specialize (Hmin _ Hin'). rewrite Hbest in Hmin. exact Hmin. }
    cbv zeta. rewrite Hbest. unfold readingOf. simpl Geo.coords.
    simpl Geo.accuracy. simpl Geo.result_coords. simpl Geo.result_accuracy.
    unfold saveCarLocation, setItem.
    split.
    { destruct (full items STORAGE_KEY _); reflexivity. }
    split.
    { intros Hall. destruct (Hall i ltac:(lia)) as [err Herr].
      rewrite Herr in Hs. discriminate. }
    intros k pos0 Hk Hs0. exists i, pos.
    split; [lia |]. split; [exact Hs |]. split; [exact Hleast |].
    split.
    + intros Hroom. rewrite Hroom. simpl. split; [reflexivity |].
      intros Hne Hparse. unfold getCarLocation, getItem.
      rewrite lookup_written. simpl.
      destruct (String.eqb_spec
                  (JSON_stringify
                     (CarFinder.mkSaved
                        (mkCoordinates (Geo.pos_latitude pos)
                           (Geo.pos_longitude pos))
                        now (Some (Geo.pos_accuracy pos)))) EmptyString);
        [contradiction |].
      rewrite Hparse. reflexivity.
    + intros e Hfull. rewrite Hfull. simpl. repeat split.
Qed.

(** X29: [handleClearLocation] on a storage that can be accessed forgets
    the location in the component and in the storage, returns to set mode
    and stops tracking exactly as [handleBackToSet] does, leaving no watch
    registered when the hook owned the watches.  On a storage whose access
    throws, the exception escapes before anything else is done: the state
    is as before, a running watch included. *)
Theorem handleClearLocation_spec (a : CarFinder.App E) :
  (forall items, CarFinder.localStorage E a = Items items ->
   let cleared := CarFinder.handleClearLocation E a in
   let back := CarFinder.handleBackToSet E a in
   snd cleared = None /\
   CarFinder.savedLocation E (fst cleared) = None /\
   getCarLocation E CarFinder.SavedLocation JSON_parse
     (CarFinder.localStorage E (fst cleared)) = Normal None /\
   CarFinder.mode E (fst cleared) = CarFinder.set /\
   CarFinder.geo E (fst cleared) = CarFinder.geo E back /\
   CarFinder.nav E (fst cleared) = CarFinder.nav E back /\
   CarFinder.compass E (fst cleared) = CarFinder.compass E back /\
   CarFinder.window E (fst cleared) = CarFinder.window E back /\
   Geo.isTracking (CarFinder.geo E (fst cleared)) = false /\
   Geo.position (CarFinder.geo E (fst cleared))
   = Geo.position (CarFinder.geo E a) /\
   (ownsWatches (CarFinder.geo E a, CarFinder.nav E a) ->
    Geo.watches (CarFinder.nav E (fst cleared)) = [])) /\
  (forall e, CarFinder.localStorage E a = Refused e ->
   CarFinder.handleClearLocation E a = (a, Some e)).
Proof.
  split.
  - intros items Hls cleared back.
    unfold cleared, back, CarFinder.handleClearLocation,
      CarFinder.handleBackToSet.
    rewrite Hls. unfold clearCarLocation, removeItem.
    pose proof (step_ownsWatches (CarFinder.geo E a, CarFinder.nav E a)
                  Geo.Stop) as Hstop.
    unfold Geo.step in Hstop.
    pose proof (stopTracking_frame (CarFinder.geo E a, CarFinder.nav E a))
      as Hframe.
    destruct (Geo.stopTracking (CarFinder.geo E a, CarFinder.nav E a))
      as [geo1 nav1].
    destruct (Orientation.stopListening
                (CarFinder.compass E a, CarFinder.window E a))
      as [compass1 window1].
    simpl in *. destruct Hframe as [Htr [Hpos Hid]].
    repeat split; try assumption.
    + unfold getCarLocation, getItem. rewrite lookup_remove_same. reflexivity.
    + intros Hown. destruct (Hstop Hown) as [Hw _]. simpl in Hw.
      rewrite Hw, Hid. reflexivity.
  - intros e Hls. unfold CarFinder.handleClearLocation.
    rewrite Hls. reflexivity.
Qed.

(** X30: on a device where the compass needs permission,
    [handleStartNavigation] never starts the compass in the call that asks
    for the permission: it decides with the [needsPermission] of the
    render it belongs to.  Navigation starts with no listener and no
    timer; when permission is granted the arrow stays in compass mode, and
    only a second call attaches the listener. *)
Theorem handleStartNavigation_needs_second_call (a : CarFinder.App E)
  (checkNeedsPermission supported : bool)
  (outcome : Orientation.PermissionOutcome) :
  Orientation.needsPermission (CarFinder.compass E a) = true ->
  let first :=
    CarFinder.handleStartNavigation E checkNeedsPermission supported
      outcome a in
  snd first = None /\
  CarFinder.window E (fst first) = CarFinder.window E a /\
  Orientation.isActive (CarFinder.compass E (fst first))
  = Orientation.isActive (CarFinder.compass E a) /\
  Orientation.heading (CarFinder.compass E (fst first))
  = Orientation.heading (CarFinder.compass E a) /\
  CarFinder.mode E (fst first) = CarFinder.find /\
  (checkNeedsPermission = true -> outcome = Orientation.Granted ->
   Orientation.needsPermission (CarFinder.compass E (fst first)) = false /\
   CarFinder.useSimpleMode E (fst first) = CarFinder.useSimpleMode E a /\
   (Orientation.isAvailable (CarFinder.compass E a) = true ->
    forall check' outcome',
      let second :=
        CarFinder.handleStartNavigation E check' true outcome' (fst first) in
      In true (CarFinder.window E (fst second)) /\
      Orientation.isActive (CarFinder.compass E (fst second)) = true /\
      snd second = Some (Orientation.heading (CarFinder.compass E a)))) /\
  (checkNeedsPermission = true -> outcome <> Orientation.Granted ->
   CarFinder.useSimpleMode E (fst first) = true /\
   Orientation.isAvailable (CarFinder.compass E (fst first)) = false /\
   Orientation.needsPermission (CarFinder.compass E (fst first)) = true).
Proof.
  intros Hneeds first.
  assert (Hbase :
    snd first = None /\
    CarFinder.window E (fst first) = CarFinder.window E a /\
    Orientation.isActive (CarFinder.compass E (fst first))
    = Orientation.isActive (CarFinder.compass E a) /\
    Orientation.heading (CarFinder.compass E (fst first))
    = Orientation.heading (CarFinder.compass E a) /\
    CarFinder.mode E (fst first) = CarFinder.find).
  { unfold first, CarFinder.handleStartNavigation,
      Orientation.requestPermission.
    rewrite Hneeds. cbv zeta. rewrite Bool.andb_false_r.
    destruct (Geo.startTracking (CarFinder.geo E a, CarFinder.nav E a))
      as [geo1 nav1].
    destruct checkNeedsPermission, outcome; repeat split. }
  assert (Hgranted :
    checkNeedsPermission = true -> outcome = Orientation.Granted ->
    Orientation.needsPermission (CarFinder.compass E (fst first)) = false /\
    CarFinder.useSimpleMode E (fst first) = CarFinder.useSimpleMode E a /\
    Orientation.isAvailable (CarFinder.compass E (fst first))
    = Orientation.isAvailable (CarFinder.compass E a)).
  { intros Hc Ho.
    unfold first, CarFinder.handleStartNavigation,
      Orientation.requestPermission.
    rewrite Hneeds, Hc, Ho. cbv zeta. rewrite Bool.andb_false_r.
    destruct (Geo.startTracking (CarFinder.geo E a, CarFinder.nav E a))
      as [geo1 nav1].
    repeat split. }
  destruct Hbase as [Htimer [Hwin [Hact [Hhead Hmode]]]].
  repeat (split; [assumption |]).
  split.
  - intros Hc Ho. destruct (Hgranted Hc Ho) as [Hn [Hs Hav]].
    split; [exact Hn |]. split; [exact Hs |].
    intros Havail check' outcome' second.
    rewrite <- Hav in Havail.
    destruct (handleStartNavigation_starts_compass (fst first) check'
                outcome' Hn Havail) as [Ht [_ [_ [Hin Hactive]]]].
    fold second in Ht, Hin, Hactive. rewrite Hhead in Ht.
    repeat split; assumption.
  - intros Hc Hout.
    unfold first, CarFinder.handleStartNavigation,
      Orientation.requestPermission.
    rewrite Hneeds, Hc. cbv zeta. rewrite Bool.andb_false_r.
    destruct (Geo.startTracking (CarFinder.geo E a, CarFinder.nav E a))
      as [geo1 nav1].
    destruct outcome; [contradiction | |]; repeat split.
Qed.

End HandlerFacts.

Lemma timer_forces_simple_mode_witness :
  let started :=
    CarFinder.handleStartNavigation string false true Orientation.Granted
      (app0 false) in
  let received :=
    dispatchAll None [alpha90]
      (CarFinder.compass string (fst started),
       CarFinder.window string (fst started)) in
  let fired :=
    CarFinder.simpleModeEffect string
      (withCompass (fst started)
         (Orientation.timerFires None (fst received), snd received)) in
  snd started = Some None /\
  Orientation.heading (fst received) = Some (JS.rem (360 - 90 + 0) 360) /\
  Orientation.isAvailable (fst received) = true /\
  CarFinder.useSimpleMode string fired = true.
Proof.
  intros started received fired.
  destruct (timer_forces_simple_mode string (app0 false) false
              Orientation.Granted None [] alpha90
              (JS.rem (360 - 90 + 0) 360) eq_refl eq_refl eq_refl eq_refl)
    as [H1 [_ [H3 [H4 [_ [_ H7]]]]]].
  repeat split; assumption.
Defined.

Lemma handleSaveLocation_saves_best_witness :
  CarFinder.savedLocation string
    (CarFinder.handleSaveLocation string roomy (fun _ => savedText) true
       threeFixes 7 (app0 false))
  = Some (CarFinder.mkSaved (mkCoordinates 2 2) 7 (Some 5)).
Proof.
  destruct (handleSaveLocation_saves_best string roomy
              (fun _ => Storage.Normal
                          (CarFinder.mkSaved (mkCoordinates 2 2) 7 (Some 5)))
              (fun _ => savedText) true threeFixes 7 (app0 false) []
              eq_refl eq_refl) as [_ [_ Hsome]].
  destruct (Hsome 1%nat (Geo.mkPosition 2 2 5 1) ltac:(lia) eq_refl)
    as [i [pos [Hi [Hs [Hleast [Hsaved _]]]]]].
  pose proof (Hleast 1%nat (Geo.mkPosition 2 2 5 1) ltac:(lia) eq_refl)
    as Hle.
  destruct (Hsaved eq_refl) as [Hloc _].
  destruct i as [| [| [| i]]]; [| | | lia];
    simpl in Hs; inversion Hs; subst pos; simpl in Hle, Hloc;
    [lra | exact Hloc | lra].
Defined.

Lemma handleClearLocation_spec_witness :
  let a :=
    fst (CarFinder.handleStartNavigation string false true
           Orientation.Granted (app0 false)) in
  Geo.watches (CarFinder.nav string a) = [0%nat] /\
  snd (CarFinder.handleClearLocation string a) = None /\
  Geo.watches
    (CarFinder.nav string (fst (CarFinder.handleClearLocation string a)))
  = [].
Proof.
  intros a. split; [reflexivity |].
  destruct (handleClearLocation_spec string
              (fun _ => Storage.Throw "SyntaxError"%string) a)
    as [Hitems _].
  destruct (Hitems [] eq_refl)
    as [Hnone [_ [_ [_ [_ [_ [_ [_ [_ [_ Hwatches]]]]]]]]]].
  split; [exact Hnone |].
  apply Hwatches. split; reflexivity.
Defined.

Lemma handleStartNavigation_needs_second_call_witness :
  let first :=
    CarFinder.handleStartNavigation string true true Orientation.Granted
      (app0 true) in
  let second :=
    CarFinder.handleStartNavigation string true true Orientation.Granted
      (fst first) in
  snd first = None /\
  CarFinder.window string (fst first) = [] /\
  CarFinder.useSimpleMode string (fst first) = false /\
  In true (CarFinder.window string (fst second)) /\
  snd second = Some None.
Proof.
  intros first second.
  destruct (handleStartNavigation_needs_second_call string (app0 true) true
              true Orientation.Granted eq_refl)
    as [Htimer [Hwin [_ [_ [_ [Hgranted _]]]]]].
  destruct (Hgranted eq_refl eq_refl) as [_ [Hsimple Hsecond]].
  destruct (Hsecond eq_refl true Orientation.Granted) as [Hin [_ Ht]].
  repeat split; assumption.
Defined.
